(** * pping-exporter: passive TCP round-trip measurement

    A shallow embedding of [src/pping-exporter.cpp] and the properties of its
    correlation engine: the TSval table ([addTS], [getTStm]), the per-packet
    routine [process_packet], the reaper [cleanUp], the summary line and the
    option handling of [main].

    Conventions of the embedding.
    - [double] values (capture times, byte counters, age limits) are exact
      rationals [Q]; rounding of binary floating point is outside the model.
    - [int] and [int64_t] values are [Z]; the counters never come near their
      limits in the statements below, so no wrap-around is written.
    - [std::unordered_map<std::string, T*>] is a [gmap string T].  A record
      reached through a pointer is the value stored under its key; a write
      through the pointer is an update of the table at that key.
    - a C++ exception that nothing catches ends the process: [Throws].
    - the reaper runs in a thread of its own; a run interleaves its sweeps
      with whole packets. *)

From Stdlib Require Import Ascii QArith Qabs Qround ZArith Lia Lqa.
From stdpp Require Import gmap strings pretty list fin_maps.

(** ** Rational comparisons as the code writes them *)

(** [a < b] on doubles, as a boolean. *)
Definition Qltb (a b : Q) : bool := negb (Qle_bool b a).

(** ** Data model *)

(** [class flowRec]. *)
Record flowRec := mkFlowRec {
  flowname : string;
  last_tm : Q;
  min : Q;          (* current min value for capturepoint-to-source RTT *)
  bytesSnt : Q;     (* number of bytes sent through CP toward dst *)
  lstBytesSnt : Q;  (* value of bytesSnt at previous pping printing *)
  bytesDep : Q;
  revFlow : bool    (* indicates if a reverse flow has been seen *)
}.

(** [new flowRec(nm)]: the member initialisers of the class. *)
Definition new_flowRec (nm : string) : flowRec :=
  {| flowname := nm; last_tm := 0; min := 1e30; bytesSnt := 0;
     lstBytesSnt := 0; bytesDep := 0; revFlow := false |}.

Definition set_last_tm (v : Q) (fr : flowRec) : flowRec :=
  {| flowname := flowname fr; last_tm := v; min := min fr;
     bytesSnt := bytesSnt fr; lstBytesSnt := lstBytesSnt fr;
     bytesDep := bytesDep fr; revFlow := revFlow fr |}.

Definition set_min (v : Q) (fr : flowRec) : flowRec :=
  {| flowname := flowname fr; last_tm := last_tm fr; min := v;
     bytesSnt := bytesSnt fr; lstBytesSnt := lstBytesSnt fr;
     bytesDep := bytesDep fr; revFlow := revFlow fr |}.

Definition set_bytesSnt (v : Q) (fr : flowRec) : flowRec :=
  {| flowname := flowname fr; last_tm := last_tm fr; min := min fr;
     bytesSnt := v; lstBytesSnt := lstBytesSnt fr;
     bytesDep := bytesDep fr; revFlow := revFlow fr |}.

Definition set_lstBytesSnt (v : Q) (fr : flowRec) : flowRec :=
  {| flowname := flowname fr; last_tm := last_tm fr; min := min fr;
     bytesSnt := bytesSnt fr; lstBytesSnt := v;
     bytesDep := bytesDep fr; revFlow := revFlow fr |}.

Definition set_bytesDep (v : Q) (fr : flowRec) : flowRec :=
  {| flowname := flowname fr; last_tm := last_tm fr; min := min fr;
     bytesSnt := bytesSnt fr; lstBytesSnt := lstBytesSnt fr;
     bytesDep := v; revFlow := revFlow fr |}.

Definition set_revFlow (v : bool) (fr : flowRec) : flowRec :=
  {| flowname := flowname fr; last_tm := last_tm fr; min := min fr;
     bytesSnt := bytesSnt fr; lstBytesSnt := lstBytesSnt fr;
     bytesDep := bytesDep fr; revFlow := v |}.

(** [class tsInfo]. *)
Record tsInfo := mkTsInfo {
  t : Q;        (* wall clock time of new TSval pkt arrival *)
  fBytes : Q;   (* total bytes of flow through CP including this pkt *)
  dBytes : Q
}.

Definition set_t (v : Q) (ti : tsInfo) : tsInfo :=
  {| t := v; fBytes := fBytes ti; dBytes := dBytes ti |}.

(** An address range of libtins, by its first and last address. *)
Definition IPv4Range : Type := (N * N)%type.

Definition range_contains (r : IPv4Range) (addr : N) : bool :=
  ((fst r <=? addr) && (addr <=? snd r))%N.

(** The settings [main] fixes before the packet loop starts.
    [IPv4Address_of] stands for libtins' conversion of a string to an
    [IPv4Address], which [process_packet] applies implicitly to [ipdstr];
    [None] is the [invalid_address] exception it throws on a string that is
    not a dotted quad. *)
Record Config := mkConfig {
  tsvalMaxAge : Q;
  flowMaxIdle : Q;
  sumInt : Q;
  maxFlows : Z;
  filtLocal : bool;
  machineReadable : bool;
  localRanges : list IPv4Range;
  IPv4Address_of : string -> option N
}.

(** The globals that [process_packet] and [cleanUp] read and write. *)
Record State := mkState {
  flows : gmap string flowRec;
  tsTbl : gmap string tsInfo;
  flowCnt : Z;
  offTm : Z;
  capTm : Q;
  startm : Q;
  pktCnt : Z;
  not_tcp : Z;
  no_TS : Z;
  not_v4or6 : Z;
  uniDir : Z
}.

(** The values of the globals when [main] starts. *)
Definition init_state : State :=
  {| flows := ∅; tsTbl := ∅; flowCnt := 0; offTm := -1; capTm := 0;
     startm := 0; pktCnt := 0; not_tcp := 0; no_TS := 0; not_v4or6 := 0;
     uniDir := 0 |}.

Definition set_tables (fl : gmap string flowRec) (tb : gmap string tsInfo)
    (s : State) : State :=
  {| flows := fl; tsTbl := tb; flowCnt := flowCnt s; offTm := offTm s;
     capTm := capTm s; startm := startm s; pktCnt := pktCnt s;
     not_tcp := not_tcp s; no_TS := no_TS s; not_v4or6 := not_v4or6 s;
     uniDir := uniDir s |}.

Definition set_flows (fl : gmap string flowRec) (s : State) : State :=
  set_tables fl (tsTbl s) s.

Definition set_flowCnt (v : Z) (s : State) : State :=
  {| flows := flows s; tsTbl := tsTbl s; flowCnt := v; offTm := offTm s;
     capTm := capTm s; startm := startm s; pktCnt := pktCnt s;
     not_tcp := not_tcp s; no_TS := no_TS s; not_v4or6 := not_v4or6 s;
     uniDir := uniDir s |}.

Definition set_clock (off : Z) (cap st : Q) (s : State) : State :=
  {| flows := flows s; tsTbl := tsTbl s; flowCnt := flowCnt s; offTm := off;
     capTm := cap; startm := st; pktCnt := pktCnt s;
     not_tcp := not_tcp s; no_TS := no_TS s; not_v4or6 := not_v4or6 s;
     uniDir := uniDir s |}.

Definition set_counters (p nt ns nv u : Z) (s : State) : State :=
  {| flows := flows s; tsTbl := tsTbl s; flowCnt := flowCnt s;
     offTm := offTm s; capTm := capTm s; startm := startm s; pktCnt := p;
     not_tcp := nt; no_TS := ns; not_v4or6 := nv; uniDir := u |}.

Definition inc_pktCnt (s : State) : State :=
  set_counters (pktCnt s + 1) (not_tcp s) (no_TS s) (not_v4or6 s) (uniDir s) s.
Definition inc_not_tcp (s : State) : State :=
  set_counters (pktCnt s) (not_tcp s + 1) (no_TS s) (not_v4or6 s) (uniDir s) s.
Definition inc_no_TS (s : State) : State :=
  set_counters (pktCnt s) (not_tcp s) (no_TS s + 1) (not_v4or6 s) (uniDir s) s.
Definition inc_not_v4or6 (s : State) : State :=
  set_counters (pktCnt s) (not_tcp s) (no_TS s) (not_v4or6 s + 1) (uniDir s) s.
Definition inc_uniDir (s : State) : State :=
  set_counters (pktCnt s) (not_tcp s) (no_TS s) (not_v4or6 s) (uniDir s + 1) s.

(** ** Packets, as libtins hands them to [process_packet] *)

(** The TCP layer: ports, the flags byte and the timestamp option
    ([None] when [timestamp()] throws because the option is absent). *)
Record TCP := mkTCP {
  sport : N;
  dport : N;
  flags : N;
  timestamp : option (N * N)
}.

Definition TCP_SYN : N := 2.

(** The network layer found by [find_pdu]: the printed source and
    destination addresses of an IPv4 or an IPv6 header, or neither. *)
Inductive NetPDU :=
  | PduIP (src_addr dst_addr : string)
  | PduIPv6 (src_addr dst_addr : string)
  | PduNone.

Record Packet := mkPacket {
  ts_seconds : Z;        (* pkt.timestamp().seconds() *)
  ts_microseconds : Z;   (* pkt.timestamp().microseconds() *)
  tcp : option TCP;
  net : NetPDU;
  pdu_size : N           (* pkt.pdu()->size() *)
}.

(** One RTT line on standard output together with the observation handed
    to the summary vector.  [matched_flow] and [matched_tsval] name the
    TSval entry whose time was used: the reversed flow and the packet's ECR. *)
Record Sample := mkSample {
  s_flow : string;        (* fstr, printed last on the line *)
  s_capTm : Q;
  s_rtt : Q;
  s_min : Q;
  s_fBytes : Q;
  s_dBytes : Q;
  s_pBytes : Q;
  s_labels : string * string * string;
  s_observed_ms : Q;      (* rtt * 1000 *)
  matched_flow : string;
  matched_tsval : N
}.

Inductive exn := out_of_range | invalid_address.

Inductive outcome :=
  | Returns (s : State) (out : list Sample)
  | Throws (e : exn).

(** ** The TSval table *)

(** [addTS]: both branches of the [#ifdef] insert only under a key that is
    not in the table; the [tsInfo] that was not stored is deleted. *)
Definition addTS (key : string) (ti : tsInfo) (tbl : gmap string tsInfo)
    : gmap string tsInfo :=
  match tbl !! key with
  | None => <[key := ti]> tbl
  | Some _ => tbl
  end.

(** [getTStm]: [tsTbl.at(key)], with [nullptr] for [out_of_range]. *)
Definition getTStm (key : string) (tbl : gmap string tsInfo) : option tsInfo :=
  tbl !! key.

Fixpoint ipRangesContains (ranges : list IPv4Range) (addr : N) : bool :=
  match ranges with
  | [] => false
  | range :: rest =>
      if range_contains range addr then true else ipRangesContains rest addr
  end.

(** ** process_packet *)

(** The capture clock (the block "process capture clock time"). *)
Definition normalize_time (s : State) (pkt : Packet) : State :=
  if (offTm s <? 0)%Z then
    let st := (inject_Z (ts_microseconds pkt) * 1e-6)%Q in
    set_clock (ts_seconds pkt) st st s
  else
    let tt := (ts_seconds pkt - offTm s)%Z in
    set_clock (offTm s)
              (inject_Z tt + inject_Z (ts_microseconds pkt) * 1e-6)%Q
              (startm s) s.

Definition endpoint (ip : string) (port : N) : string :=
  ip +:+ ":" +:+ pretty port.

Definition flow_key (src dst : string) : string := src +:+ "+" +:+ dst.

Definition ts_key (fstr : string) (tsval : N) : string :=
  fstr +:+ "+" +:+ pretty tsval.

(** "Creates a flowRec entry whenever needed": the record [fr] points to
    and the state after the creation, or [None] when the function returns
    because [flowCnt > maxFlows]. *)
Definition find_flow (cfg : Config) (s : State) (fstr rstr : string)
    : option (State * flowRec) :=
  match flows s !! fstr with
  | None =>
      if (maxFlows cfg <? flowCnt s)%Z then None
      else
        let fr := new_flowRec fstr in
        let fl := <[fstr := fr]> (flows s) in
        let s' := set_flowCnt (flowCnt s + 1) s in
        match fl !! rstr with
        | Some _ =>
            let fl' := alter (set_revFlow true) rstr fl in
            let fr' := set_revFlow true fr in
            Some (set_flows (<[fstr := fr']> fl') s', fr')
        | None => Some (set_flows fl s', fr)
        end
  | Some fr => Some (s, fr)
  end.

(** The forward recording: [None] when the conversion of [ipdstr] to an
    [IPv4Address] throws. *)
Definition record_fwd (cfg : Config) (ipdstr key : string) (ti : tsInfo)
    (tbl : gmap string tsInfo) : option (gmap string tsInfo) :=
  if negb (filtLocal cfg) then Some (addTS key ti tbl)
  else
    match IPv4Address_of cfg ipdstr with
    | None => None
    | Some a =>
        if negb (ipRangesContains (localRanges cfg) a)
        then Some (addTS key ti tbl) else Some tbl
    end.

(** The part of [process_packet] after the capture clock.  [fr] is kept as
    a value while the code writes through the pointer and is stored back
    under [fstr] wherever the code reads [flows] again or returns. *)
Definition track (cfg : Config) (s : State) (pkt : Packet) (t_tcp : TCP)
    (rcv_tsval rcv_tsecr : N) (ipsstr ipdstr : string) : outcome :=
  let srcstr := endpoint ipsstr (sport t_tcp) in
  let dststr := endpoint ipdstr (dport t_tcp) in
  let fstr := flow_key srcstr dststr in
  let rstr := flow_key dststr srcstr in
  match find_flow cfg s fstr rstr with
  | None => Returns s []
  | Some (s2, fr0) =>
      let fr1 := set_last_tm (capTm s2) fr0 in
      if negb (revFlow fr1) then
        Returns (inc_uniDir (set_flows (<[fstr := fr1]> (flows s2)) s2)) []
      else
        let arr_fwd := (bytesSnt fr1 + inject_Z (Z.of_N (pdu_size pkt)))%Q in
        let fr2 := set_bytesSnt arr_fwd fr1 in
        match record_fwd cfg ipdstr (ts_key fstr rcv_tsval)
                (mkTsInfo (capTm s2) arr_fwd (bytesDep fr2)) (tsTbl s2) with
        | None => Throws invalid_address
        | Some tbl1 =>
            let mkey := ts_key rstr rcv_tsecr in
            match getTStm mkey tbl1 with
            | Some ti =>
                if Qltb 0 (t ti) then
                  let t0 := t ti in
                  let rtt := (capTm s2 - t0)%Q in
                  let fr3 := if Qltb rtt (min fr2) then set_min rtt fr2
                             else fr2 in
                  let pBytes := (arr_fwd - lstBytesSnt fr3)%Q in
                  let fr4 := set_lstBytesSnt arr_fwd fr3 in
                  let fl := <[fstr := fr4]> (flows s2) in
                  match fl !! rstr with
                  | None => Throws out_of_range
                  | Some _ =>
                      let fl' := alter (set_bytesDep (fBytes ti)) rstr fl in
                      let sample :=
                        {| s_flow := fstr; s_capTm := capTm s2;
                           s_rtt := rtt; s_min := min fr4;
                           s_fBytes := fBytes ti; s_dBytes := dBytes ti;
                           s_pBytes := pBytes;
                           s_labels := (ipsstr, ipdstr, pretty (dport t_tcp));
                           s_observed_ms := (rtt * 1000)%Q;
                           matched_flow := rstr;
                           matched_tsval := rcv_tsecr |} in
                      Returns
                        (set_tables fl' (<[mkey := set_t (- t0) ti]> tbl1) s2)
                        [sample]
                  end
                else
                  Returns (set_tables (<[fstr := fr2]> (flows s2)) tbl1 s2) []
            | None =>
                Returns (set_tables (<[fstr := fr2]> (flows s2)) tbl1 s2) []
            end
        end
  end.

(** The classification at the head of [process_packet]. *)
Definition unusable_ts (t_tcp : TCP) (rcv_tsval rcv_tsecr : N) : bool :=
  ((rcv_tsval =? 0) || ((rcv_tsecr =? 0) && negb (flags t_tcp =? TCP_SYN)))%N.

Definition process_packet (cfg : Config) (s0 : State) (pkt : Packet)
    : outcome :=
  let s1 := inc_pktCnt s0 in
  match tcp pkt with
  | None => Returns (inc_not_tcp s1) []
  | Some t_tcp =>
      match timestamp t_tcp with
      | None => Returns (inc_no_TS s1) []
      | Some (rcv_tsval, rcv_tsecr) =>
          if unusable_ts t_tcp rcv_tsval rcv_tsecr then Returns s1 []
          else
            match net pkt with
            | PduIP ipsstr ipdstr | PduIPv6 ipsstr ipdstr =>
                track cfg (normalize_time s1 pkt) pkt t_tcp
                      rcv_tsval rcv_tsecr ipsstr ipdstr
            | PduNone => Returns (inc_not_v4or6 s1) []
            end
      end
  end.

(** ** The reaper *)

(** The condition of the first loop of [cleanUp]. *)
Definition ts_expired (cfg : Config) (n : Q) (ti : tsInfo) : bool :=
  Qltb (tsvalMaxAge cfg) (n - Qabs (t ti)).

(** The condition of the second loop. *)
Definition flow_idle (cfg : Config) (n : Q) (fr : flowRec) : bool :=
  Qltb (flowMaxIdle cfg) (n - last_tm fr).

(** [cleanUp]: each loop walks its table once and erases the entries that
    meet the condition; the second loop also decrements [flowCnt].  The
    iteration order of the table is [map_fold]'s.  The deletion of the
    flow's label values from the Prometheus summary acts on the exporter
    only and is left out. *)
Definition cleanUp (cfg : Config) (n : Q) (s : State) : State :=
  let tbl :=
    map_fold (fun key ti acc =>
                if ts_expired cfg n ti then delete key acc else acc)
             (tsTbl s) (tsTbl s) in
  let flc :=
    map_fold (fun key fr (acc : gmap string flowRec * Z) =>
                if flow_idle cfg n fr then (delete key (fst acc), snd acc - 1)%Z
                else acc)
             (flows s, flowCnt s) (flows s) in
  set_flowCnt (snd flc) (set_tables (fst flc) tbl s).

(** One iteration of [cleanUpLoop], [now] being
    [Timestamp::current_time().seconds()]. *)
Definition cleanUpLoop_body (cfg : Config) (now : Z) (s : State) : State :=
  if (0 <? offTm s)%Z then cleanUp cfg (inject_Z (now - offTm s)) s else s.

(** ** Runs *)

(** What happens to the tables during a run: the packet loop handles the
    next packet, or the reaper wakes up. *)
Inductive event :=
  | Pkt (pkt : Packet)
  | Reap (now : Z).

(** One step of a run, followed for the tables, [flowCnt] and the clock.
    The summary block that ends the body of the packet loop resets the
    five packet counters and touches nothing else; it is not part of a
    step, so runs carry no statement about those counters: the loop with
    that block is [packet_loop]. *)
Definition step (cfg : Config) (s : State) (e : event) : outcome :=
  match e with
  | Pkt pkt => process_packet cfg s pkt
  | Reap now => Returns (cleanUpLoop_body cfg now s) []
  end.

(** A step of a run: the state it started from, the event and the result. *)
Record StepRec := mkStepRec {
  pre : State;
  ev : event;
  res : outcome
}.

(** The steps of a run; an exception ends it. *)
Fixpoint exec (cfg : Config) (s : State) (evs : list event) : list StepRec :=
  match evs with
  | [] => []
  | e :: evs' =>
      let r := step cfg s e in
      mkStepRec s e r ::
        match r with
        | Returns s' _ => exec cfg s' evs'
        | Throws _ => []
        end
  end.

Definition outs (r : outcome) : list Sample :=
  match r with
  | Returns _ out => out
  | Throws _ => []
  end.

(** All RTT samples of a run, in order. *)
Definition emitted (tr : list StepRec) : list Sample :=
  flat_map (fun st => outs (res st)) tr.

(** The state a run ends in ([None] after an exception). *)
Fixpoint final (s : State) (tr : list StepRec) : option State :=
  match tr with
  | [] => Some s
  | st :: tr' =>
      match res st with
      | Returns s' _ => final s' tr'
      | Throws _ => None
      end
  end.

(** ** The summary line *)

Definition printnz (v : Z) (s : string) : string :=
  if (0 <? v)%Z then pretty v +:+ s else EmptyString.

Definition newline : string := String (Ascii.ascii_of_nat 10) EmptyString.

(** [printSummary]: the text written to standard error. *)
Definition printSummary (s : State) : string :=
  pretty (flowCnt s) +:+ " flows, " +:+
  pretty (pktCnt s) +:+ " packets, " +:+
  printnz (no_TS s) " no TS opt, " +:+
  printnz (uniDir s) " uni-directional, " +:+
  printnz (not_tcp s) " not TCP, " +:+
  printnz (not_v4or6 s) " not v4 or v6, " +:+
  newline.

(** The summary block that ends the body of the packet loop in [main]:
    the state, the local [nxtSum] and the lines written to standard error.
    It prints and resets the packet counters and touches nothing else, so
    the runs below leave it out. *)
Definition summary_block (cfg : Config) (nxtSum : Q) (s : State)
    : State * Q * list string :=
  if Qle_bool nxtSum (capTm s) && negb (Qeq_bool (sumInt cfg) 0) then
    if Qltb 0 nxtSum then
      (set_counters 0 0 0 0 0 s, (capTm s + sumInt cfg)%Q, [printSummary s])
    else (s, (capTm s + sumInt cfg)%Q, [])
  else (s, nxtSum, []).

(** The four counters [printSummary] reports through [printnz]. *)
Definition rejection_counters (s : State) : Z * Z * Z * Z :=
  (no_TS s, uniDir s, not_tcp s, not_v4or6 s).

(** ** Option handling of [main] *)

(** One result of [getopt_long]: the option character with its argument;
    numeric arguments carry the value of [atof(optarg)]. *)
Inductive opt :=
  | Opt_i (optarg : string)
  | Opt_r (optarg : string)
  | Opt_f (optarg : string)
  | Opt_c (num : Q)
  | Opt_s (num : Q)
  | Opt_q
  | Opt_v
  | Opt_l
  | Opt_m
  | Opt_S (num : Q)
  | Opt_M (num : Q)
  | Opt_F (num : Q)
  | Opt_h
  | Opt_a (optarg : string)
  | Opt_L (optarg : string).

(** The globals and locals the option loop assigns. *)
Record Options := mkOptions {
  liveInp : bool;
  fname : string;
  filter_expr : string;
  maxPackets : Z;
  time_to_run : Q;
  o_sumInt : Q;
  o_filtLocal : bool;
  o_machineReadable : bool;
  o_tsvalMaxAge : Q;
  o_flowMaxIdle : Q;
  listenAddr : string;      (* the global [listenAddr] *)
  strRanges : list string
}.

Definition default_options : Options :=
  {| liveInp := false; fname := EmptyString; filter_expr := "tcp"; maxPackets := 0;
     time_to_run := 0; o_sumInt := 10; o_filtLocal := true;
     o_machineReadable := false; o_tsvalMaxAge := 10; o_flowMaxIdle := 300;
     listenAddr := ":9876"; strRanges := [] |}.

(** Conversion of a double to [int], towards zero. *)
Definition Qtrunc (q : Q) : Z := Z.quot (Qnum q) (Zpos (Qden q)).

(** The [switch] of the option loop; [inl code] is [exit(code)]. *)
Definition handle_opt (o : Options) (c : opt) : Z + Options :=
  match c with
  | Opt_i a => inr (mkOptions true a (filter_expr o) (maxPackets o)
      (time_to_run o) (o_sumInt o) (o_filtLocal o) (o_machineReadable o)
      (o_tsvalMaxAge o) (o_flowMaxIdle o) (listenAddr o) (strRanges o))
  | Opt_r a => inr (mkOptions (liveInp o) a (filter_expr o) (maxPackets o)
      (time_to_run o) (o_sumInt o) (o_filtLocal o) (o_machineReadable o)
      (o_tsvalMaxAge o) (o_flowMaxIdle o) (listenAddr o) (strRanges o))
  | Opt_f a => inr (mkOptions (liveInp o) (fname o)
      (filter_expr o +:+ " and (" +:+ a +:+ ")") (maxPackets o)
      (time_to_run o) (o_sumInt o) (o_filtLocal o) (o_machineReadable o)
      (o_tsvalMaxAge o) (o_flowMaxIdle o) (listenAddr o) (strRanges o))
  | Opt_c v => inr (mkOptions (liveInp o) (fname o) (filter_expr o) (Qtrunc v)
      (time_to_run o) (o_sumInt o) (o_filtLocal o) (o_machineReadable o)
      (o_tsvalMaxAge o) (o_flowMaxIdle o) (listenAddr o) (strRanges o))
  | Opt_s v => inr (mkOptions (liveInp o) (fname o) (filter_expr o)
      (maxPackets o) v (o_sumInt o) (o_filtLocal o) (o_machineReadable o)
      (o_tsvalMaxAge o) (o_flowMaxIdle o) (listenAddr o) (strRanges o))
  | Opt_q => inr (mkOptions (liveInp o) (fname o) (filter_expr o)
      (maxPackets o) (time_to_run o) 0 (o_filtLocal o) (o_machineReadable o)
      (o_tsvalMaxAge o) (o_flowMaxIdle o) (listenAddr o) (strRanges o))
  | Opt_v => inr o
  | Opt_l => inr (mkOptions (liveInp o) (fname o) (filter_expr o)
      (maxPackets o) (time_to_run o) (o_sumInt o) false (o_machineReadable o)
      (o_tsvalMaxAge o) (o_flowMaxIdle o) (listenAddr o) (strRanges o))
  | Opt_m => inr (mkOptions (liveInp o) (fname o) (filter_expr o)
      (maxPackets o) (time_to_run o) (o_sumInt o) (o_filtLocal o) true
      (o_tsvalMaxAge o) (o_flowMaxIdle o) (listenAddr o) (strRanges o))
  | Opt_S v => inr (mkOptions (liveInp o) (fname o) (filter_expr o)
      (maxPackets o) (time_to_run o) v (o_filtLocal o) (o_machineReadable o)
      (o_tsvalMaxAge o) (o_flowMaxIdle o) (listenAddr o) (strRanges o))
  | Opt_M v => inr (mkOptions (liveInp o) (fname o) (filter_expr o)
      (maxPackets o) (time_to_run o) (o_sumInt o) (o_filtLocal o)
      (o_machineReadable o) v (o_flowMaxIdle o) (listenAddr o) (strRanges o))
  | Opt_F v => inr (mkOptions (liveInp o) (fname o) (filter_expr o)
      (maxPackets o) (time_to_run o) (o_sumInt o) (o_filtLocal o)
      (o_machineReadable o) (o_tsvalMaxAge o) v (listenAddr o) (strRanges o))
  | Opt_h => inl 0%Z
  | Opt_a a => inr (mkOptions (liveInp o) (fname o) (filter_expr o)
      (maxPackets o) (time_to_run o) (o_sumInt o) (o_filtLocal o)
      (o_machineReadable o) (o_tsvalMaxAge o) (o_flowMaxIdle o) a
      (strRanges o))
  | Opt_L a => inr (mkOptions (liveInp o) (fname o) (filter_expr o)
      (maxPackets o) (time_to_run o) (o_sumInt o) (o_filtLocal o)
      (o_machineReadable o) (o_tsvalMaxAge o) (o_flowMaxIdle o) (listenAddr o)
      (strRanges o ++ [a]))
  end.

(** The [for] loop over [getopt_long]. *)
Fixpoint parse_opts (o : Options) (cs : list opt) : Z + Options :=
  match cs with
  | [] => inr o
  | c :: cs' =>
      match handle_opt o c with
      | inl code => inl code
      | inr o' => parse_opts o' cs'
      end
  end.

(** [main] up to the start of the metrics handler: the exit code when it
    leaves before, else the options and the two arguments of
    [StartPromHandler].  [leftover] is [optind < argc].  The address handed
    over is the variable [listenAddr] that [main] declares just before the
    call, which hides the global of the same name. *)
Definition main_start (cs : list opt) (leftover : bool)
    : Z + (Options * string * string) :=
  match cs, leftover with
  | [], false => inl 1%Z                       (* argc <= 1 *)
  | _, _ =>
      match parse_opts default_options cs with
      | inl code => inl code
      | inr o =>
          if leftover || bool_decide (fname o = EmptyString) then inl 1%Z
          else
            let listenAddr_main : string := ":9876" in
            inr (o, listenAddr_main, "/metrics")
      end
  end.

(** ** Observations on runs *)

(** The samples of a run that used the entry of flow [f] and TSval [v]. *)
Definition emitted_for (f : string) (v : N) (tr : list StepRec) : nat :=
  length (filter (fun x => matched_flow x = f ∧ matched_tsval x = v)
                 (emitted tr)).

(** The step removed the entry under [k] from the TSval table. *)
Definition erasesb (k : string) (st : StepRec) : bool :=
  match tsTbl (pre st) !! k, res st with
  | Some _, Returns s' _ =>
      match tsTbl s' !! k with None => true | Some _ => false end
  | _, _ => false
  end.

(** How often a run removed the entry under [k]. *)
Definition erased (k : string) (tr : list StepRec) : nat :=
  length (filter (fun st => erasesb k st = true) tr).

(** Whether the entry under [k] can still yield a sample: it is absent
    (and may be created) or present with a positive time. *)
Definition avail_tbl (k : string) (tbl : gmap string tsInfo) : nat :=
  match tbl !! k with
  | Some ti => if Qltb 0 (t ti) then 1 else 0
  | None => 1
  end.

Definition avail (k : string) (s : State) : nat := avail_tbl k (tsTbl s).

(** The update of [fr->min] on a sample. *)
Definition min_of (m rtt : Q) : Q := if Qltb rtt m then rtt else m.

(** The RTT values printed for flow [f] in a list of samples. *)
Definition rtts_for (f : string) (out : list Sample) : list Q :=
  map s_rtt (filter (fun x => s_flow x = f) out).

(** The RTT values emitted for flow [f] since its present record was
    created: a step that starts without a record for [f] starts afresh. *)
Fixpoint life_rtts (f : string) (acc : list Q) (tr : list StepRec) : list Q :=
  match tr with
  | [] => acc
  | st :: tr' =>
      let base := match flows (pre st) !! f with
                  | Some _ => acc
                  | None => []
                  end in
      life_rtts f (base ++ rtts_for f (outs (res st))) tr'
  end.

(** Capture timestamps as pcap delivers them. *)
Definition wf_packet (pkt : Packet) : Prop :=
  (0 <= ts_seconds pkt < 2 ^ 63)%Z ∧ (0 <= ts_microseconds pkt < 1000000)%Z.

Definition wf_event (e : event) : Prop :=
  match e with
  | Pkt pkt => wf_packet pkt
  | Reap _ => True
  end.

(** The packets that pass the classification, with what [process_packet]
    extracts from them. *)
Definition usable (pkt : Packet) : option (TCP * N * N * string * string) :=
  match tcp pkt with
  | None => None
  | Some t_tcp =>
      match timestamp t_tcp with
      | None => None
      | Some (v, e) =>
          if unusable_ts t_tcp v e then None
          else match net pkt with
               | PduIP a b | PduIPv6 a b => Some (t_tcp, v, e, a, b)
               | PduNone => None
               end
      end
  end.

(** Flow keys of a usable packet: forward and reversed. *)
Definition fstr_of (t_tcp : TCP) (ipsstr ipdstr : string) : string :=
  flow_key (endpoint ipsstr (sport t_tcp)) (endpoint ipdstr (dport t_tcp)).

Definition rstr_of (t_tcp : TCP) (ipsstr ipdstr : string) : string :=
  flow_key (endpoint ipdstr (dport t_tcp)) (endpoint ipsstr (sport t_tcp)).

(** ** Concrete settings and packets for the examples *)

(** Reading of a dotted quad, for the examples: the four octets in host
    order, [None] for anything else. *)
Fixpoint parse_octets (s : string) (cur : option N) (acc : list N)
    : option (list N) :=
  match s with
  | EmptyString =>
      match cur with
      | Some n => Some (acc ++ [n])
      | None => None
      end
  | String c s' =>
      if Ascii.eqb c "."%char then
        match cur with
        | Some n => parse_octets s' None (acc ++ [n])
        | None => None
        end
      else
        let d := Ascii.N_of_ascii c in
        if ((48 <=? d) && (d <=? 57))%N then
          let n := (match cur with Some n => n * 10 | None => 0 end
                    + (d - 48))%N in
          if (n <=? 255)%N then parse_octets s' (Some n) acc else None
        else None
  end.

Definition dotted_quad (s : string) : option N :=
  match parse_octets s None [] with
  | Some [a; b; c; d] => Some (a * 16777216 + b * 65536 + c * 256 + d)%N
  | _ => None
  end.

(** The settings of a run started with [-r file] and no other option. *)
Definition default_config : Config :=
  {| tsvalMaxAge := 10; flowMaxIdle := 300; sumInt := 10; maxFlows := 10000;
     filtLocal := true; machineReadable := false; localRanges := [];
     IPv4Address_of := dotted_quad |}.

(** A TCP/IPv4 packet with a timestamp option. *)
Definition tcp4 (sec usec : Z) (src : string) (sp : N) (dst : string) (dp : N)
    (fl : N) (tsval ecr : N) (size : N) : Packet :=
  {| ts_seconds := sec; ts_microseconds := usec;
     tcp := Some {| sport := sp; dport := dp; flags := fl;
                    timestamp := Some (tsval, ecr) |};
     net := PduIP src dst; pdu_size := size |}.

Definition TCP_ACK : N := 16.

Definition hostA : string := "10.0.0.1".
Definition hostB : string := "10.0.0.2".
Definition keyAB : string := "10.0.0.1:1000+10.0.0.2:80".
Definition keyBA : string := "10.0.0.2:80+10.0.0.1:1000".

(** A handshake that makes both directions known, a TSval 5 of B echoed
    by A, reaper ticks ten and twenty seconds after the first packet (the
    reaper wakes every [tsvalMaxAge] seconds), and then the same TSval 5
    of B once more, echoed by A again. *)
Definition tsval_reuse_run : list event :=
  [ Pkt (tcp4 100 0 hostA 1000 hostB 80 TCP_SYN 1 0 60);
    Pkt (tcp4 100 500000 hostB 80 hostA 1000 18 5 1 60);
    Pkt (tcp4 100 600000 hostA 1000 hostB 80 TCP_ACK 7 5 60);
    Reap 110;
    Reap 120;
    Pkt (tcp4 121 0 hostB 80 hostA 1000 TCP_ACK 5 7 60);
    Pkt (tcp4 121 500000 hostA 1000 hostB 80 TCP_ACK 9 5 60) ].

(** A state whose TSval table holds an old unmatched entry, an old
    matched entry and a young entry. *)
Definition sweep_state : State :=
  set_tables ∅ (<["f+1" := mkTsInfo 1 0 0]>
                  (<["f+2" := mkTsInfo (-2) 0 0]>
                     (<["f+3" := mkTsInfo 15 0 0]> ∅)))
             (set_clock 100 20 0 init_state).

(** Two forward packets of A with the same TSval 100, ten milliseconds
    apart, on an established connection. *)
Definition established_run : list event :=
  [ Pkt (tcp4 100 0 hostA 1000 hostB 80 TCP_SYN 1 0 60);
    Pkt (tcp4 100 1000 hostB 80 hostA 1000 18 5 1 60) ].

Definition dup_first : Packet :=
  tcp4 100 2000 hostA 1000 hostB 80 TCP_ACK 100 5 60.
Definition dup_second : Packet :=
  tcp4 100 12000 hostA 1000 hostB 80 TCP_ACK 100 5 60.

(** The state a run from the start ends in; the start state itself when
    the run ended with an exception. *)
Definition state_after (cfg : Config) (evs : list event) : State :=
  match final init_state (exec cfg init_state evs) with
  | Some s => s
  | None => init_state
  end.

(** A TCP/IPv4 packet on an established connection whose timestamp
    option carries TSval 0. *)
Definition zero_tsval_packet : Packet :=
  tcp4 100 3000 hostA 1000 hostB 80 TCP_ACK 0 5 60.

(** A packet without TCP layer, one without timestamp option and one
    with neither IPv4 nor IPv6 header. *)
Definition not_tcp_packet : Packet :=
  {| ts_seconds := 100; ts_microseconds := 0; tcp := None;
     net := PduIP hostA hostB; pdu_size := 60 |}.
Definition no_TS_packet : Packet :=
  {| ts_seconds := 100; ts_microseconds := 0;
     tcp := Some (mkTCP 1000 80 TCP_ACK None);
     net := PduIP hostA hostB; pdu_size := 60 |}.
Definition not_ip_packet : Packet :=
  {| ts_seconds := 100; ts_microseconds := 0;
     tcp := Some (mkTCP 1000 80 TCP_ACK (Some (1%N, 1%N)));
     net := PduNone; pdu_size := 60 |}.

(** The settings after [--tsvalMaxAge 100 --flowMaxIdle 10]. *)
Definition long_age_config : Config :=
  {| tsvalMaxAge := 100; flowMaxIdle := 10; sumInt := 10; maxFlows := 10000;
     filtLocal := true; machineReadable := false; localRanges := [];
     IPv4Address_of := dotted_quad |}.

(** B records TSval 5 and falls silent, A keeps sending; the reaper
    drops B's idle flow record but keeps its TSval entry; then A echoes 5. *)
Definition evicted_reverse_run : list event :=
  [ Pkt (tcp4 100 0 hostA 1000 hostB 80 TCP_SYN 1 0 60);
    Pkt (tcp4 101 0 hostB 80 hostA 1000 18 5 1 60);
    Pkt (tcp4 115 0 hostA 1000 hostB 80 TCP_ACK 7 3 60);
    Reap 120;
    Pkt (tcp4 121 0 hostA 1000 hostB 80 TCP_ACK 8 5 60) ].

(** The result of the last step of a run. *)
Definition last_result (tr : list StepRec) : option outcome :=
  match last tr with
  | Some st => Some (res st)
  | None => None
  end.

(** The command line [-r trace.pcap -a 127.0.0.1:9100]. *)
Definition listen_args : list opt :=
  [ Opt_r "trace.pcap"; Opt_a "127.0.0.1:9100" ].

(** A SYN from port 1000 of A to port [i] of B: a new flow for each [i]. *)
Definition syn_to_port (i : nat) : Packet :=
  tcp4 100 0 hostA 1000 hostB (N.of_nat i) TCP_SYN 1 0 60.

Definition port_key (i : nat) : string :=
  flow_key (endpoint hostA 1000) (endpoint hostB (N.of_nat i)).

Definition port_rkey (i : nat) : string :=
  flow_key (endpoint hostB (N.of_nat i)) (endpoint hostA 1000).

(** SYNs to the ports [1 .. n] of B. *)
Definition many_flows (n : nat) : list event :=
  map (fun i => Pkt (syn_to_port i)) (seq 1 n).

(** The flow table after the first [n] packets of [many_flows]. *)
Definition holds_ports (n : nat) (s : State) : Prop :=
  flowCnt s = Z.of_nat n ∧ size (flows s) = n ∧
  ∀ k, is_Some (flows s !! k) -> ∃ i, 1 <= i <= n ∧ k = port_key i.

(** The string has no plus sign (decimal numbers have none). *)
Fixpoint no_plus (s : string) : bool :=
  match s with
  | EmptyString => true
  | String c s' => negb (Ascii.eqb c "+"%char) && no_plus s'
  end.

(** An established connection whose packets all carry the timestamp of
    the first one (100 s, 0 us), the forward packet of A with TSval 100 at
    the same instant, and the reply of B with ECR 100 fifty milliseconds
    later. *)
Definition established_at_zero : list event :=
  [ Pkt (tcp4 100 0 hostA 1000 hostB 80 TCP_SYN 1 0 60);
    Pkt (tcp4 100 0 hostB 80 hostA 1000 18 5 1 60) ].

Definition fwd_at_zero : Packet :=
  tcp4 100 0 hostA 1000 hostB 80 TCP_ACK 100 5 60.
Definition rev_after_zero : Packet :=
  tcp4 100 50000 hostB 80 hostA 1000 TCP_ACK 6 100 40.

(** The same exchange 0.2 s after the first packet, with a second reply. *)
Definition fwd_pkt : Packet :=
  tcp4 100 200000 hostA 1000 hostB 80 TCP_ACK 100 5 60.
Definition rev_pkt : Packet :=
  tcp4 100 250000 hostB 80 hostA 1000 TCP_ACK 6 100 40.
Definition rev_again : Packet :=
  tcp4 100 270000 hostB 80 hostA 1000 TCP_ACK 6 100 40.

Definition fwd_tcp : TCP := mkTCP 1000 80 TCP_ACK (Some (100%N, 5%N)).
Definition rev_tcp : TCP := mkTCP 80 1000 TCP_ACK (Some (6%N, 100%N)).

(** The state after one more packet (unchanged if it throws). *)
Definition next_state (cfg : Config) (s : State) (pkt : Packet) : State :=
  match process_packet cfg s pkt with
  | Returns s' _ => s'
  | Throws _ => s
  end.

(** The minimum a sample on flow [f] is compared with: the one of the
    record of [f], or the initial value of a new record. *)
Definition min_before (s : State) (f : string) : Q :=
  match flows s !! f with
  | Some fr => min fr
  | None => 1e30
  end.

(** A bound on capture times, given 63-bit seconds. *)
Definition capTm_bound : Q := inject_Z (2 ^ 64).

(** What a run keeps true for flow [f] and the RTT values [acc] emitted for
    its present record. *)
Definition min_inv (f : string) (s : State) (acc : list Q) : Prop :=
  (-1 <= offTm s)%Z ∧
  ∀ fr, flows s !! f = Some fr ->
        min fr = fold_left min_of acc 1e30%Q
        ∧ ∀ r, r ∈ acc -> (r < capTm_bound)%Q.

(** A run with two samples on the flow from A to B: A echoes B's TSval 5
    after 0.199 s and B's TSval 6 after 0.01 s. *)
Definition two_samples_run : list event :=
  established_run ++
  [ Pkt fwd_pkt; Pkt rev_pkt;
    Pkt (tcp4 100 260000 hostA 1000 hostB 80 TCP_ACK 101 6 60) ].

(** [flowCnt] counts the records of the flow table and stays within one
    above the limit. *)
Definition flowCnt_inv (cfg : Config) (s : State) : Prop :=
  flowCnt s = Z.of_nat (size (flows s))
  ∧ (flowCnt s <= Z.max 0 (maxFlows cfg + 1))%Z.

(** ** Further parts of the program *)

(** The sweep [main] runs once the packet loop has ended:
    [cleanUp(capTm + (tsvalMaxAge > flowMaxIdle ? tsvalMaxAge : flowMaxIdle) + 1)]. *)
Definition shutdown_cleanUp (cfg : Config) (s : State) : State :=
  cleanUp cfg
    (capTm s
     + (if Qltb (flowMaxIdle cfg) (tsvalMaxAge cfg) then tsvalMaxAge cfg
        else flowMaxIdle cfg)
     + 1)%Q s.

(** No entry and no flow record carries a time later than the capture
    clock. *)
Definition not_ahead (s : State) : Prop :=
  (∀ k ti, tsTbl s !! k = Some ti -> (Qabs (t ti) <= capTm s)%Q)
  ∧ (∀ k fr, flows s !! k = Some fr -> (last_tm fr <= capTm s)%Q).

(** The capture clock does not step back along the steps of a run. *)
Fixpoint clock_forward (tr : list StepRec) : Prop :=
  match tr with
  | [] => True
  | st :: tr' =>
      match res st with
      | Returns s' _ => (capTm (pre st) <= capTm s')%Q
      | Throws _ => True
      end ∧ clock_forward tr'
  end.

(** The settings of the examples with a limit of one flow. *)
Definition tiny_config : Config :=
  {| tsvalMaxAge := 10; flowMaxIdle := 300; sumInt := 10; maxFlows := 1;
     filtLocal := true; machineReadable := false; localRanges := [];
     IPv4Address_of := dotted_quad |}.




(** A TCP/IPv6 packet with a timestamp option. *)
Definition tcp6 (sec usec : Z) (src : string) (sp : N) (dst : string) (dp : N)
    (fl : N) (tsval ecr : N) (size : N) : Packet :=
  {| ts_seconds := sec; ts_microseconds := usec;
     tcp := Some {| sport := sp; dport := dp; flags := fl;
                    timestamp := Some (tsval, ecr) |};
     net := PduIPv6 src dst; pdu_size := size |}.

(** The first two packets of a connection over IPv6. *)
Definition v6_syn : Packet :=
  tcp6 100 0 "2001:db8::1" 1000 "2001:db8::2" 80 TCP_SYN 1 0 80.
Definition v6_synack : Packet :=
  tcp6 100 1000 "2001:db8::2" 80 "2001:db8::1" 1000 18 5 1 80.

(** The settings after [-L 10.0.0.2/32]: the address of B is local. *)
Definition local_B_config : Config :=
  {| tsvalMaxAge := 10; flowMaxIdle := 300; sumInt := 10; maxFlows := 10000;
     filtLocal := true; machineReadable := false;
     localRanges := [(167772162%N, 167772162%N)];
     IPv4Address_of := dotted_quad |}.

(** ** Strings as [parseLabels] handles them *)

(** [std::string::npos], the largest value of the 64-bit [size_t]. *)
Definition npos : Z := 2 ^ 64 - 1.

(** Arithmetic on [size_t] wraps around. *)
Definition size_wrap (z : Z) : Z := z mod 2 ^ 64.

Fixpoint find_from (c : ascii) (s : string) (i : Z) : Z :=
  match s with
  | EmptyString => npos
  | String d s' => if Ascii.eqb d c then i else find_from c s' (i + 1)
  end.

(** [s.find(c)]: the index of the first [c], or [npos]. *)
Definition str_find (s : string) (c : ascii) : Z := find_from c s 0.

Fixpoint rfind_from (c : ascii) (s : string) (i : Z) (found : Z) : Z :=
  match s with
  | EmptyString => found
  | String d s' =>
      rfind_from c s' (i + 1) (if Ascii.eqb d c then i else found)
  end.

(** [s.rfind(c)]: the index of the last [c], or [npos]. *)
Definition str_rfind (s : string) (c : ascii) : Z := rfind_from c s 0 npos.

(** [s.substr(pos, count)]: [None] is the [out_of_range] exception thrown
    when [pos] is beyond the end; the result is cut at the end of [s]. *)
Definition str_substr (s : string) (pos count : Z) : option string :=
  let n := Z.of_nat (String.length s) in
  if (n <? pos)%Z then None
  else Some (String.substring (Z.to_nat pos) (Z.to_nat (Z.min count (n - pos))) s).

(** [parseLabels]: the label values source address, destination address
    and destination port cut out of a flow key. *)
Definition parseLabels (flowStr : string) : option (list string) :=
  match str_substr flowStr 0 (str_find flowStr ":") with
  | None => None
  | Some srcIP =>
      let sepIdx := str_find flowStr "+" in
      let colIdx := str_rfind flowStr ":" in
      match str_substr flowStr (size_wrap (sepIdx + 1))
                       (size_wrap (colIdx - sepIdx - 1)) with
      | None => None
      | Some dstIP =>
          match str_substr flowStr (size_wrap (colIdx + 1)) npos with
          | None => None
          | Some dstPort => Some [srcIP; dstIP; dstPort]
          end
      end
  end.

(** The string has no character [c]. *)
Fixpoint lacks (c : ascii) (s : string) : bool :=
  match s with
  | EmptyString => true
  | String d s' => negb (Ascii.eqb d c) && lacks c s'
  end.

(** ** The packet loop of [main] *)

(** What the packet loop writes to standard error: a summary line, or the
    line "Captured <n> packets in <d> seconds" with its two values. *)
Inductive err_line :=
  | SummaryLine (text : string)
  | CapturedLine (packets : Z) (seconds : Q).

(** The test that ends the capture after a packet. *)
Definition stop_capture (o : Options) (s : State) : bool :=
  (Qltb 0 (time_to_run o) && Qle_bool (time_to_run o) (capTm s - startm s))
  || ((0 <? maxPackets o)%Z && (maxPackets o <=? pktCnt s)%Z).

(** How the packet loop ends: the globals, the local [nxtSum], the samples
    written to standard output and the lines written to standard error;
    or an exception that nothing catches. *)
Inductive loop_result :=
  | LoopDone (s : State) (nxtSum : Q) (out : list Sample)
             (err : list err_line)
  | LoopThrows (e : exn).

(** The loop [for (const auto& packet : *snif)] of [main], the reaper
    waking up between packets: the loop is left when the sniffer has no
    more packets or through [break]. *)
Fixpoint packet_loop (cfg : Config) (o : Options) (nxtSum : Q) (s : State)
    (evs : list event) : loop_result :=
  match evs with
  | [] => LoopDone s nxtSum [] []
  | Reap now :: rest =>
      packet_loop cfg o nxtSum (cleanUpLoop_body cfg now s) rest
  | Pkt pkt :: rest =>
      match process_packet cfg s pkt with
      | Throws e => LoopThrows e
      | Returns s1 out =>
          if stop_capture o s1 then
            LoopDone s1 nxtSum out
              [SummaryLine (printSummary s1);
               CapturedLine (pktCnt s1) (capTm s1 - startm s1)]
          else
            let '(s2, nxtSum', lines) := summary_block cfg nxtSum s1 in
            match packet_loop cfg o nxtSum' s2 rest with
            | LoopDone s3 nxtSum3 out3 err3 =>
                LoopDone s3 nxtSum3 (out ++ out3)
                         (map SummaryLine lines ++ err3)
            | LoopThrows e => LoopThrows e
            end
      end
  end.

(** The number of packets among the events. *)
Fixpoint n_packets (evs : list event) : Z :=
  match evs with
  | [] => 0
  | Pkt _ :: rest => 1 + n_packets rest
  | Reap _ :: rest => n_packets rest
  end.

(** The option asks for the help text. *)
Definition asks_help (c : opt) : bool :=
  match c with Opt_h => true | _ => false end.

(** The option names an interface to capture from. *)
Definition names_interface (c : opt) : bool :=
  match c with Opt_i _ => true | _ => false end.

(** The arguments of the options [-i] and [-r], in the order given. *)
Fixpoint input_args (cs : list opt) : list string :=
  match cs with
  | [] => []
  | Opt_i a :: rest | Opt_r a :: rest => a :: input_args rest
  | _ :: rest => input_args rest
  end.

(** The settings of a run started with [-q]: no summaries. *)
Definition quiet_config : Config :=
  {| tsvalMaxAge := 10; flowMaxIdle := 300; sumInt := 0; maxFlows := 10000;
     filtLocal := true; machineReadable := false; localRanges := [];
     IPv4Address_of := dotted_quad |}.

(** The options after [-r file -q -c 3]. *)
Definition count_three : Options :=
  {| liveInp := false; fname := "file"; filter_expr := "tcp"; maxPackets := 3;
     time_to_run := 0; o_sumInt := 0; o_filtLocal := true;
     o_machineReadable := false; o_tsvalMaxAge := 10; o_flowMaxIdle := 300;
     listenAddr := ":9876"; strRanges := [] |}.


(** * Properties *)

Lemma Qltb_lt (a b : Q) : Qltb a b = true <-> (a < b)%Q.
Proof.
  unfold Qltb. rewrite negb_true_iff. split.
  - intros H. apply Qnot_le_lt. intros Hle.
    apply Qle_bool_iff in Hle. congruence.
  - intros H. destruct (Qle_bool b a) eqn:E; [|reflexivity].
    apply Qle_bool_iff in E. exfalso. apply (Qlt_not_le _ _ H E).
Qed.

Lemma Qltb_ge (a b : Q) : Qltb a b = false <-> (b <= a)%Q.
Proof.
  unfold Qltb. rewrite negb_false_iff. apply Qle_bool_iff.
Qed.


(** ** The reaper's loops *)

Section erase_loop.
Context {A : Type} (P : A -> bool).

(** A loop that erases the entries meeting [P] from [m0] while walking
    over [m]. *)
Lemma erase_loop_lookup (m0 m : gmap string A) (k : string) :
  map_fold (fun key x acc => if P x then delete key acc else acc) m0 m !! k
  = match m !! k with
    | Some x => if P x then None else m0 !! k
    | None => m0 !! k
    end.
Proof.
  revert k.
  apply (map_fold_weak_ind
           (fun r m' => forall k, r !! k =
              match m' !! k with
              | Some x => if P x then None else m0 !! k
              | None => m0 !! k
              end)).
  - intros k. by rewrite lookup_empty.
  - intros i x m' r Hi IH k.
    destruct (decide (i = k)) as [->|Hne].
    + rewrite lookup_insert_eq. destruct (P x).
      * apply lookup_delete_eq.
      * rewrite IH, Hi. reflexivity.
    + rewrite (lookup_insert_ne _ _ _ _ Hne).
      destruct (P x); [rewrite (lookup_delete_ne _ _ _ Hne)|]; apply IH.
Qed.

(** The same loop with a counter decremented at each erasure. *)
Lemma erase_count_loop_lookup (m0 : gmap string A) (c0 : Z)
    (m : gmap string A) (k : string) :
  fst (map_fold (fun key x (acc : gmap string A * Z) =>
                   if P x then (delete key (fst acc), snd acc - 1)%Z
                   else acc) (m0, c0) m) !! k
  = match m !! k with
    | Some x => if P x then None else m0 !! k
    | None => m0 !! k
    end.
Proof.
  revert k.
  apply (map_fold_weak_ind
           (fun (r : gmap string A * Z) m' => forall k, fst r !! k =
              match m' !! k with
              | Some x => if P x then None else m0 !! k
              | None => m0 !! k
              end)).
  - intros k. by rewrite lookup_empty.
  - intros i x m' r Hi IH k.
    destruct (decide (i = k)) as [->|Hne].
    + rewrite lookup_insert_eq. destruct (P x); simpl.
      * apply lookup_delete_eq.
      * rewrite IH, Hi. reflexivity.
    + rewrite (lookup_insert_ne _ _ _ _ Hne).
      destruct (P x); simpl;
        [rewrite (lookup_delete_ne _ _ _ Hne)|]; apply IH.
Qed.
End erase_loop.

Lemma cleanUp_tsTbl (cfg : Config) (n : Q) (s : State) (k : string) :
  tsTbl (cleanUp cfg n s) !! k
  = match tsTbl s !! k with
    | Some ti => if ts_expired cfg n ti then None else Some ti
    | None => None
    end.
Proof.
  unfold cleanUp; simpl. rewrite erase_loop_lookup.
  destruct (tsTbl s !! k) eqn:E; reflexivity.
Qed.

Lemma cleanUp_flows (cfg : Config) (n : Q) (s : State) (k : string) :
  flows (cleanUp cfg n s) !! k
  = match flows s !! k with
    | Some fr => if flow_idle cfg n fr then None else Some fr
    | None => None
    end.
Proof.
  unfold cleanUp; simpl. rewrite erase_count_loop_lookup.
  destruct (flows s !! k) eqn:E; reflexivity.
Qed.

Lemma cleanUp_clock (cfg : Config) (n : Q) (s : State) :
  offTm (cleanUp cfg n s) = offTm s ∧ capTm (cleanUp cfg n s) = capTm s.
Proof. split; reflexivity. Qed.

Lemma ts_expired_spec (cfg : Config) (n : Q) (ti : tsInfo) :
  ts_expired cfg n ti = false <-> (n - Qabs (t ti) <= tsvalMaxAge cfg)%Q.
Proof. unfold ts_expired. apply Qltb_ge. Qed.

(** C6. After [cleanUp n] the TSval table holds exactly the entries it held
    before whose age [n - |t|] is at most [tsvalMaxAge], each unchanged;
    every entry older than that is gone, whether its time is positive
    (unmatched) or negative (matched). *)
Theorem cleanUp_keeps_exactly_young (cfg : Config) (n : Q) (s : State)
    (k : string) :
  (∀ ti, tsTbl (cleanUp cfg n s) !! k = Some ti
         <-> tsTbl s !! k = Some ti ∧ (n - Qabs (t ti) <= tsvalMaxAge cfg)%Q)
  ∧ (∀ ti, tsTbl s !! k = Some ti ->
           (tsvalMaxAge cfg < n - Qabs (t ti))%Q ->
           tsTbl (cleanUp cfg n s) !! k = None).
Proof.
  split; intros ti.
  - rewrite cleanUp_tsTbl, <- ts_expired_spec.
    destruct (tsTbl s !! k) as [ti'|] eqn:E.
    + destruct (ts_expired cfg n ti') eqn:X; split.
      * discriminate.
      * intros [H1 H2]. inversion H1; subst. congruence.
      * intros H1. inversion H1; subst. auto.
      * intros [H1 _]. exact H1.
    + split; [discriminate | intros [H _]; discriminate].
  - intros Hl Hold. rewrite cleanUp_tsTbl, Hl.
    unfold ts_expired. apply Qltb_lt in Hold. rewrite Hold. reflexivity.
Qed.

(** A sweep at time 20 with the default age limit of 10 over a table with
    an unmatched entry of time 1, a matched one of time -2 and an
    unmatched one of time 15: only the last one stays. *)
Lemma cleanUp_keeps_exactly_young_witness :
  tsTbl (cleanUp default_config 20 sweep_state) !! "f+1" = None
  ∧ tsTbl (cleanUp default_config 20 sweep_state) !! "f+2" = None
  ∧ tsTbl (cleanUp default_config 20 sweep_state) !! "f+3"
    = Some (mkTsInfo 15 0 0).
Proof.
  split; [|split].
  - apply (proj2 (cleanUp_keeps_exactly_young default_config 20 sweep_state
                    "f+1") (mkTsInfo 1 0 0)); reflexivity.
  - apply (proj2 (cleanUp_keeps_exactly_young default_config 20 sweep_state
                    "f+2") (mkTsInfo (-2) 0 0)); reflexivity.
  - apply (proj1 (cleanUp_keeps_exactly_young default_config 20 sweep_state
                    "f+3") (mkTsInfo 15 0 0)).
    split; [reflexivity | discriminate].
Defined.

(** ** What one packet does to the TSval table *)

Lemma find_flow_frame (cfg : Config) (s s2 : State) (fstr rstr : string)
    (fr : flowRec) :
  find_flow cfg s fstr rstr = Some (s2, fr) ->
  tsTbl s2 = tsTbl s ∧ capTm s2 = capTm s ∧ offTm s2 = offTm s.
Proof.
  unfold find_flow. intros H.
  destruct (flows s !! fstr).
  - inversion H; subst. auto.
  - destruct (maxFlows cfg <? flowCnt s)%Z; [discriminate|].
    destruct (<[fstr:=new_flowRec fstr]> (flows s) !! rstr);
      inversion H; subst; auto.
Qed.

Lemma record_fwd_cases (cfg : Config) (ipdstr key : string) (ti : tsInfo)
    (tbl tbl1 : gmap string tsInfo) :
  record_fwd cfg ipdstr key ti tbl = Some tbl1 ->
  tbl1 = tbl ∨ tbl1 = addTS key ti tbl.
Proof.
  unfold record_fwd. intros H.
  destruct (negb (filtLocal cfg)); [inversion H; auto|].
  destruct (IPv4Address_of cfg ipdstr); [|discriminate].
  destruct (negb (ipRangesContains (localRanges cfg) n)); inversion H; auto.
Qed.

(** The two ways [track] can leave the TSval table: untouched without a
    sample (the flow was refused or is uni-directional), or after the
    forward recording and the lookup of the reversed key. *)
Lemma track_tsTbl (cfg : Config) (s : State) (pkt : Packet) (tc : TCP)
    (v e : N) (a b : string) (s' : State) (out : list Sample) :
  track cfg s pkt tc v e a b = Returns s' out ->
  capTm s' = capTm s ∧ offTm s' = offTm s ∧
  ((out = [] ∧ tsTbl s' = tsTbl s) ∨
   ∃ tbl1,
     (tbl1 = tsTbl s ∨
      ∃ fb db, tbl1 = addTS (ts_key (fstr_of tc a b) v)
                            (mkTsInfo (capTm s) fb db) (tsTbl s)) ∧
     match tbl1 !! ts_key (rstr_of tc a b) e with
     | Some ti =>
         if Qltb 0 (t ti) then
           ∃ x, out = [x] ∧ matched_flow x = rstr_of tc a b ∧
                matched_tsval x = e ∧ s_flow x = fstr_of tc a b ∧
                s_rtt x = (capTm s - t ti)%Q ∧
                tsTbl s' = <[ts_key (rstr_of tc a b) e := set_t (- t ti) ti]> tbl1
         else out = [] ∧ tsTbl s' = tbl1
     | None => out = [] ∧ tsTbl s' = tbl1
     end).
Proof.
  unfold track, fstr_of, rstr_of. intros H.
  destruct (find_flow cfg s _ _) as [[s2 fr0]|] eqn:Hf.
  2:{ inversion H; subst. auto. }
  apply find_flow_frame in Hf as (Ht & Hc & Ho).
  destruct (negb (revFlow (set_last_tm (capTm s2) fr0))).
  { inversion H; subst; simpl. auto. }
  destruct (record_fwd cfg b _ _ (tsTbl s2)) as [tbl1|] eqn:Hr; [|discriminate].
  apply record_fwd_cases in Hr.
  unfold getTStm in H.
  assert (Htbl1 : tbl1 = tsTbl s ∨
      ∃ fb db, tbl1 = addTS (ts_key (flow_key (endpoint a (sport tc))
                                        (endpoint b (dport tc))) v)
                            (mkTsInfo (capTm s) fb db) (tsTbl s)).
  { destruct Hr as [->| ->]; [left; congruence|right].
    rewrite Ht, Hc. eauto. }
  destruct (tbl1 !! _) as [ti|] eqn:Hl.
  - destruct (Qltb 0 (t ti)) eqn:Hpos.
    + destruct (<[_ := _]> (flows s2) !! _); [|discriminate].
      inversion H; subst; simpl. repeat split; try congruence.
      right. exists tbl1. split; [exact Htbl1|]. rewrite Hl, Hpos.
      eexists. repeat split; simpl; congruence.
    + inversion H; subst; simpl. repeat split; try congruence.
      right. exists tbl1. split; [exact Htbl1|]. rewrite Hl, Hpos. auto.
  - inversion H; subst; simpl. repeat split; try congruence.
    right. exists tbl1. split; [exact Htbl1|]. rewrite Hl. auto.
Qed.

Lemma process_packet_usable (cfg : Config) (s : State) (pkt : Packet)
    (tc : TCP) (v e : N) (a b : string) :
  usable pkt = Some (tc, v, e, a, b) ->
  process_packet cfg s pkt
  = track cfg (normalize_time (inc_pktCnt s) pkt) pkt tc v e a b.
Proof.
  unfold usable, process_packet. intros H.
  destruct (tcp pkt) as [tc'|]; [|discriminate].
  destruct (timestamp tc') as [[v' e']|]; [|discriminate].
  destruct (unusable_ts tc' v' e'); [discriminate|].
  destruct (net pkt); inversion H; subst; reflexivity.
Qed.

Lemma process_packet_unusable (cfg : Config) (s : State) (pkt : Packet) :
  usable pkt = None ->
  ∃ s', process_packet cfg s pkt = Returns s' [] ∧
        flows s' = flows s ∧ tsTbl s' = tsTbl s ∧ flowCnt s' = flowCnt s ∧
        offTm s' = offTm s ∧ capTm s' = capTm s ∧ startm s' = startm s.
Proof.
  unfold usable, process_packet. intros H.
  destruct (tcp pkt) as [tc'|]; [|eexists; repeat split].
  destruct (timestamp tc') as [[v' e']|]; [|eexists; repeat split].
  destruct (unusable_ts tc' v' e'); [eexists; repeat split|].
  destruct (net pkt); try discriminate. eexists; repeat split.
Qed.

Lemma normalize_time_frame (s : State) (pkt : Packet) :
  flows (normalize_time s pkt) = flows s ∧
  tsTbl (normalize_time s pkt) = tsTbl s ∧
  flowCnt (normalize_time s pkt) = flowCnt s.
Proof. unfold normalize_time. destruct (offTm s <? 0)%Z; auto. Qed.

Lemma avail_tbl_le_1 (k : string) (tbl : gmap string tsInfo) :
  avail_tbl k tbl <= 1.
Proof.
  unfold avail_tbl. destruct (tbl !! k) as [ti|]; [|lia].
  destruct (Qltb 0 (t ti)); lia.
Qed.

Lemma avail_tbl_addTS (k key : string) (ti : tsInfo)
    (tbl : gmap string tsInfo) :
  avail_tbl k (addTS key ti tbl) <= avail_tbl k tbl.
Proof.
  unfold addTS. destruct (tbl !! key) eqn:E; [lia|].
  unfold avail_tbl. destruct (decide (key = k)) as [->|Hne].
  - rewrite lookup_insert_eq, E. destruct (Qltb 0 (t ti)); lia.
  - rewrite (lookup_insert_ne _ _ _ _ Hne). lia.
Qed.

Lemma Qltb_0_opp (q : Q) : Qltb 0 q = true -> Qltb 0 (- q) = false.
Proof.
  intros H. apply Qltb_lt in H. apply Qltb_ge. lra.
Qed.

(** A packet never adds to what the entry of [(f, v)] can still yield:
    the samples it emits for the pair are paid for by [avail]. *)
Lemma packet_avail (cfg : Config) (s : State) (pkt : Packet) (s' : State)
    (out : list Sample) (f : string) (v : N) :
  process_packet cfg s pkt = Returns s' out ->
  length (filter (fun x => matched_flow x = f ∧ matched_tsval x = v) out)
  + avail (ts_key f v) s' <= avail (ts_key f v) s.
Proof.
  intros H. unfold avail.
  destruct (usable pkt) as [[[[[tc v0] e] a] b]|] eqn:Hu.
  2:{ destruct (process_packet_unusable cfg s pkt Hu) as (s1 & H1 & _ & Ht & _).
      rewrite H1 in H. inversion H; subst. rewrite Ht. simpl. lia. }
  rewrite (process_packet_usable cfg s pkt _ _ _ _ _ Hu) in H.
  apply track_tsTbl in H as (_ & _ & H).
  destruct (normalize_time_frame (inc_pktCnt s) pkt) as (_ & Hn & _).
  simpl in Hn. rewrite Hn in H. clear Hn.
  destruct H as [[-> ->]|(tbl1 & Htbl1 & H)]; [simpl; lia|].
  assert (Hle : avail_tbl (ts_key f v) tbl1 <= avail_tbl (ts_key f v) (tsTbl s)).
  { destruct Htbl1 as [->|(fb & db & ->)]; [lia|apply avail_tbl_addTS]. }
  destruct (tbl1 !! ts_key (rstr_of tc a b) e) as [ti|] eqn:Hl.
  2:{ destruct H as [-> ->]. simpl. lia. }
  destruct (Qltb 0 (t ti)) eqn:Hpos.
  2:{ destruct H as [-> ->]. simpl. lia. }
  destruct H as (x & -> & Hmf & Hmv & _ & _ & ->).
  destruct (decide (ts_key (rstr_of tc a b) e = ts_key f v)) as [Hk|Hk].
  - assert (Hs' : avail_tbl (ts_key f v)
                    (<[ts_key (rstr_of tc a b) e:=set_t (- t ti) ti]> tbl1) = 0).
    { unfold avail_tbl. rewrite Hk, lookup_insert_eq. simpl.
      by rewrite (Qltb_0_opp _ Hpos). }
    assert (Hs1 : avail_tbl (ts_key f v) tbl1 = 1).
    { unfold avail_tbl. rewrite <- Hk, Hl, Hpos. reflexivity. }
    rewrite Hs'.
    assert (length (filter (fun x => matched_flow x = f ∧ matched_tsval x = v)
                           [x]) <= 1).
    { rewrite filter_cons. case_decide; simpl; lia. }
    lia.
  - assert (Hnone : filter (fun x => matched_flow x = f ∧ matched_tsval x = v)
                      [x] = []).
    { rewrite filter_cons. case_decide as Hd; [|reflexivity].
      destruct Hd as [Hd1 Hd2]. exfalso. apply Hk. congruence. }
    rewrite Hnone. simpl.
    assert (avail_tbl (ts_key f v)
              (<[ts_key (rstr_of tc a b) e:=set_t (- t ti) ti]> tbl1)
            = avail_tbl (ts_key f v) tbl1).
    { unfold avail_tbl. by rewrite (lookup_insert_ne _ _ _ _ Hk). }
    lia.
Qed.

(** The reaper gives an entry back its one sample only by removing it. *)
Lemma reap_avail (cfg : Config) (now : Z) (s : State) (k : string) :
  avail k (cleanUpLoop_body cfg now s)
  <= avail k s
     + (if erasesb k (mkStepRec s (Reap now)
                        (Returns (cleanUpLoop_body cfg now s) []))
        then 1 else 0).
Proof.
  unfold cleanUpLoop_body, erasesb, avail, avail_tbl; simpl.
  destruct (0 <? offTm s)%Z.
  - rewrite cleanUp_tsTbl.
    destruct (tsTbl s !! k) as [ti|] eqn:E; [|lia].
    destruct (ts_expired cfg _ ti); [|lia].
    destruct (Qltb 0 (t ti)); lia.
  - destruct (tsTbl s !! k) as [ti|] eqn:E; [|lia].
    destruct (Qltb 0 (t ti)); lia.
Qed.

(** ** One sample per lifetime of a TSval entry *)

Lemma emitted_for_cons (f : string) (v : N) (st : StepRec)
    (tr : list StepRec) :
  emitted_for f v (st :: tr)
  = length (filter (fun x => matched_flow x = f ∧ matched_tsval x = v)
                   (outs (res st)))
    + emitted_for f v tr.
Proof.
  unfold emitted_for, emitted. simpl.
  rewrite filter_app, length_app. reflexivity.
Qed.

Lemma erased_cons (k : string) (st : StepRec) (tr : list StepRec) :
  erased k (st :: tr) = (if erasesb k st then 1 else 0) + erased k tr.
Proof.
  unfold erased. rewrite filter_cons.
  destruct (erasesb k st); case_decide; simpl; congruence.
Qed.

Lemma run_emission_bound (cfg : Config) (evs : list event) (s : State)
    (f : string) (v : N) :
  emitted_for f v (exec cfg s evs)
  <= avail (ts_key f v) s + erased (ts_key f v) (exec cfg s evs).
Proof.
  revert s. induction evs as [|e evs IH]; intros s.
  - unfold emitted_for, erased. simpl. lia.
  - simpl. rewrite emitted_for_cons, erased_cons. simpl.
    destruct e as [pkt|now]; simpl.
    + destruct (process_packet cfg s pkt) as [s' out|ex] eqn:Hp; simpl.
      * pose proof (packet_avail cfg s pkt s' out f v Hp).
        specialize (IH s'). lia.
      * unfold emitted_for, erased. simpl. lia.
    + pose proof (reap_avail cfg now s (ts_key f v)) as Hr.
      specialize (IH (cleanUpLoop_body cfg now s)).
      simpl in Hr. lia.
Qed.

(** C1 (as amended). Counting over a whole run from the start, the
    samples that used the TSval entry of a pair (flow, TSval) are at most
    one more than the reaper sweeps that removed that entry; and from any
    state in which the entry is consumed (negative time), the later samples
    for the pair are at most the sweeps that removed it: none while the
    entry stays in the table. *)
Theorem rtt_once_per_entry_lifetime (cfg : Config) (evs : list event)
    (f : string) (v : N) :
  emitted_for f v (exec cfg init_state evs)
    <= 1 + erased (ts_key f v) (exec cfg init_state evs)
  ∧ ∀ (s : State) (ti : tsInfo),
      tsTbl s !! ts_key f v = Some ti -> (t ti < 0)%Q ->
      emitted_for f v (exec cfg s evs)
        <= erased (ts_key f v) (exec cfg s evs).
Proof.
  split.
  - pose proof (run_emission_bound cfg evs init_state f v) as H.
    unfold avail, avail_tbl in H. simpl in H. exact H.
  - intros s ti Hl Hneg.
    pose proof (run_emission_bound cfg evs s f v) as H.
    unfold avail, avail_tbl in H. rewrite Hl in H.
    assert (Hq : Qltb 0 (t ti) = false) by (apply Qltb_ge; lra).
    rewrite Hq in H. exact H.
Qed.

(** The whole of [tsval_reuse_run] from the start: two samples, one
    removal.  And from the state after its first three packets, in which
    the entry of (B to A, 5) is consumed: a further echo of 5 by A yields
    no sample. *)
Lemma rtt_once_per_entry_lifetime_witness :
  emitted_for keyBA 5 (exec default_config init_state tsval_reuse_run)
    <= 1 + erased (ts_key keyBA 5)
             (exec default_config init_state tsval_reuse_run)
  ∧ emitted_for keyBA 5
      (exec default_config
            (state_after default_config (firstn 3 tsval_reuse_run))
            [Pkt (tcp4 100 700000 hostA 1000 hostB 80 TCP_ACK 8 5 60)])
    <= erased (ts_key keyBA 5)
         (exec default_config
               (state_after default_config (firstn 3 tsval_reuse_run))
               [Pkt (tcp4 100 700000 hostA 1000 hostB 80 TCP_ACK 8 5 60)]).
Proof.
  split.
  - exact (proj1 (rtt_once_per_entry_lifetime default_config tsval_reuse_run
                    keyBA 5)).
  - assert (Hl : tsTbl (state_after default_config
                          (firstn 3 tsval_reuse_run)) !! ts_key keyBA 5
                 = Some (mkTsInfo (-0.500000) 60 0))
      by (vm_compute; reflexivity).
    assert (Hneg : (t (mkTsInfo (-0.500000) 60 0) < 0)%Q) by reflexivity.
    exact (proj2 (rtt_once_per_entry_lifetime default_config
                    [Pkt (tcp4 100 700000 hostA 1000 hostB 80 TCP_ACK 8 5 60)]
                    keyBA 5) _ _ Hl Hneg).
Defined.

(** C1, as stated, fails: the reaper removes the consumed entry of
    (B to A, 5), B sends TSval 5 again and A echoes it again, so the pair
    yields two samples in one run. *)
Lemma rtt_twice_after_sweep :
  emitted_for keyBA 5 (exec default_config init_state tsval_reuse_run) = 2
  ∧ ¬ (emitted_for keyBA 5 (exec default_config init_state tsval_reuse_run)
       <= 1).
Proof.
  assert (H : emitted_for keyBA 5
                (exec default_config init_state tsval_reuse_run) = 2)
    by (vm_compute; reflexivity).
  split; [exact H | rewrite H; lia].
Qed.

(** ** Insertion under a key that is present *)


Lemma normalize_time_pktCnt_clock (s : State) (pkt : Packet) :
  capTm (normalize_time (inc_pktCnt s) pkt) = capTm (normalize_time s pkt) ∧
  offTm (normalize_time (inc_pktCnt s) pkt) = offTm (normalize_time s pkt) ∧
  startm (normalize_time (inc_pktCnt s) pkt) = startm (normalize_time s pkt).
Proof.
  unfold normalize_time; simpl. destruct (offTm s <? 0)%Z; auto.
Qed.

(** ** The capture clock *)

Lemma normalize_time_first (s : State) (pkt : Packet) :
  (offTm s < 0)%Z ->
  offTm (normalize_time s pkt) = ts_seconds pkt ∧
  startm (normalize_time s pkt) = (inject_Z (ts_microseconds pkt) * 1e-6)%Q ∧
  capTm (normalize_time s pkt) = (inject_Z (ts_microseconds pkt) * 1e-6)%Q.
Proof.
  intros H. unfold normalize_time.
  destruct (offTm s <? 0)%Z eqn:E; [auto | apply Z.ltb_ge in E; lia].
Qed.

Lemma normalize_time_later (s : State) (pkt : Packet) :
  (0 <= offTm s)%Z ->
  offTm (normalize_time s pkt) = offTm s ∧
  startm (normalize_time s pkt) = startm s ∧
  capTm (normalize_time s pkt)
  = (inject_Z (ts_seconds pkt - offTm s)
     + inject_Z (ts_microseconds pkt) * 1e-6)%Q.
Proof.
  intros H. unfold normalize_time.
  destruct (offTm s <? 0)%Z eqn:E; [apply Z.ltb_lt in E; lia | auto].
Qed.

Lemma normalize_time_wall_clock (s : State) (pkt : Packet) :
  (inject_Z (offTm (normalize_time s pkt)) + capTm (normalize_time s pkt)
   == inject_Z (ts_seconds pkt) + inject_Z (ts_microseconds pkt) * 1e-6)%Q.
Proof.
  unfold normalize_time. destruct (offTm s <? 0)%Z; simpl.
  - reflexivity.
  - unfold Z.sub. rewrite inject_Z_plus, inject_Z_opp. ring.
Qed.

Lemma Qfloor_sec_usec (sec usec : Z) :
  (0 <= usec < 1000000)%Z ->
  Qfloor (inject_Z sec + inject_Z usec * 1e-6) = sec.
Proof.
  intros H.
  assert (E : (inject_Z sec + inject_Z usec * 1e-6
               == (sec * 1000000 + usec) # 1000000)%Q).
  { unfold Qeq, inject_Z. simpl. lia. }
  rewrite (Qfloor_comp _ _ E). unfold Qfloor.
  rewrite Z.div_add_l by lia. rewrite Z.div_small by lia. lia.
Qed.

Lemma track_clock (cfg : Config) (s : State) (pkt : Packet) (tc : TCP)
    (v e : N) (a b : string) (s' : State) (out : list Sample) :
  track cfg s pkt tc v e a b = Returns s' out ->
  offTm s' = offTm s ∧ capTm s' = capTm s ∧ startm s' = startm s.
Proof.
  unfold track. intros H.
  destruct (find_flow cfg s _ _) as [[s2 fr0]|] eqn:Hf.
  2:{ inversion H; subst. auto. }
  assert (Hs2 : offTm s2 = offTm s ∧ capTm s2 = capTm s ∧ startm s2 = startm s).
  { unfold find_flow in Hf. destruct (flows s !! _).
    - inversion Hf; subst. auto.
    - destruct (maxFlows cfg <? flowCnt s)%Z; [discriminate|].
      destruct (<[_ := _]> (flows s) !! _); inversion Hf; subst; auto. }
  destruct (negb (revFlow (set_last_tm (capTm s2) fr0))).
  { inversion H; subst; simpl. exact Hs2. }
  destruct (record_fwd cfg b _ _ (tsTbl s2)) as [tbl1|]; [|discriminate].
  unfold getTStm in H.
  destruct (tbl1 !! _) as [ti|].
  - destruct (Qltb 0 (t ti)).
    + destruct (<[_ := _]> (flows s2) !! _); [|discriminate].
      inversion H; subst; simpl. exact Hs2.
    + inversion H; subst; simpl. exact Hs2.
  - inversion H; subst; simpl. exact Hs2.
Qed.

(** C7. For a usable packet that [process_packet] handles: if no offset
    was recorded before (the first usable packet), the offset becomes the
    packet's seconds and the capture time its microseconds times 1e-6,
    also kept as [startm]; if an offset was recorded, it stays and the
    capture time is (seconds - offset) + microseconds times 1e-6.  In both
    cases offset + capture time is the packet's wall-clock time, whose
    integer part is the packet's second. *)
Theorem clock_normalizer (cfg : Config) (s : State) (pkt : Packet) (tc : TCP)
    (v e : N) (a b : string) (s' : State) (out : list Sample) :
  usable pkt = Some (tc, v, e, a, b) ->
  process_packet cfg s pkt = Returns s' out ->
  (0 <= ts_microseconds pkt < 1000000)%Z ->
  ((offTm s < 0)%Z ->
     offTm s' = ts_seconds pkt ∧
     startm s' = (inject_Z (ts_microseconds pkt) * 1e-6)%Q ∧
     capTm s' = (inject_Z (ts_microseconds pkt) * 1e-6)%Q)
  ∧ ((0 <= offTm s)%Z ->
     offTm s' = offTm s ∧
     capTm s' = (inject_Z (ts_seconds pkt - offTm s)
                 + inject_Z (ts_microseconds pkt) * 1e-6)%Q)
  ∧ (inject_Z (offTm s') + capTm s'
     == inject_Z (ts_seconds pkt) + inject_Z (ts_microseconds pkt) * 1e-6)%Q
  ∧ Qfloor (inject_Z (offTm s') + capTm s') = ts_seconds pkt.
Proof.
  intros Hu Hp Husec.
  rewrite (process_packet_usable cfg s pkt _ _ _ _ _ Hu) in Hp.
  apply track_clock in Hp as (Ho & Hc & Hs).
  destruct (normalize_time_pktCnt_clock s pkt) as (Hc' & Ho' & Hs').
  rewrite Hc' in Hc. rewrite Ho' in Ho. rewrite Hs' in Hs.
  rewrite Ho, Hc, Hs.
  assert (Hw := normalize_time_wall_clock s pkt).
  repeat split.
  - apply (normalize_time_first s pkt H).
  - apply (normalize_time_first s pkt H).
  - apply (normalize_time_first s pkt H).
  - apply (normalize_time_later s pkt H).
  - apply (normalize_time_later s pkt H).
  - exact Hw.
  - rewrite (Qfloor_comp _ _ Hw). apply Qfloor_sec_usec. exact Husec.
Qed.

(** Unusable packets do not touch the clock, so the first usable packet
    of a run is the one that finds [offTm] still at its start value. *)
Lemma unusable_keeps_clock (cfg : Config) (s : State) (pkt : Packet) :
  usable pkt = None ->
  ∃ s', process_packet cfg s pkt = Returns s' [] ∧
        offTm s' = offTm s ∧ capTm s' = capTm s ∧ startm s' = startm s.
Proof.
  intros H. destruct (process_packet_unusable cfg s pkt H)
    as (s' & Hp & _ & _ & _ & Ho & Hc & Hs).
  exists s'. auto.
Qed.

(** The first packet of [established_run] from the start state: offset 100,
    capture time 0; and [dup_first] later in the same second. *)
Lemma clock_normalizer_witness :
  offTm (state_after default_config (firstn 1 established_run)) = 100%Z
  ∧ capTm (state_after default_config (established_run ++ [Pkt dup_first]))
    = (inject_Z (100 - 100) + inject_Z 2000 * 1e-6)%Q.
Proof.
  split.
  - assert (Hp : process_packet default_config init_state
                   (tcp4 100 0 hostA 1000 hostB 80 TCP_SYN 1 0 60)
                 = Returns (state_after default_config
                              (firstn 1 established_run)) [])
      by (vm_compute; reflexivity).
    assert (Hm : (0 <= ts_microseconds
                         (tcp4 100 0 hostA 1000 hostB 80 TCP_SYN 1 0 60)
                    < 1000000)%Z) by (simpl; lia).
    assert (Hneg : (offTm init_state < 0)%Z) by (simpl; lia).
    assert (Hu : usable (tcp4 100 0 hostA 1000 hostB 80 TCP_SYN 1 0 60)
                 = Some (mkTCP 1000 80 TCP_SYN (Some (1%N, 0%N)),
                         1%N, 0%N, hostA, hostB)) by reflexivity.
    exact (proj1 (proj1 (clock_normalizer default_config init_state _ _ _ _ _ _
                           _ _ Hu Hp Hm) Hneg)).
  - assert (Hp : process_packet default_config
                   (state_after default_config established_run) dup_first
                 = Returns (state_after default_config
                              (established_run ++ [Pkt dup_first]))
                           (outs (process_packet default_config
                                    (state_after default_config
                                       established_run) dup_first)))
      by (vm_compute; reflexivity).
    assert (Hm : (0 <= ts_microseconds dup_first < 1000000)%Z)
      by (simpl; lia).
    assert (Hpos : (0 <= offTm (state_after default_config established_run))%Z)
      by (vm_compute; discriminate).
    assert (Hu : usable dup_first
                 = Some (mkTCP 1000 80 TCP_ACK (Some (100%N, 5%N)),
                         100%N, 5%N, hostA, hostB)) by reflexivity.
    exact (proj2 (proj1 (proj2 (clock_normalizer default_config _ _ _ _ _ _ _
                                  _ _ Hu Hp Hm)) Hpos)).
Defined.

(** ** Rejections and the summary line *)

Lemma track_uniDir (cfg : Config) (s : State) (pkt : Packet) (tc : TCP)
    (v e : N) (a b : string) (s' : State) (out : list Sample) (fr : flowRec) :
  track cfg s pkt tc v e a b = Returns s' out ->
  flows s' !! fstr_of tc a b = Some fr ->
  revFlow fr = false ->
  uniDir s' = (uniDir s + 1)%Z ∧ out = [] ∧ tsTbl s' = tsTbl s.
Proof.
  unfold track, fstr_of. intros H Hl Hrev.
  destruct (find_flow cfg s _ _) as [[s2 fr0]|] eqn:Hf.
  2:{ inversion H; subst. unfold find_flow in Hf. rewrite Hl in Hf.
      discriminate. }
  assert (Hs2 : uniDir s2 = uniDir s ∧ tsTbl s2 = tsTbl s).
  { unfold find_flow in Hf. destruct (flows s !! _).
    - inversion Hf; subst. auto.
    - destruct (maxFlows cfg <? flowCnt s)%Z; [discriminate|].
      destruct (<[_ := _]> (flows s) !! _); inversion Hf; subst; auto. }
  destruct Hs2 as [Hu Ht].
  destruct (negb (revFlow (set_last_tm (capTm s2) fr0))) eqn:Hneg.
  { inversion H; subst; simpl. rewrite Hu. auto. }
  exfalso. apply negb_false_iff in Hneg. simpl in Hneg.
  destruct (record_fwd cfg b _ _ (tsTbl s2)) as [tbl1|]; [|discriminate].
  unfold getTStm in H.
  set (fk := flow_key (endpoint a (sport tc)) (endpoint b (dport tc))) in *.
  set (rk := flow_key (endpoint b (dport tc)) (endpoint a (sport tc))) in *.
  assert (Hend : ∀ fr2 tb,
            revFlow fr2 = true ->
            Returns (set_tables (<[fk := fr2]> (flows s2)) tb s2) []
            = Returns s' out -> False).
  { intros fr2 tb Hr2 Heq. inversion Heq; subst. simpl in Hl.
    rewrite lookup_insert_eq in Hl. congruence. }
  destruct (tbl1 !! _) as [ti|].
  - destruct (Qltb 0 (t ti)).
    + destruct (<[fk := _]> (flows s2) !! rk) eqn:Hrk; [|discriminate].
      inversion H; subst. simpl in Hl.
      rewrite lookup_alter in Hl.
      destruct (decide (rk = fk)) as [Heq|Hne].
      * rewrite Heq, lookup_insert_eq in Hl.
        simpl in Hl. inversion Hl; subst. simpl in Hrev.
        destruct (Qltb _ _) in Hrev; simpl in Hrev; congruence.
      * rewrite lookup_insert_eq in Hl.
        inversion Hl; subst. simpl in Hrev.
        destruct (Qltb _ _) in Hrev; simpl in Hrev; congruence.
    + eapply Hend; [|exact H]. exact Hneg.
  - eapply Hend; [|exact H]. exact Hneg.
Qed.


Lemma unusable_ts_zero (tc : TCP) (v e : N) :
  unusable_ts tc v e = true <-> v = 0%N ∨ (e = 0%N ∧ flags tc ≠ TCP_SYN).
Proof.
  unfold unusable_ts.
  rewrite orb_true_iff, andb_true_iff, negb_true_iff, !N.eqb_eq, N.eqb_neq.
  reflexivity.
Qed.

(** C8 (as amended). A packet rejected for lack of a TCP layer, for lack
    of the timestamp option, for being neither IPv4 nor IPv6, or for
    belonging to a flow seen in one direction only adds one to the counter
    of its class, which [printSummary] reports.  A packet rejected because
    its TSval is zero, or its ECR is zero without the flags being exactly
    SYN, adds one to the packet count only: none of the four rejection
    counters of [printSummary] changes. *)
Theorem rejections_counted_except_zero_ts (cfg : Config) (s : State)
    (pkt : Packet) :
  (tcp pkt = None ->
     process_packet cfg s pkt = Returns (inc_not_tcp (inc_pktCnt s)) [])
  ∧ (∀ tc, tcp pkt = Some tc -> timestamp tc = None ->
     process_packet cfg s pkt = Returns (inc_no_TS (inc_pktCnt s)) [])
  ∧ (∀ tc v e, tcp pkt = Some tc -> timestamp tc = Some (v, e) ->
     unusable_ts tc v e = false -> net pkt = PduNone ->
     process_packet cfg s pkt = Returns (inc_not_v4or6 (inc_pktCnt s)) [])
  ∧ (∀ tc v e a b s' out fr,
     usable pkt = Some (tc, v, e, a, b) ->
     process_packet cfg s pkt = Returns s' out ->
     flows s' !! fstr_of tc a b = Some fr -> revFlow fr = false ->
     uniDir s' = (uniDir s + 1)%Z ∧ out = [])
  ∧ (∀ tc v e, tcp pkt = Some tc -> timestamp tc = Some (v, e) ->
     v = 0%N ∨ (e = 0%N ∧ flags tc ≠ TCP_SYN) ->
     process_packet cfg s pkt = Returns (inc_pktCnt s) []
     ∧ rejection_counters (inc_pktCnt s) = rejection_counters s
     ∧ pktCnt (inc_pktCnt s) = (pktCnt s + 1)%Z).
Proof.
  split; [|split; [|split; [|split]]].
  - intros H. unfold process_packet. rewrite H. reflexivity.
  - intros tc H1 H2. unfold process_packet. rewrite H1, H2. reflexivity.
  - intros tc v e H1 H2 H3 H4. unfold process_packet.
    rewrite H1, H2, H3, H4. reflexivity.
  - intros tc v e a b s' out fr Hu Hp Hl Hrev.
    rewrite (process_packet_usable cfg s pkt _ _ _ _ _ Hu) in Hp.
    destruct (track_uniDir _ _ _ _ _ _ _ _ _ _ _ Hp Hl Hrev) as (Hc & Ho & _).
    split; [|exact Ho].
    rewrite Hc. unfold normalize_time. simpl.
    destruct (offTm s <? 0)%Z; reflexivity.
  - intros tc v e H1 H2 Hz.
    apply unusable_ts_zero in Hz. unfold process_packet.
    rewrite H1, H2, Hz. repeat split.
Qed.

(** The four counted classes and the uncounted one, on concrete packets
    at the start of a run. *)
Lemma rejections_counted_except_zero_ts_witness :
  process_packet default_config init_state not_tcp_packet
  = Returns (inc_not_tcp (inc_pktCnt init_state)) []
  ∧ process_packet default_config init_state no_TS_packet
    = Returns (inc_no_TS (inc_pktCnt init_state)) []
  ∧ process_packet default_config init_state not_ip_packet
    = Returns (inc_not_v4or6 (inc_pktCnt init_state)) []
  ∧ uniDir (state_after default_config (firstn 1 established_run))
    = (uniDir init_state + 1)%Z
  ∧ rejection_counters (inc_pktCnt init_state) = rejection_counters init_state.
Proof.
  split; [|split; [|split; [|split]]].
  - exact (proj1 (rejections_counted_except_zero_ts default_config init_state
                    not_tcp_packet) eq_refl).
  - exact (proj1 (proj2 (rejections_counted_except_zero_ts
                           default_config init_state no_TS_packet))
             (mkTCP 1000 80 TCP_ACK None) eq_refl eq_refl).
  - exact (proj1 (proj2 (proj2 (rejections_counted_except_zero_ts
                                  default_config init_state not_ip_packet)))
             (mkTCP 1000 80 TCP_ACK (Some (1%N, 1%N))) 1%N 1%N
             eq_refl eq_refl eq_refl eq_refl).
  - assert (Hu : usable (tcp4 100 0 hostA 1000 hostB 80 TCP_SYN 1 0 60)
                 = Some (mkTCP 1000 80 TCP_SYN (Some (1%N, 0%N)),
                         1%N, 0%N, hostA, hostB)) by reflexivity.
    assert (Hp : process_packet default_config init_state
                   (tcp4 100 0 hostA 1000 hostB 80 TCP_SYN 1 0 60)
                 = Returns (state_after default_config
                              (firstn 1 established_run)) [])
      by (vm_compute; reflexivity).
    assert (Hl : flows (state_after default_config (firstn 1 established_run))
                   !! fstr_of (mkTCP 1000 80 TCP_SYN (Some (1%N, 0%N)))
                              hostA hostB
                 = Some (set_last_tm (inject_Z 0 * 1e-6) (new_flowRec keyAB)))
      by (vm_compute; reflexivity).
    exact (proj1 (proj1 (proj2 (proj2 (proj2
             (rejections_counted_except_zero_ts default_config init_state _))))
             _ _ _ _ _ _ _ _ Hu Hp Hl eq_refl)).
  - exact (proj1 (proj2 (proj2 (proj2 (proj2 (proj2
             (rejections_counted_except_zero_ts
                default_config init_state zero_tsval_packet))))
             (mkTCP 1000 80 TCP_ACK (Some (0%N, 5%N))) 0%N 5%N
             eq_refl eq_refl (or_introl eq_refl)))).
Defined.

(** C8, as stated, fails: a packet with TSval 0 on an established
    connection is discarded, all four rejection counters that
    [printSummary] reports stay as they were, and the summary line differs
    only in the packet count. *)
Lemma zero_tsval_not_counted :
  process_packet default_config (state_after default_config established_run)
                 zero_tsval_packet
  = Returns (inc_pktCnt (state_after default_config established_run)) []
  ∧ rejection_counters
      (inc_pktCnt (state_after default_config established_run))
    = rejection_counters (state_after default_config established_run)
  ∧ printSummary (state_after default_config established_run)
    = "2 flows, 2 packets, 1 uni-directional, " +:+ newline
  ∧ printSummary (inc_pktCnt (state_after default_config established_run))
    = "2 flows, 3 packets, 1 uni-directional, " +:+ newline.
Proof.
  split; [|split; [|split]]; vm_compute; reflexivity.
Qed.

(** ** The listen address *)

Lemma main_start_address (cs : list opt) (leftover : bool) (o : Options)
    (addr path : string) :
  main_start cs leftover = inr (o, addr, path) -> addr = ":9876".
Proof.
  unfold main_start. intros H.
  assert (Hgen : match parse_opts default_options cs with
                 | inl code => inl code
                 | inr o' =>
                     if leftover || bool_decide (fname o' = EmptyString) then inl 1%Z
                     else inr (o', ":9876", "/metrics")
                 end = inr (o, addr, path) -> addr = ":9876").
  { destruct (parse_opts default_options cs) as [|o']; [discriminate|].
    destruct (leftover || bool_decide (fname o' = EmptyString)); [discriminate|].
    intros E. inversion E; reflexivity. }
  destruct cs as [|c cs']; [destruct leftover; [|discriminate]|];
    exact (Hgen H).
Qed.

(** C10 on the code: with [-r trace.pcap -a 127.0.0.1:9100] the option
    loop stores the address in the global [listenAddr], and the metrics
    handler is nevertheless started on ":9876". *)
Theorem listen_flag_ignored :
  ∃ o, main_start listen_args false = inr (o, ":9876", "/metrics")
       ∧ listenAddr o = "127.0.0.1:9100".
Proof.
  eexists. split; reflexivity.
Qed.

(** ** The unguarded lookup of the reverse flow *)

(** C9 on the code: with [--tsvalMaxAge 100 --flowMaxIdle 10] the reaper
    removes B's idle flow record while B's TSval entry is still unmatched
    and in the table; the packet of A that echoes it reaches
    [flows.at] on the reversed key, which throws [out_of_range]. *)
Theorem reverse_flow_lookup_throws :
  last_result (exec long_age_config init_state evicted_reverse_run)
  = Some (Throws out_of_range)
  ∧ final init_state (exec long_age_config init_state evicted_reverse_run)
    = None
  ∧ (∃ ti, tsTbl (state_after long_age_config (firstn 4 evicted_reverse_run))
             !! ts_key keyBA 5 = Some ti ∧ (0 < t ti)%Q)
  ∧ flows (state_after long_age_config (firstn 4 evicted_reverse_run))
      !! keyBA = None.
Proof.
  split; [vm_compute; reflexivity|].
  split; [vm_compute; reflexivity|].
  split; [|vm_compute; reflexivity].
  exists (mkTsInfo 1.000000 60 0). split; [vm_compute; reflexivity|reflexivity].
Qed.

(** ** The cap on the number of flows *)

Lemma port_key_inj (i j : nat) : port_key i = port_key j -> i = j.
Proof.
  unfold port_key, flow_key, endpoint. intros H.
  do 4 apply (inj (String.app _)) in H.
  apply (inj (@pretty N pretty_N)) in H. lia.
Qed.

Lemma port_rkey_ne (i j : nat) : port_rkey i ≠ port_key j.
Proof.
  unfold port_rkey, port_key, flow_key, endpoint, hostA, hostB.
  intros H. cbv [String.append] in H. congruence.
Qed.

Lemma find_flow_new (cfg : Config) (s : State) (fk rk : string) :
  flows s !! fk = None -> (flowCnt s <= maxFlows cfg)%Z ->
  rk ≠ fk -> flows s !! rk = None ->
  find_flow cfg s fk rk
  = Some (set_flows (<[fk := new_flowRec fk]> (flows s))
                    (set_flowCnt (flowCnt s + 1) s),
          new_flowRec fk).
Proof.
  intros Hf Hc Hne Hr. unfold find_flow. rewrite Hf.
  destruct (maxFlows cfg <? flowCnt s)%Z eqn:E; [apply Z.ltb_lt in E; lia|].
  rewrite (lookup_insert_ne _ _ _ _ (not_eq_sym Hne)), Hr. reflexivity.
Qed.

(** A packet on a new flow whose reverse is unknown, below the refusal
    threshold: the flow is added and the packet counted uni-directional. *)
Lemma track_new_uni (cfg : Config) (s : State) (pkt : Packet) (tc : TCP)
    (v e : N) (a b : string) :
  flows s !! fstr_of tc a b = None -> (flowCnt s <= maxFlows cfg)%Z ->
  rstr_of tc a b ≠ fstr_of tc a b -> flows s !! rstr_of tc a b = None ->
  track cfg s pkt tc v e a b
  = Returns
      (inc_uniDir
         (set_flows (<[fstr_of tc a b :=
                         set_last_tm (capTm s) (new_flowRec (fstr_of tc a b))]>
                       (<[fstr_of tc a b := new_flowRec (fstr_of tc a b)]>
                          (flows s)))
                    (set_flows (<[fstr_of tc a b :=
                                    new_flowRec (fstr_of tc a b)]> (flows s))
                               (set_flowCnt (flowCnt s + 1) s)))) [].
Proof.
  intros Hf Hc Hne Hr. unfold track.
  change (flow_key (endpoint a (sport tc)) (endpoint b (dport tc)))
    with (fstr_of tc a b).
  change (flow_key (endpoint b (dport tc)) (endpoint a (sport tc)))
    with (rstr_of tc a b).
  rewrite (find_flow_new cfg s _ _ Hf Hc Hne Hr). reflexivity.
Qed.

Lemma holds_ports_step (cfg : Config) (n : nat) (s : State) :
  holds_ports n s -> (Z.of_nat n <= maxFlows cfg)%Z ->
  ∃ s', process_packet cfg s (syn_to_port (S n)) = Returns s' [] ∧
        holds_ports (S n) s'.
Proof.
  intros (Hc & Hsz & Hk) Hle.
  assert (Hu : usable (syn_to_port (S n))
               = Some (mkTCP 1000 (N.of_nat (S n)) TCP_SYN (Some (1%N, 0%N)),
                       1%N, 0%N, hostA, hostB)) by reflexivity.
  rewrite (process_packet_usable cfg s _ _ _ _ _ _ Hu).
  set (s1 := normalize_time (inc_pktCnt s) (syn_to_port (S n))).
  destruct (normalize_time_frame (inc_pktCnt s) (syn_to_port (S n)))
    as (Hfl & _ & Hfc).
  fold s1 in Hfl, Hfc. simpl in Hfl, Hfc.
  set (tc := mkTCP 1000 (N.of_nat (S n)) TCP_SYN (Some (1%N, 0%N))).
  assert (Hfk : fstr_of tc hostA hostB = port_key (S n)) by reflexivity.
  assert (Hrk : rstr_of tc hostA hostB = port_rkey (S n)) by reflexivity.
  assert (Hnone : flows s !! port_key (S n) = None).
  { destruct (flows s !! port_key (S n)) eqn:E; [|reflexivity].
    destruct (Hk (port_key (S n))) as (i & Hi & Heq); [eauto|].
    apply port_key_inj in Heq. lia. }
  assert (Hrnone : flows s !! port_rkey (S n) = None).
  { destruct (flows s !! port_rkey (S n)) eqn:E; [|reflexivity].
    destruct (Hk (port_rkey (S n))) as (i & Hi & Heq); [eauto|].
    exfalso. exact (port_rkey_ne _ _ Heq). }
  rewrite (track_new_uni cfg s1 _ tc 1 0 hostA hostB).
  - eexists. split; [reflexivity|].
    rewrite Hfk, Hfl, Hfc. unfold holds_ports. simpl.
    rewrite insert_insert_eq. split; [lia|]. split.
    + rewrite (map_size_insert_None _ _ _ Hnone). lia.
    + intros k [x Hx].
      destruct (decide (port_key (S n) = k)) as [<-|Hne].
      * exists (S n). split; [lia|reflexivity].
      * rewrite (lookup_insert_ne _ _ _ _ Hne) in Hx.
        destruct (Hk k) as (i & Hi & Heq); [eauto|].
        exists i. split; [lia|exact Heq].
  - rewrite Hfk, Hfl. exact Hnone.
  - rewrite Hfc, Hc. exact Hle.
  - rewrite Hfk, Hrk. apply port_rkey_ne.
  - rewrite Hrk, Hfl. exact Hrnone.
Qed.

Lemma holds_ports_run (cfg : Config) (m n : nat) (s : State) :
  holds_ports n s -> (Z.of_nat (n + m) <= maxFlows cfg + 1)%Z ->
  ∃ s', final s (exec cfg s (map (fun i => Pkt (syn_to_port i))
                                 (seq (S n) m))) = Some s' ∧
        holds_ports (n + m) s'.
Proof.
  revert n s. induction m as [|m IH]; intros n s Hinv Hle.
  - exists s. rewrite Nat.add_0_r. split; [reflexivity|exact Hinv].
  - destruct (holds_ports_step cfg n s Hinv) as (s1 & Hp & Hinv1); [lia|].
    destruct (IH (S n) s1 Hinv1) as (s' & Hfin & Hinv'); [lia|].
    exists s'. split.
    + simpl. rewrite Hp. exact Hfin.
    + replace (n + S m) with (S n + m) by lia. exact Hinv'.
Qed.

Lemma holds_ports_init : holds_ports 0 init_state.
Proof.
  unfold holds_ports. simpl. split; [reflexivity|]. split.
  - apply map_size_empty.
  - intros k [x Hx]. rewrite lookup_empty in Hx. discriminate.
Qed.

(** For any non-negative limit the flow table reaches [maxFlows + 1]
    records: the refusal test is [flowCnt > maxFlows]. *)
Lemma flows_exceed_maxFlows (cfg : Config) :
  (0 <= maxFlows cfg)%Z ->
  ∃ s, final init_state
         (exec cfg init_state (many_flows (S (Z.to_nat (maxFlows cfg)))))
       = Some s
       ∧ Z.of_nat (size (flows s)) = (maxFlows cfg + 1)%Z
       ∧ flowCnt s = (maxFlows cfg + 1)%Z.
Proof.
  intros H0.
  destruct (holds_ports_run cfg (S (Z.to_nat (maxFlows cfg))) 0 init_state
              holds_ports_init) as (s & Hfin & Hc & Hsz & _); [simpl; lia|].
  exists s. split; [exact Hfin|]. simpl in Hc, Hsz. split; lia.
Qed.

(** A packet of a new flow that arrives when [flowCnt] is above the limit
    is dropped: no flow record, no TSval entry, no rejection counter. *)
Lemma refused_packet_creates_nothing (cfg : Config) (s : State)
    (pkt : Packet) (tc : TCP) (v e : N) (a b : string) :
  usable pkt = Some (tc, v, e, a, b) ->
  flows s !! fstr_of tc a b = None -> (maxFlows cfg < flowCnt s)%Z ->
  ∃ s', process_packet cfg s pkt = Returns s' [] ∧
        flows s' = flows s ∧ tsTbl s' = tsTbl s ∧ flowCnt s' = flowCnt s ∧
        rejection_counters s' = rejection_counters s.
Proof.
  intros Hu Hf Hc.
  rewrite (process_packet_usable cfg s pkt _ _ _ _ _ Hu).
  destruct (normalize_time_frame (inc_pktCnt s) pkt) as (Hfl & Htb & Hfc).
  simpl in Hfl, Htb, Hfc.
  unfold track.
  change (flow_key (endpoint a (sport tc)) (endpoint b (dport tc)))
    with (fstr_of tc a b).
  unfold find_flow. rewrite Hfl, Hf, Hfc.
  destruct (maxFlows cfg <? flowCnt s)%Z eqn:E; [|apply Z.ltb_ge in E; lia].
  eexists. split; [reflexivity|]. repeat split; try assumption.
  unfold normalize_time. simpl. destruct (offTm s <? 0)%Z; reflexivity.
Qed.

Section erase_count.
Context {A : Type} (P : A -> bool).

(** The erasing loop with a counter takes one off the counter for each
    record it takes out of the table. *)
Lemma erase_count_loop_size (m0 : gmap string A) (c0 : Z)
    (m : gmap string A) :
  m ⊆ m0 ->
  (Z.of_nat (size (fst (map_fold
       (fun key x (acc : gmap string A * Z) =>
          if P x then (delete key (fst acc), snd acc - 1)%Z else acc)
       (m0, c0) m)))
   - snd (map_fold
       (fun key x (acc : gmap string A * Z) =>
          if P x then (delete key (fst acc), snd acc - 1)%Z else acc)
       (m0, c0) m)
   = Z.of_nat (size m0) - c0)%Z
  ∧ (snd (map_fold
       (fun key x (acc : gmap string A * Z) =>
          if P x then (delete key (fst acc), snd acc - 1)%Z else acc)
       (m0, c0) m) <= c0)%Z.
Proof.
  set (f := fun (key : string) (x : A) (acc : gmap string A * Z) =>
              if P x then (delete key (fst acc), snd acc - 1)%Z else acc).
  assert (Hind : ∀ m', m' ⊆ m0 ->
            (Z.of_nat (size (fst (map_fold f (m0, c0) m')))
             - snd (map_fold f (m0, c0) m') = Z.of_nat (size m0) - c0)%Z
            ∧ (snd (map_fold f (m0, c0) m') <= c0)%Z
            ∧ ∀ k, m' !! k = None ->
                   fst (map_fold f (m0, c0) m') !! k = m0 !! k).
  { apply (map_fold_weak_ind
             (fun (r : gmap string A * Z) m' =>
                m' ⊆ m0 ->
                (Z.of_nat (size (fst r)) - snd r = Z.of_nat (size m0) - c0)%Z
                ∧ (snd r <= c0)%Z
                ∧ ∀ k, m' !! k = None -> fst r !! k = m0 !! k)).
    - intros _. simpl. split; [lia|]. split; [lia|]. auto.
    - intros i x m' r Hi IH Hsub.
      assert (Hsub' : m' ⊆ m0).
      { apply map_subseteq_spec. intros k y Hk.
        apply (proj1 (map_subseteq_spec _ _) Hsub).
        destruct (decide (i = k)) as [->|Hne]; [congruence|].
        rewrite (lookup_insert_ne _ _ _ _ Hne). exact Hk. }
      destruct (IH Hsub') as (Hsz & Hle & Hlk).
      assert (Hm0 : m0 !! i = Some x).
      { apply (proj1 (map_subseteq_spec _ _) Hsub). apply lookup_insert_eq. }
      unfold f. destruct (P x); simpl.
      + assert (Hri : is_Some (fst r !! i)) by (rewrite (Hlk i Hi); eauto).
        rewrite (map_size_delete_Some _ _ Hri).
        assert (size (fst r) <> 0).
        { apply map_size_ne_0_lookup. destruct Hri as [y Hy]. eauto. }
        split; [lia|]. split; [lia|].
        intros k Hk. destruct (decide (i = k)) as [->|Hne].
        * rewrite lookup_insert_eq in Hk. discriminate.
        * rewrite (lookup_insert_ne _ _ _ _ Hne) in Hk.
          rewrite (lookup_delete_ne _ _ _ Hne). auto.
      + split; [exact Hsz|]. split; [exact Hle|].
        intros k Hk. destruct (decide (i = k)) as [->|Hne].
        * rewrite lookup_insert_eq in Hk. discriminate.
        * rewrite (lookup_insert_ne _ _ _ _ Hne) in Hk. auto. }
  intros Hsub. destruct (Hind m Hsub) as (H1 & H2 & _). auto.
Qed.
End erase_count.

Lemma cleanUp_flowCnt_inv (cfg : Config) (n : Q) (s : State) :
  flowCnt_inv cfg s -> flowCnt_inv cfg (cleanUp cfg n s).
Proof.
  intros [Hc Hb]. unfold flowCnt_inv, cleanUp. simpl.
  destruct (erase_count_loop_size (flow_idle cfg n) (flows s) (flowCnt s)
              (flows s)) as [H1 H2]; [reflexivity|].
  split; lia.
Qed.

Lemma size_alter_flows (g : flowRec -> flowRec) (k : string)
    (m : gmap string flowRec) :
  size (alter g k m) = size m.
Proof. rewrite <- !size_dom, dom_alter_L. reflexivity. Qed.

Lemma find_flow_flowCnt_inv (cfg : Config) (s s2 : State) (fk rk : string)
    (fr0 : flowRec) :
  find_flow cfg s fk rk = Some (s2, fr0) ->
  flowCnt_inv cfg s -> flowCnt_inv cfg s2.
Proof.
  unfold find_flow, flowCnt_inv. intros H [Hc Hb].
  destruct (flows s !! fk) as [fr|] eqn:Hf.
  - inversion H; subst. auto.
  - destruct (maxFlows cfg <? flowCnt s)%Z eqn:E; [discriminate|].
    apply Z.ltb_ge in E.
    destruct (<[fk:=new_flowRec fk]> (flows s) !! rk) eqn:Hr;
      inversion H; subst; simpl.
    + rewrite map_size_insert_Some.
      * rewrite size_alter_flows, (map_size_insert_None _ _ _ Hf). lia.
      * rewrite lookup_alter. destruct (decide (rk = fk)) as [->|Hne].
        -- rewrite lookup_insert_eq. simpl. eauto.
        -- rewrite lookup_insert_eq. eauto.
    + rewrite (map_size_insert_None _ _ _ Hf). lia.
Qed.

Lemma find_flow_stored (cfg : Config) (s s2 : State) (fk rk : string)
    (fr0 : flowRec) :
  find_flow cfg s fk rk = Some (s2, fr0) -> flows s2 !! fk = Some fr0.
Proof.
  unfold find_flow. intros H.
  destruct (flows s !! fk) as [fr|] eqn:Hf.
  - inversion H; subst. exact Hf.
  - destruct (maxFlows cfg <? flowCnt s)%Z; [discriminate|].
    destruct (<[fk:=new_flowRec fk]> (flows s) !! rk);
      inversion H; subst; simpl; apply lookup_insert_eq.
Qed.

Lemma track_flowCnt_inv (cfg : Config) (s : State) (pkt : Packet) (tc : TCP)
    (v e : N) (a b : string) (s' : State) (out : list Sample) :
  track cfg s pkt tc v e a b = Returns s' out ->
  flowCnt_inv cfg s -> flowCnt_inv cfg s'.
Proof.
  unfold track. intros H Hinv.
  set (fk := flow_key (endpoint a (sport tc)) (endpoint b (dport tc))) in *.
  set (rk := flow_key (endpoint b (dport tc)) (endpoint a (sport tc))) in *.
  destruct (find_flow cfg s fk rk) as [[s2 fr0]|] eqn:Hf.
  2:{ inversion H; subst. exact Hinv. }
  pose proof (find_flow_flowCnt_inv _ _ _ _ _ _ Hf Hinv) as [Hc2 Hb2].
  apply find_flow_stored in Hf as H1.
  assert (Hstore : ∀ frX, size (<[fk := frX]> (flows s2)) = size (flows s2)).
  { intros frX. apply map_size_insert_Some. eauto. }
  destruct (negb (revFlow (set_last_tm (capTm s2) fr0))).
  { inversion H; subst. unfold flowCnt_inv. simpl. rewrite Hstore. auto. }
  destruct (record_fwd cfg b _ _ (tsTbl s2)) as [tbl1|]; [|discriminate].
  unfold getTStm in H.
  destruct (tbl1 !! ts_key rk e) as [ti|].
  - destruct (Qltb 0 (t ti)).
    + destruct (<[fk := _]> (flows s2) !! rk); [|discriminate].
      inversion H; subst s' out. unfold flowCnt_inv. simpl.
      rewrite size_alter_flows, Hstore. auto.
    + inversion H; subst. unfold flowCnt_inv. simpl. rewrite Hstore. auto.
  - inversion H; subst. unfold flowCnt_inv. simpl. rewrite Hstore. auto.
Qed.

Lemma step_flowCnt_inv (cfg : Config) (s : State) (e : event) (s' : State)
    (out : list Sample) :
  step cfg s e = Returns s' out -> flowCnt_inv cfg s -> flowCnt_inv cfg s'.
Proof.
  intros H Hinv. destruct e as [pkt|now]; simpl in H.
  - destruct (usable pkt) as [[[[[tc v0] e] a] b]|] eqn:Hu.
    + rewrite (process_packet_usable cfg s pkt _ _ _ _ _ Hu) in H.
      apply track_flowCnt_inv in H; [exact H|].
      destruct (normalize_time_frame (inc_pktCnt s) pkt) as (Hfl & _ & Hfc).
      simpl in Hfl, Hfc. unfold flowCnt_inv. rewrite Hfl, Hfc. exact Hinv.
    + destruct (process_packet_unusable cfg s pkt Hu)
        as (s1 & H1 & Hfl & _ & Hfc & _).
      rewrite H1 in H. inversion H; subst.
      unfold flowCnt_inv. rewrite Hfl, Hfc. exact Hinv.
  - inversion H; subst. unfold cleanUpLoop_body.
    destruct (0 <? offTm s)%Z; [apply cleanUp_flowCnt_inv|]; exact Hinv.
Qed.

(** What the code does guarantee: in every state a run reaches the flow
    table holds at most [maxFlows + 1] records. *)
Lemma flows_at_most_cap_plus_one (cfg : Config) (evs : list event)
    (s' : State) :
  final init_state (exec cfg init_state evs) = Some s' ->
  (Z.of_nat (size (flows s')) <= Z.max 0 (maxFlows cfg + 1))%Z.
Proof.
  assert (Hgen : ∀ evs s, flowCnt_inv cfg s ->
                   final s (exec cfg s evs) = Some s' -> flowCnt_inv cfg s').
  { clear evs. induction evs as [|e evs IH]; intros s Hinv Hfin.
    - simpl in Hfin. inversion Hfin; subst. exact Hinv.
    - simpl in Hfin. destruct (step cfg s e) as [s1 out|ex] eqn:Hs;
        [|discriminate].
      apply (IH s1); [|exact Hfin].
      exact (step_flowCnt_inv cfg s e s1 out Hs Hinv). }
  intros Hfin.
  destruct (Hgen evs init_state) as [Hc Hb]; [|exact Hfin|lia].
  unfold flowCnt_inv. simpl. rewrite map_size_empty. lia.
Qed.

(** C3 on the code: with the built-in limit of 10000, SYNs to 10001
    different ports leave 10001 records in the flow table; the packet that
    arrives when the table holds exactly [maxFlows] records is not dropped. *)
Theorem flow_table_exceeds_cap :
  ∃ s, final init_state
         (exec default_config init_state
               (many_flows (S (Z.to_nat (maxFlows default_config)))))
       = Some s
       ∧ Z.of_nat (size (flows s)) = (maxFlows default_config + 1)%Z
       ∧ (maxFlows default_config < Z.of_nat (size (flows s)))%Z.
Proof.
  destruct (flows_exceed_maxFlows default_config) as (s & Hfin & Hsz & _).
  - simpl. lia.
  - exists s. split; [exact Hfin|]. split; [exact Hsz|]. rewrite Hsz. lia.
Qed.

(** ** Keys of the TSval table name one flow and one TSval *)

Lemma pretty_N_char_no_plus (x : N) :
  Ascii.eqb (pretty_N_char x) "+"%char = false.
Proof.
  unfold pretty_N_char.
  destruct x as [|p]; [reflexivity|].
  repeat (destruct p as [p|p|]; try reflexivity).
Qed.

Lemma pretty_N_go_no_plus (x : N) (s : string) :
  no_plus s = true -> no_plus (pretty_N_go x s) = true.
Proof.
  revert s. induction (N.lt_wf_0 x) as [x _ IH]; intros s Hs.
  destruct (decide (x = 0%N)) as [->|Hx].
  - rewrite pretty_N_go_0. exact Hs.
  - rewrite pretty_N_go_step by lia. apply IH.
    + apply N.div_lt; lia.
    + simpl. rewrite pretty_N_char_no_plus, Hs. reflexivity.
Qed.

Lemma pretty_N_no_plus (x : N) : no_plus (pretty x) = true.
Proof.
  unfold pretty, pretty_N. case_decide; [reflexivity|].
  apply pretty_N_go_no_plus. reflexivity.
Qed.

Lemma no_plus_app_plus (a b : string) :
  no_plus (a +:+ "+" +:+ b) = false.
Proof.
  induction a as [|c a IH].
  - reflexivity.
  - change (String c a +:+ "+" +:+ b) with (String c (a +:+ "+" +:+ b)).
    simpl no_plus. rewrite IH. apply andb_false_r.
Qed.

(** A key of the TSval table determines its flow key and its TSval. *)
Lemma ts_key_inj (f g : string) (v w : N) :
  ts_key f v = ts_key g w -> f = g ∧ v = w.
Proof.
  unfold ts_key. revert g. induction f as [|c f IH]; intros [|d g] H.
  - do 2 apply (inj (String.app _)) in H.
    apply (inj (@pretty N pretty_N)) in H. auto.
  - exfalso.
    change (EmptyString +:+ "+" +:+ pretty v) with (String "+" (pretty v)) in H.
    change (String d g +:+ "+" +:+ pretty w)
      with (String d (g +:+ "+" +:+ pretty w)) in H.
    injection H as _ H.
    pose proof (pretty_N_no_plus v) as Hv.
    rewrite H, no_plus_app_plus in Hv. discriminate.
  - exfalso.
    change (EmptyString +:+ "+" +:+ pretty w) with (String "+" (pretty w)) in H.
    change (String c f +:+ "+" +:+ pretty v)
      with (String c (f +:+ "+" +:+ pretty v)) in H.
    injection H as _ H.
    pose proof (pretty_N_no_plus w) as Hw.
    rewrite <- H, no_plus_app_plus in Hw. discriminate.
  - change (String c f +:+ "+" +:+ pretty v)
      with (String c (f +:+ "+" +:+ pretty v)) in H.
    change (String d g +:+ "+" +:+ pretty w)
      with (String d (g +:+ "+" +:+ pretty w)) in H.
    injection H as -> H. destruct (IH g H) as [-> ->]. auto.
Qed.

(** ** A packet on an established connection *)

Lemma find_flow_present (cfg : Config) (s : State) (fk rk : string)
    (fr : flowRec) :
  flows s !! fk = Some fr -> find_flow cfg s fk rk = Some (s, fr).
Proof. unfold find_flow. intros ->. reflexivity. Qed.

Lemma record_fwd_some (cfg : Config) (ipdstr key : string) (ti : tsInfo)
    (tbl : gmap string tsInfo) :
  filtLocal cfg = false ∨ is_Some (IPv4Address_of cfg ipdstr) ->
  ∃ tbl1, record_fwd cfg ipdstr key ti tbl = Some tbl1.
Proof.
  unfold record_fwd. intros [->|[n ->]]; simpl; [eauto|].
  destruct (negb (filtLocal cfg)); [eauto|].
  destruct (negb (ipRangesContains (localRanges cfg) n)); eauto.
Qed.

Lemma record_fwd_records (cfg : Config) (ipdstr key : string) (ti : tsInfo)
    (tbl : gmap string tsInfo) :
  filtLocal cfg = false
  ∨ (∃ n, IPv4Address_of cfg ipdstr = Some n
          ∧ ipRangesContains (localRanges cfg) n = false) ->
  record_fwd cfg ipdstr key ti tbl = Some (addTS key ti tbl).
Proof.
  unfold record_fwd. intros [->|(n & -> & ->)]; simpl; [reflexivity|].
  destruct (negb (filtLocal cfg)); reflexivity.
Qed.

(** On a flow that is known in both directions [track] returns; the
    sample, if any, is decided by the entry under the reversed key after
    the forward recording. *)
Lemma track_bidir (cfg : Config) (s : State) (pkt : Packet) (tc : TCP)
    (v e : N) (a b : string) (fr rr : flowRec) :
  flows s !! fstr_of tc a b = Some fr -> revFlow fr = true ->
  flows s !! rstr_of tc a b = Some rr -> revFlow rr = true ->
  filtLocal cfg = false ∨ is_Some (IPv4Address_of cfg b) ->
  ∃ s' out tbl1 fb db,
    track cfg s pkt tc v e a b = Returns s' out ∧
    record_fwd cfg b (ts_key (fstr_of tc a b) v) (mkTsInfo (capTm s) fb db)
               (tsTbl s) = Some tbl1 ∧
    (∃ fr', flows s' !! fstr_of tc a b = Some fr' ∧ revFlow fr' = true) ∧
    (∃ rr', flows s' !! rstr_of tc a b = Some rr' ∧ revFlow rr' = true) ∧
    capTm s' = capTm s ∧ offTm s' = offTm s ∧
    match tbl1 !! ts_key (rstr_of tc a b) e with
    | Some ti =>
        if Qltb 0 (t ti) then
          ∃ x, out = [x] ∧ matched_flow x = rstr_of tc a b ∧
               matched_tsval x = e ∧ s_flow x = fstr_of tc a b ∧
               s_rtt x = (capTm s - t ti)%Q ∧
               tsTbl s' = <[ts_key (rstr_of tc a b) e := set_t (- t ti) ti]> tbl1
        else out = [] ∧ tsTbl s' = tbl1
    | None => out = [] ∧ tsTbl s' = tbl1
    end.
Proof.
  intros Hf Hrev Hr Hrrev Hloc. unfold track.
  change (flow_key (endpoint a (sport tc)) (endpoint b (dport tc)))
    with (fstr_of tc a b).
  change (flow_key (endpoint b (dport tc)) (endpoint a (sport tc)))
    with (rstr_of tc a b).
  set (fk := fstr_of tc a b) in *. set (rk := rstr_of tc a b) in *.
  rewrite (find_flow_present cfg s fk rk fr Hf).
  cbn [revFlow set_last_tm]. rewrite Hrev. cbn [negb].
  cbn [bytesSnt bytesDep set_bytesSnt set_last_tm].
  set (arr := (bytesSnt fr + inject_Z (Z.of_N (pdu_size pkt)))%Q).
  destruct (record_fwd_some cfg b (ts_key fk v)
              (mkTsInfo (capTm s) arr (bytesDep fr)) (tsTbl s) Hloc)
    as [tbl1 Htbl1].
  rewrite Htbl1. unfold getTStm.
  set (fr2 := set_bytesSnt arr (set_last_tm (capTm s) fr)).
  assert (Hplain : ∀ tb,
    (∃ fr', flows (set_tables (<[fk := fr2]> (flows s)) tb s) !! fk = Some fr'
            ∧ revFlow fr' = true) ∧
    (∃ rr', flows (set_tables (<[fk := fr2]> (flows s)) tb s) !! rk = Some rr'
            ∧ revFlow rr' = true)).
  { intros tb. simpl. split.
    - exists fr2. rewrite lookup_insert_eq. auto.
    - destruct (decide (fk = rk)) as [<-|Hne].
      + exists fr2. rewrite lookup_insert_eq. auto.
      + exists rr. rewrite (lookup_insert_ne _ _ _ _ Hne). auto. }
  destruct (tbl1 !! ts_key rk e) as [ti|] eqn:Hl.
  - destruct (Qltb 0 (t ti)) eqn:Hpos.
    + set (fr3 := if Qltb (capTm s - t ti) (min fr2)
                  then set_min (capTm s - t ti) fr2 else fr2).
      set (fr4 := set_lstBytesSnt arr fr3).
      assert (Hrev4 : revFlow fr4 = true).
      { unfold fr4, fr3.
        destruct (Qltb (capTm s - t ti) (min fr2)); exact Hrev. }
      assert (Hrk : is_Some (<[fk := fr4]> (flows s) !! rk)).
      { destruct (decide (fk = rk)) as [<-|Hne].
        - rewrite lookup_insert_eq. eauto.
        - rewrite (lookup_insert_ne _ _ _ _ Hne). eauto. }
      destruct Hrk as [rr0 Hrr0].
      assert (Hrev0 : revFlow rr0 = true).
      { destruct (decide (fk = rk)) as [Heq|Hne].
        - rewrite <- Heq, lookup_insert_eq in Hrr0. congruence.
        - rewrite (lookup_insert_ne _ _ _ _ Hne) in Hrr0. congruence. }
      fold fr2 fr3 fr4. rewrite Hrr0.
      eexists _, _, tbl1, arr, (bytesDep fr).
      split; [reflexivity|]. split; [exact Htbl1|].
      rewrite Hl, Hpos. simpl.
      split; [|split; [|split; [reflexivity|split; [reflexivity|]]]].
      * rewrite lookup_alter. destruct (decide (rk = fk)) as [Heq|Hne].
        -- rewrite Hrr0. simpl. eexists. split; [reflexivity|].
           simpl. exact Hrev0.
        -- rewrite lookup_insert_eq. eauto.
      * rewrite lookup_alter. rewrite decide_True by reflexivity.
        rewrite Hrr0. simpl. eexists. split; [reflexivity|]. simpl.
        exact Hrev0.
      * eexists. repeat split.
    + fold fr2. eexists _, _, tbl1, arr, (bytesDep fr).
      split; [reflexivity|]. split; [exact Htbl1|].
      rewrite Hl, Hpos.
      destruct (Hplain tbl1) as [H1 H2].
      split; [exact H1|]. split; [exact H2|]. simpl. auto.
  - fold fr2. eexists _, _, tbl1, arr, (bytesDep fr).
    split; [reflexivity|]. split; [exact Htbl1|].
    rewrite Hl.
    destruct (Hplain tbl1) as [H1 H2].
    split; [exact H1|]. split; [exact H2|]. simpl. auto.
Qed.

Lemma addTS_lookup_present (k key : string) (ti x : tsInfo)
    (tbl : gmap string tsInfo) :
  tbl !! k = Some x -> addTS key ti tbl !! k = Some x.
Proof.
  intros H. unfold addTS. destruct (tbl !! key) eqn:E; [exact H|].
  destruct (decide (key = k)) as [->|Hne]; [congruence|].
  rewrite (lookup_insert_ne _ _ _ _ Hne). exact H.
Qed.

Lemma record_fwd_lookup_present (cfg : Config) (ipdstr key k : string)
    (ti x : tsInfo) (tbl tbl1 : gmap string tsInfo) :
  record_fwd cfg ipdstr key ti tbl = Some tbl1 ->
  tbl !! k = Some x -> tbl1 !! k = Some x.
Proof.
  intros H Hk. destruct (record_fwd_cases _ _ _ _ _ _ H) as [->| ->].
  - exact Hk.
  - apply addTS_lookup_present. exact Hk.
Qed.

(** A usable packet on an established connection, seen from
    [process_packet]. *)
Lemma process_packet_bidir (cfg : Config) (s : State) (pkt : Packet)
    (tc : TCP) (v e : N) (a b : string) (fr rr : flowRec) :
  usable pkt = Some (tc, v, e, a, b) ->
  flows s !! fstr_of tc a b = Some fr -> revFlow fr = true ->
  flows s !! rstr_of tc a b = Some rr -> revFlow rr = true ->
  filtLocal cfg = false ∨ is_Some (IPv4Address_of cfg b) ->
  ∃ s' out tbl1 fb db,
    process_packet cfg s pkt = Returns s' out ∧
    record_fwd cfg b (ts_key (fstr_of tc a b) v)
               (mkTsInfo (capTm (normalize_time s pkt)) fb db) (tsTbl s)
    = Some tbl1 ∧
    (∃ fr', flows s' !! fstr_of tc a b = Some fr' ∧ revFlow fr' = true) ∧
    (∃ rr', flows s' !! rstr_of tc a b = Some rr' ∧ revFlow rr' = true) ∧
    capTm s' = capTm (normalize_time s pkt) ∧
    offTm s' = offTm (normalize_time s pkt) ∧
    match tbl1 !! ts_key (rstr_of tc a b) e with
    | Some ti =>
        if Qltb 0 (t ti) then
          ∃ x, out = [x] ∧ matched_flow x = rstr_of tc a b ∧
               matched_tsval x = e ∧ s_flow x = fstr_of tc a b ∧
               s_rtt x = (capTm (normalize_time s pkt) - t ti)%Q ∧
               tsTbl s' = <[ts_key (rstr_of tc a b) e := set_t (- t ti) ti]> tbl1
        else out = [] ∧ tsTbl s' = tbl1
    | None => out = [] ∧ tsTbl s' = tbl1
    end.
Proof.
  intros Hu Hf Hrev Hr Hrrev Hloc.
  rewrite (process_packet_usable cfg s pkt _ _ _ _ _ Hu).
  destruct (normalize_time_frame (inc_pktCnt s) pkt) as (Hfl & Htb & _).
  destruct (normalize_time_pktCnt_clock s pkt) as (Hc & Ho & _).
  simpl in Hfl, Htb.
  rewrite <- Hfl in Hf, Hr.
  destruct (track_bidir cfg _ pkt tc v e a b fr rr Hf Hrev Hr Hrrev Hloc)
    as (s' & out & tbl1 & fb & db & Ht & Hrec & H1 & H2 & Hc' & Ho' & Hm).
  rewrite Htb, Hc in Hrec. rewrite Hc in Hc', Hm. rewrite Ho in Ho'.
  exists s', out, tbl1, fb, db. auto 10.
Qed.

(** ** The oldest observation of a TSval wins *)





(** ** One TSval, one echo, one sample *)

(** C2 (as amended). On a connection known in both directions, a forward
    packet from A to B with a TSval V that is not in the table, recorded at
    a capture time greater than zero, followed by a packet from B to A with
    ECR V: the second packet emits exactly one sample, for the entry of
    (forward flow, V), whose RTT is its capture time minus the capture time
    stored by the first (the difference of the two packet timestamps);
    a further packet from B to A with ECR V emits nothing.  The forward
    packet itself emits no sample for that entry. *)
Theorem one_echo_one_sample (cfg : Config) (s : State) (p1 p2 p3 : Packet)
    (tc1 tc2 tc3 : TCP) (V e1 v2 v3 : N) (A B : string) (fr rr : flowRec) :
  usable p1 = Some (tc1, V, e1, A, B) ->
  usable p2 = Some (tc2, v2, V, B, A) ->
  usable p3 = Some (tc3, v3, V, B, A) ->
  sport tc2 = dport tc1 -> dport tc2 = sport tc1 ->
  sport tc3 = dport tc1 -> dport tc3 = sport tc1 ->
  fstr_of tc1 A B ≠ rstr_of tc1 A B ->
  flows s !! fstr_of tc1 A B = Some fr -> revFlow fr = true ->
  flows s !! rstr_of tc1 A B = Some rr -> revFlow rr = true ->
  tsTbl s !! ts_key (fstr_of tc1 A B) V = None ->
  filtLocal cfg = false
  ∨ (∃ n, IPv4Address_of cfg B = Some n
          ∧ ipRangesContains (localRanges cfg) n = false) ->
  filtLocal cfg = false ∨ is_Some (IPv4Address_of cfg A) ->
  (0 < capTm (normalize_time s p1))%Q ->
  ∃ s1 out1 s2 x s3 ti,
    process_packet cfg s p1 = Returns s1 out1 ∧
    (∀ y, y ∈ out1 -> matched_flow y ≠ fstr_of tc1 A B) ∧
    tsTbl s1 !! ts_key (fstr_of tc1 A B) V = Some ti ∧ t ti = capTm s1 ∧
    process_packet cfg s1 p2 = Returns s2 [x] ∧
    matched_flow x = fstr_of tc1 A B ∧ matched_tsval x = V ∧
    s_rtt x = (capTm s2 - capTm s1)%Q ∧
    ((0 <= offTm s)%Z ->
       (s_rtt x == inject_Z (ts_seconds p2 - ts_seconds p1)
                   + (inject_Z (ts_microseconds p2)
                      - inject_Z (ts_microseconds p1)) * 1e-6)%Q) ∧
    process_packet cfg s2 p3 = Returns s3 [].
Proof.
  intros Hu1 Hu2 Hu3 Hs2 Hd2 Hs3 Hd3 Hne Hf Hfrev Hr Hrrev Hfresh
         Hrec HlocA Hpos.
  set (fk := fstr_of tc1 A B) in *. set (rk := rstr_of tc1 A B) in *.
  assert (Hfk2 : fstr_of tc2 B A = rk)
    by (unfold fstr_of, rk, rstr_of; rewrite Hs2, Hd2; reflexivity).
  assert (Hrk2 : rstr_of tc2 B A = fk)
    by (unfold rstr_of, fk, fstr_of; rewrite Hs2, Hd2; reflexivity).
  assert (Hfk3 : fstr_of tc3 B A = rk)
    by (unfold fstr_of, rk, rstr_of; rewrite Hs3, Hd3; reflexivity).
  assert (Hrk3 : rstr_of tc3 B A = fk)
    by (unfold rstr_of, fk, fstr_of; rewrite Hs3, Hd3; reflexivity).
  assert (HlocB : filtLocal cfg = false ∨ is_Some (IPv4Address_of cfg B)).
  { destruct Hrec as [H|(n & H & _)]; [left; exact H|right; eauto]. }
  (* the forward packet *)
  destruct (process_packet_bidir cfg s p1 tc1 V e1 A B fr rr
              Hu1 Hf Hfrev Hr Hrrev HlocB)
    as (s1 & out1 & tbl1 & fb & db & Hp1 & Hrec1 & (fr1 & Hf1 & Hfrev1)
        & (rr1 & Hr1 & Hrrev1) & Hc1 & Ho1 & Hm1).
  fold fk rk in Hrec1, Hf1, Hr1, Hm1.
  rewrite (record_fwd_records _ _ _ _ _ Hrec) in Hrec1.
  injection Hrec1 as <-.
  set (T1 := capTm (normalize_time s p1)) in *.
  set (ti := mkTsInfo T1 fb db) in *.
  assert (Hti1 : addTS (ts_key fk V) ti (tsTbl s) !! ts_key fk V = Some ti).
  { unfold addTS. rewrite Hfresh. apply lookup_insert_eq. }
  assert (Hkne : ts_key rk e1 ≠ ts_key fk V).
  { intros E. apply ts_key_inj in E as [E _]. apply Hne. congruence. }
  assert (Hs1 : tsTbl s1 !! ts_key fk V = Some ti
                ∧ ∀ y, y ∈ out1 -> matched_flow y ≠ fk).
  { destruct (addTS (ts_key fk V) ti (tsTbl s) !! ts_key rk e1) as [tj|].
    - destruct (Qltb 0 (t tj)).
      + destruct Hm1 as (x & -> & Hmf & _ & _ & _ & ->). split.
        * rewrite (lookup_insert_ne _ _ _ _ Hkne). exact Hti1.
        * intros y Hy. apply list_elem_of_singleton in Hy. subst y.
          rewrite Hmf. congruence.
      + destruct Hm1 as [-> ->]. split; [exact Hti1|].
        intros y Hy. inversion Hy.
    - destruct Hm1 as [-> ->]. split; [exact Hti1|].
      intros y Hy. inversion Hy. }
  destruct Hs1 as [Hentry1 Hout1].
  (* the reply *)
  rewrite <- Hfk2 in Hr1. rewrite <- Hrk2 in Hf1.
  destruct (process_packet_bidir cfg s1 p2 tc2 v2 V B A rr1 fr1
              Hu2 Hr1 Hrrev1 Hf1 Hfrev1 HlocA)
    as (s2 & out2 & tbl2 & fb2 & db2 & Hp2 & Hrec2 & (rr2 & Hr2 & Hrrev2)
        & (fr2 & Hf2 & Hfrev2) & Hc2 & Ho2 & Hm2).
  rewrite Hrk2 in Hm2, Hf2. rewrite Hfk2 in Hr2.
  pose proof (record_fwd_lookup_present _ _ _ _ _ _ _ _ Hrec2 Hentry1)
    as Hentry2.
  rewrite Hentry2 in Hm2. simpl in Hm2.
  apply Qltb_lt in Hpos as Hposb. rewrite Hposb in Hm2.
  destruct Hm2 as (x & -> & Hmf & Hmv & _ & Hrtt & Htb2).
  (* the second reply *)
  rewrite <- Hfk3 in Hr2. rewrite <- Hrk3 in Hf2.
  destruct (process_packet_bidir cfg s2 p3 tc3 v3 V B A rr2 fr2
              Hu3 Hr2 Hrrev2 Hf2 Hfrev2 HlocA)
    as (s3 & out3 & tbl3 & fb3 & db3 & Hp3 & Hrec3 & _ & _ & _ & _ & Hm3).
  rewrite Hrk3 in Hm3.
  assert (Hentry3 : tsTbl s2 !! ts_key fk V = Some (set_t (- t ti) ti)).
  { rewrite Htb2. apply lookup_insert_eq. }
  pose proof (record_fwd_lookup_present _ _ _ _ _ _ _ _ Hrec3 Hentry3)
    as Hentry3'.
  rewrite Hentry3' in Hm3. simpl in Hm3.
  rewrite (Qltb_0_opp _ Hposb) in Hm3. destruct Hm3 as [-> _].
  exists s1, out1, s2, x, s3, ti.
  split; [exact Hp1|]. split; [exact Hout1|]. split; [exact Hentry1|].
  split; [simpl; congruence|]. split; [exact Hp2|].
  split; [exact Hmf|]. split; [exact Hmv|].
  split; [rewrite Hrtt, Hc2, Hc1; reflexivity|].
  split; [|exact Hp3].
  intros Hoff. rewrite Hrtt. simpl t.
  destruct (normalize_time_later s p1 Hoff) as (Ho1' & _ & Hc1').
  assert (Hoff1 : (0 <= offTm s1)%Z) by (rewrite Ho1, Ho1'; exact Hoff).
  destruct (normalize_time_later s1 p2 Hoff1) as (_ & _ & Hc2').
  rewrite Hc2'. unfold T1. rewrite Hc1', Ho1, Ho1'.
  unfold Z.sub. rewrite !inject_Z_plus, !inject_Z_opp. ring.
Qed.


(** The exchange [fwd_pkt], [rev_pkt], [rev_again] after the handshake of
    [established_run]: one sample, with RTT 0.25 s - 0.2 s. *)
Lemma one_echo_one_sample_witness :
  ∃ s1 out1 s2 x s3 ti,
    process_packet default_config
      (state_after default_config established_run) fwd_pkt
    = Returns s1 out1 ∧
    (∀ y, y ∈ out1 -> matched_flow y ≠ fstr_of fwd_tcp hostA hostB) ∧
    tsTbl s1 !! ts_key (fstr_of fwd_tcp hostA hostB) 100 = Some ti ∧
    t ti = capTm s1 ∧
    process_packet default_config s1 rev_pkt = Returns s2 [x] ∧
    matched_flow x = fstr_of fwd_tcp hostA hostB ∧
    matched_tsval x = 100%N ∧
    s_rtt x = (capTm s2 - capTm s1)%Q ∧
    ((0 <= offTm (state_after default_config established_run))%Z ->
       (s_rtt x == inject_Z (ts_seconds rev_pkt - ts_seconds fwd_pkt)
                   + (inject_Z (ts_microseconds rev_pkt)
                      - inject_Z (ts_microseconds fwd_pkt)) * 1e-6)%Q) ∧
    process_packet default_config s2 rev_again = Returns s3 [].
Proof.
  assert (Hu1 : usable fwd_pkt = Some (fwd_tcp, 100%N, 5%N, hostA, hostB))
    by reflexivity.
  assert (Hu2 : usable rev_pkt = Some (rev_tcp, 6%N, 100%N, hostB, hostA))
    by reflexivity.
  assert (Hu3 : usable rev_again = Some (rev_tcp, 6%N, 100%N, hostB, hostA))
    by reflexivity.
  assert (Hne : fstr_of fwd_tcp hostA hostB ≠ rstr_of fwd_tcp hostA hostB)
    by (vm_compute; discriminate).
  assert (Hf : flows (state_after default_config established_run)
                 !! fstr_of fwd_tcp hostA hostB
               = Some (mkFlowRec keyAB 0.000000 1e30 0 0 0 true))
    by (vm_compute; reflexivity).
  assert (Hr : flows (state_after default_config established_run)
                 !! rstr_of fwd_tcp hostA hostB
               = Some (mkFlowRec keyBA 0.001000 1e30 60 0 0 true))
    by (vm_compute; reflexivity).
  assert (Hfresh : tsTbl (state_after default_config established_run)
                     !! ts_key (fstr_of fwd_tcp hostA hostB) 100 = None)
    by (vm_compute; reflexivity).
  assert (Hrec : filtLocal default_config = false
                 ∨ (∃ n, IPv4Address_of default_config hostB = Some n
                         ∧ ipRangesContains (localRanges default_config) n
                           = false)).
  { right. exists 167772162%N. split; vm_compute; reflexivity. }
  assert (HlocA : filtLocal default_config = false
                  ∨ is_Some (IPv4Address_of default_config hostA)).
  { right. exists 167772161%N. vm_compute; reflexivity. }
  assert (Hpos : (0 < capTm (normalize_time
                               (state_after default_config established_run)
                               fwd_pkt))%Q)
    by (vm_compute; reflexivity).
  assert (Hrev1 : revFlow (mkFlowRec keyAB 0.000000 1e30 0 0 0 true) = true)
    by reflexivity.
  assert (Hrev2 : revFlow (mkFlowRec keyBA 0.001000 1e30 60 0 0 true) = true)
    by reflexivity.
  assert (Hs2 : sport rev_tcp = dport fwd_tcp) by reflexivity.
  assert (Hd2 : dport rev_tcp = sport fwd_tcp) by reflexivity.
  exact (one_echo_one_sample default_config
           (state_after default_config established_run)
           fwd_pkt rev_pkt rev_again fwd_tcp rev_tcp rev_tcp
           100%N 5%N 6%N 6%N hostA hostB
           (mkFlowRec keyAB 0.000000 1e30 0 0 0 true)
           (mkFlowRec keyBA 0.001000 1e30 60 0 0 true)
           Hu1 Hu2 Hu3 Hs2 Hd2 Hs2 Hd2
           Hne Hf Hrev1 Hr Hrev2 Hfresh Hrec HlocA Hpos).
Defined.

(** C2, as stated, fails at T = 0: all packets of the handshake and the
    forward packet with TSval 100 carry the timestamp of the first packet,
    so the entry is stored with time 0; the reply 0.05 s later finds the
    entry, its time is not greater than zero, and no sample is emitted. *)
Lemma no_sample_for_entry_at_time_zero :
  revFlow <$> flows (state_after default_config established_at_zero) !! keyAB
  = Some true
  ∧ revFlow <$> flows (state_after default_config established_at_zero)
                  !! keyBA
    = Some true
  ∧ tsTbl (state_after default_config established_at_zero)
      !! ts_key keyAB 100 = None
  ∧ process_packet default_config
      (state_after default_config established_at_zero) fwd_at_zero
    = Returns (next_state default_config
                 (state_after default_config established_at_zero) fwd_at_zero)
              []
  ∧ t <$> tsTbl (next_state default_config
                   (state_after default_config established_at_zero)
                   fwd_at_zero) !! ts_key keyAB 100
    = Some 0.000000%Q
  ∧ process_packet default_config
      (next_state default_config
         (state_after default_config established_at_zero) fwd_at_zero)
      rev_after_zero
    = Returns (next_state default_config
                 (next_state default_config
                    (state_after default_config established_at_zero)
                    fwd_at_zero) rev_after_zero) []
  ∧ (capTm (next_state default_config
              (next_state default_config
                 (state_after default_config established_at_zero)
                 fwd_at_zero) rev_after_zero)
     - capTm (next_state default_config
                (state_after default_config established_at_zero) fwd_at_zero)
     == 0.05)%Q.
Proof.
  split; [vm_compute; reflexivity|].
  split; [vm_compute; reflexivity|].
  split; [vm_compute; reflexivity|].
  split; [vm_compute; reflexivity|].
  split; [vm_compute; reflexivity|].
  split; vm_compute; reflexivity.
Qed.

(** ** The minimum RTT of a flow record *)

Lemma min_of_le_l (m r : Q) : (min_of m r <= m)%Q.
Proof.
  unfold min_of. destruct (Qltb r m) eqn:E.
  - apply Qltb_lt in E. lra.
  - lra.
Qed.

Lemma min_of_le_r (m r : Q) : (min_of m r <= r)%Q.
Proof.
  unfold min_of. destruct (Qltb r m) eqn:E.
  - lra.
  - apply Qltb_ge in E. exact E.
Qed.

Lemma fold_min_le_init (l : list Q) (m : Q) : (fold_left min_of l m <= m)%Q.
Proof.
  revert m. induction l as [|r l IH]; intros m; simpl.
  - lra.
  - specialize (IH (min_of m r)). pose proof (min_of_le_l m r). lra.
Qed.

Lemma fold_min_le_elem (l : list Q) (m r : Q) :
  r ∈ l -> (fold_left min_of l m <= r)%Q.
Proof.
  revert m. induction l as [|r0 l IH]; intros m Hr.
  - inversion Hr.
  - simpl. apply elem_of_cons in Hr as [->|Hr].
    + pose proof (fold_min_le_init l (min_of m r0)).
      pose proof (min_of_le_r m r0). lra.
    + apply IH. exact Hr.
Qed.

Lemma fold_min_choice (l : list Q) (m : Q) :
  fold_left min_of l m = m ∨ fold_left min_of l m ∈ l.
Proof.
  revert m. induction l as [|r l IH]; intros m; simpl.
  - left. reflexivity.
  - destruct (IH (min_of m r)) as [H|H].
    + rewrite H. unfold min_of. destruct (Qltb r m).
      * right. apply elem_of_cons. left. reflexivity.
      * left. reflexivity.
    + right. apply elem_of_cons. right. exact H.
Qed.

(** With every value below the start value, the fold is the least element. *)
Lemma fold_min_is_minimum (l : list Q) (m : Q) :
  l ≠ [] -> (∀ r, r ∈ l -> (r < m)%Q) ->
  fold_left min_of l m ∈ l ∧ ∀ r, r ∈ l -> (fold_left min_of l m <= r)%Q.
Proof.
  intros Hne Hlt. split.
  - destruct l as [|r0 l]; [congruence|].
    destruct (fold_min_choice (r0 :: l) m) as [H|H]; [|exact H].
    exfalso. pose proof (fold_min_le_elem (r0 :: l) m r0) as Hle.
    specialize (Hle ltac:(apply elem_of_cons; left; reflexivity)).
    specialize (Hlt r0 ltac:(apply elem_of_cons; left; reflexivity)).
    rewrite H in Hle. lra.
  - intros r Hr. apply fold_min_le_elem. exact Hr.
Qed.

Lemma find_flow_min (cfg : Config) (s s2 : State) (fk rk : string)
    (fr0 : flowRec) :
  find_flow cfg s fk rk = Some (s2, fr0) ->
  flows s2 !! fk = Some fr0 ∧
  min fr0 = min_before s fk ∧
  (∀ k, k ≠ fk -> min <$> flows s2 !! k = min <$> flows s !! k).
Proof.
  unfold find_flow, min_before. intros H.
  destruct (flows s !! fk) as [fr|] eqn:Hf.
  - inversion H; subst. auto.
  - destruct (maxFlows cfg <? flowCnt s)%Z; [discriminate|].
    destruct (<[fk:=new_flowRec fk]> (flows s) !! rk) eqn:Hr;
      inversion H; subst; simpl.
    + split; [apply lookup_insert_eq|]. split; [reflexivity|].
      intros k Hk. rewrite (lookup_insert_ne _ _ _ _ (not_eq_sym Hk)).
      rewrite lookup_alter. destruct (decide (rk = k)) as [->|Hne].
      * rewrite Hr. rewrite (lookup_insert_ne _ _ _ _ (not_eq_sym Hk)) in Hr.
        rewrite Hr. reflexivity.
      * rewrite (lookup_insert_ne _ _ _ _ (not_eq_sym Hk)). reflexivity.
    + split; [apply lookup_insert_eq|]. split; [reflexivity|].
      intros k Hk. rewrite (lookup_insert_ne _ _ _ _ (not_eq_sym Hk)).
      reflexivity.
Qed.

Lemma alter_bytesDep_min (v : Q) (rk k : string) (m : gmap string flowRec) :
  min <$> alter (set_bytesDep v) rk m !! k = min <$> m !! k.
Proof.
  rewrite lookup_alter. destruct (decide (rk = k)) as [->|Hne]; [|reflexivity].
  destruct (m !! k); reflexivity.
Qed.

(** The common end of every path through [track]: the record of the
    packet's flow is stored with the minimum updated by the samples of this
    packet, and no other record changes its minimum. *)
Lemma store_min (s s2 : State) (fk f : string) (frX : flowRec)
    (m' : gmap string flowRec) (out : list Sample) :
  (∀ k, k ≠ fk -> min <$> flows s2 !! k = min <$> flows s !! k) ->
  min frX = fold_left min_of (rtts_for fk out) (min_before s fk) ->
  (f ≠ fk -> rtts_for f out = []) ->
  (∀ k, min <$> m' !! k = min <$> <[fk := frX]> (flows s2) !! k) ->
  (flows s !! f = None ∧ m' !! f = None ∧ rtts_for f out = [])
  ∨ (∃ fr', m' !! f = Some fr'
            ∧ min fr' = fold_left min_of (rtts_for f out) (min_before s f)).
Proof.
  intros H3 Hmin Hother Hm'.
  specialize (Hm' f). destruct (decide (f = fk)) as [->|Hne].
  - rewrite lookup_insert_eq in Hm'. right.
    destruct (m' !! fk) as [fr'|]; [|discriminate].
    exists fr'. split; [reflexivity|]. simpl in Hm'. congruence.
  - rewrite (lookup_insert_ne _ _ _ _ (not_eq_sym Hne)) in Hm'.
    rewrite (H3 f Hne) in Hm'. rewrite (Hother Hne). simpl.
    unfold min_before.
    destruct (m' !! f) as [fr'|], (flows s !! f) as [fr|];
      simpl in Hm'; try discriminate.
    + right. exists fr'. split; [reflexivity|]. congruence.
    + left. auto.
Qed.

Lemma rtts_for_nil (f : string) : rtts_for f [] = [].
Proof. reflexivity. Qed.

Lemma rtts_for_single (f : string) (x : Sample) :
  rtts_for f [x] = if decide (s_flow x = f) then [s_rtt x] else [].
Proof.
  unfold rtts_for. rewrite filter_cons. destruct (decide (s_flow x = f));
    reflexivity.
Qed.

Lemma track_flows_min (cfg : Config) (s : State) (pkt : Packet) (tc : TCP)
    (v e : N) (a b : string) (s' : State) (out : list Sample) (f : string) :
  track cfg s pkt tc v e a b = Returns s' out ->
  (flows s !! f = None ∧ flows s' !! f = None ∧ rtts_for f out = [])
  ∨ (∃ fr', flows s' !! f = Some fr'
            ∧ min fr' = fold_left min_of (rtts_for f out) (min_before s f)).
Proof.
  unfold track. intros H.
  set (fk := flow_key (endpoint a (sport tc)) (endpoint b (dport tc))) in *.
  set (rk := flow_key (endpoint b (dport tc)) (endpoint a (sport tc))) in *.
  destruct (find_flow cfg s fk rk) as [[s2 fr0]|] eqn:Hf.
  2:{ inversion H; subst. rewrite rtts_for_nil. unfold min_before.
      destruct (flows s' !! f) as [fr|]; [right; eauto|left; auto]. }
  apply find_flow_min in Hf as (H1 & H2 & H3).
  destruct (negb (revFlow (set_last_tm (capTm s2) fr0))).
  { inversion H; subst. simpl.
    apply (store_min s s2 fk f (set_last_tm (capTm s2) fr0)); auto. }
  destruct (record_fwd cfg b _ _ (tsTbl s2)) as [tbl1|]; [|discriminate].
  unfold getTStm in H.
  destruct (tbl1 !! ts_key rk e) as [ti|].
  - destruct (Qltb 0 (t ti)).
    + set (fr2 := set_bytesSnt
                    (bytesSnt (set_last_tm (capTm s2) fr0)
                     + inject_Z (Z.of_N (pdu_size pkt)))
                    (set_last_tm (capTm s2) fr0)) in *.
      set (rtt := (capTm s2 - t ti)%Q) in *.
      set (fr3 := if Qltb rtt (min fr2) then set_min rtt fr2 else fr2) in *.
      set (fr4 := set_lstBytesSnt (bytesSnt (set_last_tm (capTm s2) fr0)
                                   + inject_Z (Z.of_N (pdu_size pkt))) fr3)
        in *.
      destruct (<[fk := fr4]> (flows s2) !! rk); [|discriminate].
      inversion H; subst s' out. cbn [flows set_tables].
      apply (store_min s s2 fk f fr4); [exact H3| | |].
      * rewrite rtts_for_single. cbn [s_flow s_rtt].
        rewrite decide_True by reflexivity.
        cbn [fold_left]. rewrite <- H2. unfold min_of, fr4, fr3.
        change (min fr2) with (min fr0).
        destruct (Qltb rtt (min fr0)); reflexivity.
      * intros Hne. rewrite rtts_for_single. cbn [s_flow].
        rewrite decide_False by congruence. reflexivity.
      * intros k. apply alter_bytesDep_min.
    + inversion H; subst s' out. cbn [flows set_tables].
      eapply (store_min s s2 fk f); [exact H3| | |reflexivity]; auto.
  - inversion H; subst s' out. cbn [flows set_tables].
    eapply (store_min s s2 fk f); [exact H3| | |reflexivity]; auto.
Qed.

Lemma packet_flows_min (cfg : Config) (s : State) (pkt : Packet)
    (s' : State) (out : list Sample) (f : string) :
  process_packet cfg s pkt = Returns s' out ->
  (flows s !! f = None ∧ flows s' !! f = None ∧ rtts_for f out = [])
  ∨ (∃ fr', flows s' !! f = Some fr'
            ∧ min fr' = fold_left min_of (rtts_for f out) (min_before s f)).
Proof.
  intros H.
  destruct (usable pkt) as [[[[[tc v0] e] a] b]|] eqn:Hu.
  - rewrite (process_packet_usable cfg s pkt _ _ _ _ _ Hu) in H.
    apply (track_flows_min _ _ _ _ _ _ _ _ _ _ f) in H.
    destruct (normalize_time_frame (inc_pktCnt s) pkt) as (Hfl & _ & _).
    simpl in Hfl. unfold min_before in *. rewrite Hfl in H. exact H.
  - destruct (process_packet_unusable cfg s pkt Hu)
      as (s1 & H1 & Hfl & _).
    rewrite H1 in H. inversion H; subst. rewrite rtts_for_nil.
    unfold min_before. rewrite Hfl.
    destruct (flows s !! f) as [fr|]; [right; eauto|left; auto].
Qed.

Lemma normalize_time_bound (s : State) (pkt : Packet) :
  wf_packet pkt -> (-1 <= offTm s)%Z ->
  (capTm (normalize_time s pkt) < capTm_bound)%Q
  ∧ (-1 <= offTm (normalize_time s pkt))%Z.
Proof.
  intros [Hsec Husec] Hoff. unfold normalize_time, capTm_bound.
  destruct (offTm s <? 0)%Z eqn:E; simpl.
  - split; [|lia]. unfold Qlt, Qmult, inject_Z. simpl.
    change (2 ^ 64)%Z with 18446744073709551616%Z. lia.
  - apply Z.ltb_ge in E. split; [|lia].
    unfold Qlt, Qplus, Qmult, inject_Z. simpl.
    change (2 ^ 64)%Z with 18446744073709551616%Z.
    change (2 ^ 63)%Z with 9223372036854775808%Z in Hsec. lia.
Qed.

Lemma packet_rtt_bound (cfg : Config) (s : State) (pkt : Packet)
    (s' : State) (out : list Sample) :
  process_packet cfg s pkt = Returns s' out ->
  wf_packet pkt -> (-1 <= offTm s)%Z ->
  (∀ x, x ∈ out -> (s_rtt x < capTm_bound)%Q) ∧ (-1 <= offTm s')%Z.
Proof.
  intros H Hwf Hoff.
  destruct (usable pkt) as [[[[[tc v0] e] a] b]|] eqn:Hu.
  - rewrite (process_packet_usable cfg s pkt _ _ _ _ _ Hu) in H.
    apply track_tsTbl in H as (Hc & Ho & H).
    destruct (normalize_time_pktCnt_clock s pkt) as (Hc' & Ho' & _).
    destruct (normalize_time_bound s pkt Hwf Hoff) as (Hb & Hob).
    rewrite Hc' in Hc. rewrite Ho' in Ho. rewrite Ho. split; [|exact Hob].
    destruct H as [[-> _]|(tbl1 & _ & H)]; [intros x Hx; inversion Hx|].
    destruct (tbl1 !! _) as [ti|].
    2:{ destruct H as [-> _]. intros x Hx; inversion Hx. }
    destruct (Qltb 0 (t ti)) eqn:Hpos.
    2:{ destruct H as [-> _]. intros x Hx; inversion Hx. }
    destruct H as (x & -> & _ & _ & _ & Hrtt & _).
    intros y Hy. apply list_elem_of_singleton in Hy. subst y.
    rewrite Hrtt, Hc'. apply Qltb_lt in Hpos. lra.
  - destruct (process_packet_unusable cfg s pkt Hu)
      as (s1 & H1 & _ & _ & _ & Ho & _).
    rewrite H1 in H. inversion H; subst. split; [|lia].
    intros x Hx; inversion Hx.
Qed.

Lemma reap_flows (cfg : Config) (now : Z) (s : State) (f : string)
    (fr : flowRec) :
  flows (cleanUpLoop_body cfg now s) !! f = Some fr -> flows s !! f = Some fr.
Proof.
  unfold cleanUpLoop_body. destruct (0 <? offTm s)%Z; [|auto].
  rewrite cleanUp_flows. destruct (flows s !! f) as [fr0|]; [|discriminate].
  destruct (flow_idle cfg _ fr0); [discriminate|auto].
Qed.

Lemma reap_offTm (cfg : Config) (now : Z) (s : State) :
  offTm (cleanUpLoop_body cfg now s) = offTm s.
Proof. unfold cleanUpLoop_body. destruct (0 <? offTm s)%Z; reflexivity. Qed.

(** One step keeps [min_inv], with the list of RTT values extended as
    [life_rtts] does. *)
Lemma step_min_inv (cfg : Config) (f : string) (s : State) (acc : list Q)
    (e : event) (s' : State) (out : list Sample) :
  wf_event e -> min_inv f s acc ->
  step cfg s e = Returns s' out ->
  min_inv f s' ((match flows s !! f with Some _ => acc | None => [] end)
                ++ rtts_for f out).
Proof.
  intros Hwf [Hoff Hinv] Hstep. destruct e as [pkt|now]; simpl in Hstep.
  - destruct (packet_rtt_bound cfg s pkt s' out Hstep Hwf Hoff) as [Hb Hoff'].
    split; [exact Hoff'|]. intros fr' Hfr'.
    assert (Hbr : ∀ r, r ∈ rtts_for f out -> (r < capTm_bound)%Q).
    { intros r Hr. unfold rtts_for in Hr. apply list_elem_of_fmap in Hr.
      destruct Hr as (x & -> & Hx). apply list_elem_of_filter in Hx.
      apply Hb. tauto. }
    destruct (packet_flows_min cfg s pkt s' out f Hstep)
      as [(_ & Hn & _)|(fr1 & Hfr1 & Hmin)]; [congruence|].
    assert (fr1 = fr') by congruence. subst fr1.
    unfold min_before in Hmin.
    destruct (flows s !! f) as [fr|] eqn:Hf.
    + destruct (Hinv fr eq_refl) as [Hm Hacc]. split.
      * rewrite fold_left_app, <- Hm. exact Hmin.
      * intros r Hr. apply elem_of_app in Hr as [Hr|Hr]; auto.
    + split; [exact Hmin|]. intros r Hr. simpl in Hr. auto.
  - inversion Hstep; subst. rewrite rtts_for_nil, app_nil_r.
    split; [rewrite reap_offTm; exact Hoff|].
    intros fr' Hfr'. apply reap_flows in Hfr'. rewrite Hfr'.
    apply Hinv. exact Hfr'.
Qed.

Lemma run_min_inv (cfg : Config) (f : string) (evs : list event) (s : State)
    (acc : list Q) (s' : State) :
  Forall wf_event evs -> min_inv f s acc ->
  final s (exec cfg s evs) = Some s' ->
  min_inv f s' (life_rtts f acc (exec cfg s evs)).
Proof.
  revert s acc. induction evs as [|e evs IH]; intros s acc Hwf Hinv Hfin.
  - simpl in *. inversion Hfin; subst. exact Hinv.
  - inversion Hwf as [|? ? Hwe Hwf']; subst. simpl in Hfin |- *.
    destruct (step cfg s e) as [s1 out|ex] eqn:Hstep; [|discriminate].
    simpl. apply IH; [exact Hwf'| |exact Hfin].
    apply (step_min_inv cfg f s acc e s1 out Hwe Hinv Hstep).
Qed.

Lemma step_min_monotone (cfg : Config) (s : State) (e : event) (s' : State)
    (out : list Sample) (f : string) (fr fr' : flowRec) :
  flows s !! f = Some fr -> step cfg s e = Returns s' out ->
  flows s' !! f = Some fr' -> (min fr' <= min fr)%Q.
Proof.
  intros Hf Hstep Hf'. destruct e as [pkt|now]; simpl in Hstep.
  - destruct (packet_flows_min cfg s pkt s' out f Hstep)
      as [(Hn & _)|(fr1 & Hfr1 & Hmin)]; [congruence|].
    assert (fr1 = fr') by congruence. subst fr1.
    unfold min_before in Hmin. rewrite Hf in Hmin. rewrite Hmin.
    apply fold_min_le_init.
  - inversion Hstep; subst. apply reap_flows in Hf'.
    assert (fr' = fr) by congruence. subst. lra.
Qed.

(** C5. In every state a run from the start reaches (capture timestamps
    being non-negative 63-bit seconds and microseconds below a million),
    the [min] of a flow record is the least of the RTT values emitted for
    that record since it was created; while none was emitted it is the
    initial 1e30, the code's stand-in for infinity, which is above every
    RTT a run can emit.  Along every further step in which the record
    stays, [min] does not increase. *)
Theorem min_rtt_is_running_minimum (cfg : Config) (evs : list event)
    (f : string) (s' : State) (fr : flowRec) :
  Forall wf_event evs ->
  final init_state (exec cfg init_state evs) = Some s' ->
  flows s' !! f = Some fr ->
  (life_rtts f [] (exec cfg init_state evs) = [] -> min fr = 1e30%Q)
  ∧ (life_rtts f [] (exec cfg init_state evs) ≠ [] ->
     min fr ∈ life_rtts f [] (exec cfg init_state evs)
     ∧ ∀ r, r ∈ life_rtts f [] (exec cfg init_state evs) ->
            (min fr <= r)%Q)
  ∧ (∀ r, r ∈ life_rtts f [] (exec cfg init_state evs) -> (r < 1e30)%Q)
  ∧ (∀ e s'' out fr'',
       step cfg s' e = Returns s'' out -> flows s'' !! f = Some fr'' ->
       (min fr'' <= min fr)%Q).
Proof.
  intros Hwf Hfin Hf.
  assert (Hinit : min_inv f init_state []).
  { split; [simpl; lia|]. intros fr0 H0. simpl in H0.
    rewrite lookup_empty in H0. discriminate. }
  destruct (run_min_inv cfg f evs init_state [] s' Hwf Hinit Hfin)
    as [_ Hinv].
  destruct (Hinv fr Hf) as [Hmin Hb].
  assert (Hb30 : ∀ r, r ∈ life_rtts f [] (exec cfg init_state evs) ->
                      (r < 1e30)%Q).
  { intros r Hr. specialize (Hb r Hr).
    assert (capTm_bound < 1e30)%Q by (vm_compute; reflexivity). lra. }
  split; [|split; [|split]].
  - intros Hnil. rewrite Hmin, Hnil. reflexivity.
  - intros Hne. rewrite Hmin. apply fold_min_is_minimum; assumption.
  - exact Hb30.
  - intros e s'' out fr'' Hstep Hf''.
    exact (step_min_monotone cfg s' e s'' out f fr fr'' Hf Hstep Hf'').
Qed.

(** After [two_samples_run] the record of the flow from A to B has seen
    the RTT values 0.199 and 0.01. *)
Lemma min_rtt_is_running_minimum_witness :
  life_rtts keyAB [] (exec default_config init_state two_samples_run)
  = [0.199000000000%Q; 0.010000000000%Q]
  ∧ min_before (state_after default_config two_samples_run) keyAB
    ∈ life_rtts keyAB [] (exec default_config init_state two_samples_run)
  ∧ ∀ r, r ∈ life_rtts keyAB []
               (exec default_config init_state two_samples_run) ->
         (min_before (state_after default_config two_samples_run) keyAB
          <= r)%Q.
Proof.
  assert (Hwf : Forall wf_event two_samples_run).
  { repeat constructor; vm_compute; intuition discriminate. }
  assert (Hfin : final init_state
                   (exec default_config init_state two_samples_run)
                 = Some (state_after default_config two_samples_run))
    by (vm_compute; reflexivity).
  assert (Hf : flows (state_after default_config two_samples_run) !! keyAB
               = Some (mkFlowRec keyAB 0.260000 0.010000000000 120 120 60
                                 true))
    by (vm_compute; reflexivity).
  assert (Hl : life_rtts keyAB []
                 (exec default_config init_state two_samples_run)
               = [0.199000000000%Q; 0.010000000000%Q])
    by (vm_compute; reflexivity).
  split; [exact Hl|].
  assert (Hmb : min_before (state_after default_config two_samples_run) keyAB
                = min (mkFlowRec keyAB 0.260000 0.010000000000 120 120 60
                                 true))
    by (unfold min_before; rewrite Hf; reflexivity).
  rewrite Hmb.
  apply (proj1 (proj2 (min_rtt_is_running_minimum default_config
                         two_samples_run keyAB _ _ Hwf Hfin Hf))).
  rewrite Hl. discriminate.
Defined.


(** * Further properties of the engine *)

(** ** The sweep of the flow table *)

Lemma flow_idle_spec (cfg : Config) (n : Q) (fr : flowRec) :
  flow_idle cfg n fr = false <-> (n - last_tm fr <= flowMaxIdle cfg)%Q.
Proof. unfold flow_idle. apply Qltb_ge. Qed.

Lemma cleanUp_flowCnt_size (cfg : Config) (n : Q) (s : State) :
  (flowCnt s - flowCnt (cleanUp cfg n s)
   = Z.of_nat (size (flows s)) - Z.of_nat (size (flows (cleanUp cfg n s))))%Z.
Proof.
  unfold cleanUp. simpl.
  destruct (erase_count_loop_size (flow_idle cfg n) (flows s) (flowCnt s)
              (flows s)) as [H1 _]; [reflexivity|]. lia.
Qed.

(** X1. After [cleanUp n] the flow table holds exactly the records it held
    before whose idle time [n - last_tm] is at most [flowMaxIdle], each
    unchanged, and [flowCnt] has gone down by the number of records
    removed. *)
Theorem cleanUp_keeps_exactly_active_flows (cfg : Config) (n : Q) (s : State) :
  (∀ k fr, flows (cleanUp cfg n s) !! k = Some fr
           <-> flows s !! k = Some fr
               ∧ (n - last_tm fr <= flowMaxIdle cfg)%Q)
  ∧ (flowCnt s - flowCnt (cleanUp cfg n s)
     = Z.of_nat (size (flows s))
       - Z.of_nat (size (flows (cleanUp cfg n s))))%Z.
Proof.
  split; [|apply cleanUp_flowCnt_size].
  intros k fr. rewrite cleanUp_flows, <- flow_idle_spec.
  destruct (flows s !! k) as [fr'|] eqn:E.
  - destruct (flow_idle cfg n fr') eqn:X; split.
    + discriminate.
    + intros [H1 H2]. inversion H1; subst. congruence.
    + intros H1. inversion H1; subst. auto.
    + intros [H1 _]. exact H1.
  - split; [discriminate | intros [H _]; discriminate].
Qed.

(** ** The flow counter *)

Lemma run_flowCnt_inv (cfg : Config) (evs : list event) (s s' : State) :
  flowCnt_inv cfg s -> final s (exec cfg s evs) = Some s' ->
  flowCnt_inv cfg s'.
Proof.
  revert s. induction evs as [|e evs IH]; intros s Hinv Hfin.
  - simpl in Hfin. inversion Hfin; subst. exact Hinv.
  - simpl in Hfin. destruct (step cfg s e) as [s1 out|ex] eqn:Hs;
      [|discriminate].
    apply (IH s1); [|exact Hfin].
    exact (step_flowCnt_inv cfg s e s1 out Hs Hinv).
Qed.

(** X2. In every state a run from the start reaches, [flowCnt] is the
    number of records in the flow table, and it is at most
    [maxFlows + 1] (at most 0 for a negative limit). *)
Theorem flowCnt_counts_flow_records (cfg : Config) (evs : list event)
    (s' : State) :
  final init_state (exec cfg init_state evs) = Some s' ->
  flowCnt s' = Z.of_nat (size (flows s'))
  ∧ (flowCnt s' <= Z.max 0 (maxFlows cfg + 1))%Z.
Proof.
  intros Hfin. apply (run_flowCnt_inv cfg evs init_state s'); [|exact Hfin].
  unfold flowCnt_inv. simpl. rewrite map_size_empty. lia.
Qed.

(** After [tsval_reuse_run]: two flow records, counted as two. *)
Lemma flowCnt_counts_flow_records_witness :
  flowCnt (state_after default_config tsval_reuse_run)
  = Z.of_nat (size (flows (state_after default_config tsval_reuse_run)))
  ∧ (flowCnt (state_after default_config tsval_reuse_run)
     <= Z.max 0 (maxFlows default_config + 1))%Z.
Proof.
  assert (Hfin : final init_state
                   (exec default_config init_state tsval_reuse_run)
                 = Some (state_after default_config tsval_reuse_run))
    by (vm_compute; reflexivity).
  exact (flowCnt_counts_flow_records default_config tsval_reuse_run _ Hfin).
Defined.

(** X3. A usable packet of a flow that has no record, arriving while
    [flowCnt] is above [maxFlows], is dropped without a trace in the
    tables: the flow table, the TSval table, [flowCnt] and the rejection
    counters stay as they were and nothing is emitted. *)
Theorem full_table_drops_new_flow (cfg : Config) (s : State) (pkt : Packet)
    (tc : TCP) (v e : N) (a b : string) :
  usable pkt = Some (tc, v, e, a, b) ->
  flows s !! fstr_of tc a b = None -> (maxFlows cfg < flowCnt s)%Z ->
  ∃ s', process_packet cfg s pkt = Returns s' [] ∧
        flows s' = flows s ∧ tsTbl s' = tsTbl s ∧ flowCnt s' = flowCnt s ∧
        rejection_counters s' = rejection_counters s.
Proof.
  intros Hu Hf Hc.
  rewrite (process_packet_usable cfg s pkt _ _ _ _ _ Hu).
  destruct (normalize_time_frame (inc_pktCnt s) pkt) as (Hfl & Htb & Hfc).
  simpl in Hfl, Htb, Hfc.
  unfold track.
  change (flow_key (endpoint a (sport tc)) (endpoint b (dport tc)))
    with (fstr_of tc a b).
  unfold find_flow. rewrite Hfl, Hf, Hfc.
  destruct (maxFlows cfg <? flowCnt s)%Z eqn:E; [|apply Z.ltb_ge in E; lia].
  eexists. split; [reflexivity|]. repeat split; try assumption.
  unfold normalize_time. simpl. destruct (offTm s <? 0)%Z; reflexivity.
Qed.

(** With a limit of one flow, the third new flow is dropped. *)
Lemma full_table_drops_new_flow_witness :
  ∃ s', process_packet tiny_config (state_after tiny_config (many_flows 2))
                       (syn_to_port 3)
        = Returns s' [] ∧
        flows s' = flows (state_after tiny_config (many_flows 2)) ∧
        tsTbl s' = tsTbl (state_after tiny_config (many_flows 2)) ∧
        flowCnt s' = flowCnt (state_after tiny_config (many_flows 2)) ∧
        rejection_counters s'
        = rejection_counters (state_after tiny_config (many_flows 2)).
Proof.
  assert (Hu : usable (syn_to_port 3)
               = Some (mkTCP 1000 3 TCP_SYN (Some (1%N, 0%N)),
                       1%N, 0%N, hostA, hostB)) by reflexivity.
  assert (Hf : flows (state_after tiny_config (many_flows 2))
                 !! fstr_of (mkTCP 1000 3 TCP_SYN (Some (1%N, 0%N)))
                            hostA hostB = None)
    by (vm_compute; reflexivity).
  assert (Hc : (maxFlows tiny_config
                < flowCnt (state_after tiny_config (many_flows 2)))%Z)
    by (vm_compute; reflexivity).
  exact (full_table_drops_new_flow tiny_config _ _ _ _ _ _ _ Hu Hf Hc).
Defined.

(** ** Packets keep the entries of the TSval table *)

(** X4. A packet never removes an entry of the TSval table and never
    changes its byte counts; the only change it makes to an existing entry
    is to negate a positive time, and then it emits exactly one sample,
    whose RTT is the capture time minus that time. *)
Theorem packet_keeps_entries (cfg : Config) (s : State) (pkt : Packet)
    (s' : State) (out : list Sample) (k : string) (ti : tsInfo) :
  process_packet cfg s pkt = Returns s' out ->
  tsTbl s !! k = Some ti ->
  tsTbl s' !! k = Some ti
  ∨ ((0 < t ti)%Q ∧ tsTbl s' !! k = Some (set_t (- t ti) ti)
     ∧ ∃ x, out = [x] ∧ s_rtt x = (capTm s' - t ti)%Q).
Proof.
  intros H Hk.
  destruct (usable pkt) as [[[[[tc v0] e] a] b]|] eqn:Hu.
  2:{ destruct (process_packet_unusable cfg s pkt Hu) as (s1 & H1 & _ & Ht & _).
      rewrite H1 in H. inversion H; subst. left. rewrite Ht. exact Hk. }
  rewrite (process_packet_usable cfg s pkt _ _ _ _ _ Hu) in H.
  apply track_tsTbl in H as (Hc & _ & H).
  destruct (normalize_time_frame (inc_pktCnt s) pkt) as (_ & Hn & _).
  simpl in Hn. rewrite Hn in H. clear Hn.
  destruct H as [[_ ->]|(tbl1 & Htbl1 & H)]; [left; exact Hk|].
  assert (Hk1 : tbl1 !! k = Some ti).
  { destruct Htbl1 as [->|(fb & db & ->)]; [exact Hk|].
    apply addTS_lookup_present. exact Hk. }
  destruct (tbl1 !! ts_key (rstr_of tc a b) e) as [tj|] eqn:Hl.
  2:{ destruct H as [_ ->]. left. exact Hk1. }
  destruct (Qltb 0 (t tj)) eqn:Hpos.
  2:{ destruct H as [_ ->]. left. exact Hk1. }
  destruct H as (x & -> & _ & _ & _ & Hrtt & ->).
  destruct (decide (ts_key (rstr_of tc a b) e = k)) as [Heq|Hne].
  - right. subst k. assert (tj = ti) by congruence. subst tj.
    apply Qltb_lt in Hpos. split; [exact Hpos|].
    split; [apply lookup_insert_eq|].
    exists x. split; [reflexivity|]. rewrite Hrtt, Hc. reflexivity.
  - left. rewrite (lookup_insert_ne _ _ _ _ Hne). exact Hk1.
Qed.

(** [dup_second] after [dup_first]: the entry of TSval 5 of B, consumed
    before, is still there. *)
Lemma packet_keeps_entries_witness :
  tsTbl (state_after default_config
           (established_run ++ [Pkt dup_first; Pkt dup_second]))
    !! ts_key keyBA 5
  = Some (mkTsInfo (-0.001000) 60 0).
Proof.
  assert (Hp : process_packet default_config
                 (state_after default_config
                    (established_run ++ [Pkt dup_first])) dup_second
               = Returns (state_after default_config
                            (established_run
                             ++ [Pkt dup_first; Pkt dup_second])) [])
    by (vm_compute; reflexivity).
  assert (Hk : tsTbl (state_after default_config
                        (established_run ++ [Pkt dup_first]))
                 !! ts_key keyBA 5
               = Some (mkTsInfo (-0.001000) 60 0))
    by (vm_compute; reflexivity).
  destruct (packet_keeps_entries default_config _ _ _ _ _ _ Hp Hk)
    as [H|(Hpos & _)].
  - exact H.
  - exfalso. revert Hpos. vm_compute. discriminate.
Defined.


(** ** Flows seen in one direction only *)





(** ** The destination address and the local ranges *)

Lemma track_after_find (cfg : Config) (s s2 : State) (pkt : Packet)
    (tc : TCP) (v e : N) (a b : string) (fr0 : flowRec) :
  find_flow cfg s (fstr_of tc a b) (rstr_of tc a b) = Some (s2, fr0) ->
  track cfg s pkt tc v e a b = track cfg s2 pkt tc v e a b.
Proof.
  intros Hf. unfold track.
  change (flow_key (endpoint a (sport tc)) (endpoint b (dport tc)))
    with (fstr_of tc a b).
  change (flow_key (endpoint b (dport tc)) (endpoint a (sport tc)))
    with (rstr_of tc a b).
  rewrite Hf.
  rewrite (find_flow_present cfg s2 _ _ fr0 (find_flow_stored _ _ _ _ _ _ Hf)).
  reflexivity.
Qed.

Lemma find_flow_new_reverse (cfg : Config) (s : State) (fk rk : string) :
  flows s !! fk = None -> (flowCnt s <= maxFlows cfg)%Z ->
  rk = fk ∨ is_Some (flows s !! rk) ->
  ∃ s2, find_flow cfg s fk rk = Some (s2, set_revFlow true (new_flowRec fk))
        ∧ (∃ rr, flows s2 !! rk = Some rr ∧ revFlow rr = true)
        ∧ tsTbl s2 = tsTbl s ∧ capTm s2 = capTm s
        ∧ flowCnt s2 = (flowCnt s + 1)%Z.
Proof.
  intros Hf Hc Hr. unfold find_flow. rewrite Hf.
  destruct (maxFlows cfg <? flowCnt s)%Z eqn:E; [apply Z.ltb_lt in E; lia|].
  assert (Hsome : is_Some (<[fk:=new_flowRec fk]> (flows s) !! rk)).
  { destruct Hr as [->|Hr]; [rewrite lookup_insert_eq; eauto|].
    destruct (decide (fk = rk)) as [->|Hne]; [rewrite lookup_insert_eq; eauto|].
    rewrite (lookup_insert_ne _ _ _ _ Hne). exact Hr. }
  destruct Hsome as [x Hx]. rewrite Hx.
  eexists. split; [reflexivity|]. simpl. split; [|auto].
  destruct (decide (fk = rk)) as [->|Hne].
  - rewrite lookup_insert_eq. eauto.
  - rewrite (lookup_insert_ne _ _ _ _ Hne), lookup_alter.
    rewrite decide_True by reflexivity. rewrite Hx. simpl. eauto.
Qed.

Lemma track_throws_invalid_address (cfg : Config) (s : State) (pkt : Packet)
    (tc : TCP) (v e : N) (a b : string) (fr : flowRec) :
  flows s !! fstr_of tc a b = Some fr -> revFlow fr = true ->
  filtLocal cfg = true -> IPv4Address_of cfg b = None ->
  track cfg s pkt tc v e a b = Throws invalid_address.
Proof.
  intros Hf Hrev Hfilt Hnone. unfold track.
  change (flow_key (endpoint a (sport tc)) (endpoint b (dport tc)))
    with (fstr_of tc a b).
  rewrite (find_flow_present cfg s _ _ fr Hf).
  cbn [revFlow set_last_tm]. rewrite Hrev. cbn [negb].
  unfold record_fwd. rewrite Hfilt, Hnone. reflexivity.
Qed.

(** X6. With local filtering on, a usable packet whose destination address
    string does not convert to an IPv4 address makes [process_packet] throw
    [invalid_address] as soon as its flow counts as bi-directional: either
    its record is marked so, or the record is created now while the
    reversed flow has one. *)
Theorem unconvertible_destination_throws (cfg : Config) (s : State)
    (pkt : Packet) (tc : TCP) (v e : N) (a b : string) :
  usable pkt = Some (tc, v, e, a, b) ->
  filtLocal cfg = true -> IPv4Address_of cfg b = None ->
  (∃ fr, flows s !! fstr_of tc a b = Some fr ∧ revFlow fr = true)
  ∨ (flows s !! fstr_of tc a b = None ∧ (flowCnt s <= maxFlows cfg)%Z
     ∧ is_Some (flows s !! rstr_of tc a b)) ->
  process_packet cfg s pkt = Throws invalid_address.
Proof.
  intros Hu Hfilt Hnone Hcase.
  rewrite (process_packet_usable cfg s pkt _ _ _ _ _ Hu).
  destruct (normalize_time_frame (inc_pktCnt s) pkt) as (Hfl & _ & Hfc).
  simpl in Hfl, Hfc.
  destruct Hcase as [(fr & Hf & Hrev)|(Hf & Hc & Hr)].
  - apply (track_throws_invalid_address _ _ _ _ _ _ _ _ fr); auto.
    rewrite Hfl. exact Hf.
  - destruct (find_flow_new_reverse cfg (normalize_time (inc_pktCnt s) pkt)
                (fstr_of tc a b) (rstr_of tc a b))
      as (s2 & Hfind & _).
    + rewrite Hfl. exact Hf.
    + rewrite Hfc. exact Hc.
    + right. rewrite Hfl. exact Hr.
    + rewrite (track_after_find _ _ _ _ _ _ _ _ _ _ Hfind).
      apply (track_throws_invalid_address _ _ _ _ _ _ _ _
               (set_revFlow true (new_flowRec (fstr_of tc a b)))); auto.
      apply (find_flow_stored _ _ _ _ _ _ Hfind).
Qed.

(** With the default settings the second packet of a connection over IPv6
    ends the program. *)
Lemma unconvertible_destination_throws_witness :
  process_packet default_config (next_state default_config init_state v6_syn)
                 v6_synack
  = Throws invalid_address.
Proof.
  assert (Hu : usable v6_synack
               = Some (mkTCP 80 1000 18 (Some (5%N, 1%N)), 5%N, 1%N,
                       "2001:db8::2", "2001:db8::1")) by reflexivity.
  assert (Hnone : IPv4Address_of default_config "2001:db8::1" = None)
    by (vm_compute; reflexivity).
  apply (unconvertible_destination_throws default_config _ _ _ _ _ _ _
           Hu eq_refl Hnone).
  right. split; [vm_compute; reflexivity|].
  split; [vm_compute; discriminate|].
  exists (set_last_tm (inject_Z 0 * 1e-6)
            (new_flowRec "2001:db8::1:1000+2001:db8::2:80")).
  vm_compute. reflexivity.
Defined.

(** ** A new flow whose reverse is known *)

(** X7. When [process_packet] returns from a usable packet that creates
    the record of its flow while the reversed flow has a record, or whose
    source and destination endpoints are the same, both records are marked
    bi-directional afterwards. *)
Theorem new_flow_with_known_reverse_is_bidirectional (cfg : Config)
    (s : State) (pkt : Packet) (tc : TCP) (v e : N) (a b : string)
    (s' : State) (out : list Sample) :
  usable pkt = Some (tc, v, e, a, b) ->
  flows s !! fstr_of tc a b = None -> (flowCnt s <= maxFlows cfg)%Z ->
  rstr_of tc a b = fstr_of tc a b ∨ is_Some (flows s !! rstr_of tc a b) ->
  process_packet cfg s pkt = Returns s' out ->
  (∃ fr', flows s' !! fstr_of tc a b = Some fr' ∧ revFlow fr' = true)
  ∧ (∃ rr', flows s' !! rstr_of tc a b = Some rr' ∧ revFlow rr' = true).
Proof.
  intros Hu Hf Hc Hr Hp.
  rewrite (process_packet_usable cfg s pkt _ _ _ _ _ Hu) in Hp.
  destruct (normalize_time_frame (inc_pktCnt s) pkt) as (Hfl & _ & Hfc).
  simpl in Hfl, Hfc.
  destruct (find_flow_new_reverse cfg (normalize_time (inc_pktCnt s) pkt)
              (fstr_of tc a b) (rstr_of tc a b))
    as (s2 & Hfind & (rr & Hrr & Hrrev) & _).
  { rewrite Hfl. exact Hf. }
  { rewrite Hfc. exact Hc. }
  { rewrite Hfl. exact Hr. }
  rewrite (track_after_find _ _ _ _ _ _ _ _ _ _ Hfind) in Hp.
  pose proof (find_flow_stored _ _ _ _ _ _ Hfind) as Hst.
  assert (Hloc : filtLocal cfg = false ∨ is_Some (IPv4Address_of cfg b)).
  { destruct (filtLocal cfg) eqn:Hfilt; [|left; reflexivity].
    destruct (IPv4Address_of cfg b) eqn:Hconv; [right; eauto|].
    rewrite (track_throws_invalid_address cfg s2 pkt tc v e a b _ Hst
               eq_refl Hfilt Hconv) in Hp. discriminate. }
  destruct (track_bidir cfg s2 pkt tc v e a b _ rr Hst eq_refl Hrr Hrrev Hloc)
    as (s'' & out'' & _ & _ & _ & Ht & _ & H1 & H2 & _).
  rewrite Ht in Hp. inversion Hp; subst. split; assumption.
Qed.

(** The second packet of [established_run] creates the record of B to A
    while A to B has one. *)
Lemma new_flow_with_known_reverse_is_bidirectional_witness :
  (∃ fr', flows (state_after default_config established_run) !! keyBA
          = Some fr' ∧ revFlow fr' = true)
  ∧ (∃ rr', flows (state_after default_config established_run) !! keyAB
            = Some rr' ∧ revFlow rr' = true).
Proof.
  assert (Hu : usable (tcp4 100 1000 hostB 80 hostA 1000 18 5 1 60)
               = Some (mkTCP 80 1000 18 (Some (5%N, 1%N)), 5%N, 1%N,
                       hostB, hostA)) by reflexivity.
  assert (Hf : flows (state_after default_config (firstn 1 established_run))
                 !! fstr_of (mkTCP 80 1000 18 (Some (5%N, 1%N))) hostB hostA
               = None) by (vm_compute; reflexivity).
  assert (Hc : (flowCnt (state_after default_config
                           (firstn 1 established_run))
                <= maxFlows default_config)%Z)
    by (vm_compute; discriminate).
  assert (Hr : rstr_of (mkTCP 80 1000 18 (Some (5%N, 1%N))) hostB hostA
               = fstr_of (mkTCP 80 1000 18 (Some (5%N, 1%N))) hostB hostA
               ∨ is_Some (flows (state_after default_config
                                   (firstn 1 established_run))
                            !! rstr_of (mkTCP 80 1000 18 (Some (5%N, 1%N)))
                                       hostB hostA)).
  { right. exists (set_last_tm (inject_Z 0 * 1e-6) (new_flowRec keyAB)).
    vm_compute. reflexivity. }
  assert (Hp : process_packet default_config
                 (state_after default_config (firstn 1 established_run))
                 (tcp4 100 1000 hostB 80 hostA 1000 18 5 1 60)
               = Returns (state_after default_config established_run) [])
    by (vm_compute; reflexivity).
  assert (Hk1 : fstr_of (mkTCP 80 1000 18 (Some (5%N, 1%N))) hostB hostA
                = keyBA) by (vm_compute; reflexivity).
  assert (Hk2 : rstr_of (mkTCP 80 1000 18 (Some (5%N, 1%N))) hostB hostA
                = keyAB) by (vm_compute; reflexivity).
  rewrite <- Hk1, <- Hk2.
  exact (new_flow_with_known_reverse_is_bidirectional default_config _ _ _
           _ _ _ _ _ _ Hu Hf Hc Hr Hp).
Defined.

(** ** What a sample says *)

Lemma track_sample (cfg : Config) (s : State) (pkt : Packet) (tc : TCP)
    (v e : N) (a b : string) (s' : State) (out : list Sample) (x : Sample) :
  track cfg s pkt tc v e a b = Returns s' out -> x ∈ out ->
  out = [x]
  ∧ (s_min x <= s_rtt x)%Q
  ∧ s_observed_ms x = (s_rtt x * 1000)%Q
  ∧ (∃ fr', flows s' !! s_flow x = Some fr' ∧ revFlow fr' = true
            ∧ min fr' = s_min x ∧ lstBytesSnt fr' = bytesSnt fr')
  ∧ ∃ ti, (0 < t ti)%Q
          ∧ tsTbl s' !! ts_key (matched_flow x) (matched_tsval x)
            = Some (set_t (- t ti) ti)
          ∧ s_rtt x = (capTm s' - t ti)%Q
          ∧ s_fBytes x = fBytes ti ∧ s_dBytes x = dBytes ti
          ∧ ∃ rr', flows s' !! matched_flow x = Some rr'
                   ∧ bytesDep rr' = fBytes ti.
Proof.
  unfold track. intros H Hx.
  set (fk := flow_key (endpoint a (sport tc)) (endpoint b (dport tc))) in *.
  set (rk := flow_key (endpoint b (dport tc)) (endpoint a (sport tc))) in *.
  destruct (find_flow cfg s fk rk) as [[s2 fr0]|] eqn:Hf.
  2:{ inversion H; subst. inversion Hx. }
  destruct (negb (revFlow (set_last_tm (capTm s2) fr0))) eqn:Hneg.
  { inversion H; subst. inversion Hx. }
  apply negb_false_iff in Hneg. cbn [revFlow set_last_tm] in Hneg.
  destruct (record_fwd cfg b _ _ (tsTbl s2)) as [tbl1|]; [|discriminate].
  unfold getTStm in H.
  destruct (tbl1 !! ts_key rk e) as [ti|] eqn:Hl.
  2:{ inversion H; subst. inversion Hx. }
  destruct (Qltb 0 (t ti)) eqn:Hpos.
  2:{ inversion H; subst. inversion Hx. }
  set (arr := (bytesSnt (set_last_tm (capTm s2) fr0)
               + inject_Z (Z.of_N (pdu_size pkt)))%Q) in *.
  set (fr2 := set_bytesSnt arr (set_last_tm (capTm s2) fr0)) in *.
  set (rtt := (capTm s2 - t ti)%Q) in *.
  set (fr3 := if Qltb rtt (min fr2) then set_min rtt fr2 else fr2) in *.
  set (fr4 := set_lstBytesSnt arr fr3) in *.
  destruct (<[fk := fr4]> (flows s2) !! rk) as [rr0|] eqn:Hrk; [|discriminate].
  inversion H; subst s' out. clear H.
  apply list_elem_of_singleton in Hx. subst x.
  cbn [s_min s_rtt s_observed_ms s_flow matched_flow matched_tsval
       s_fBytes s_dBytes flows tsTbl capTm set_tables].
  assert (Hmin4 : (min fr4 <= rtt)%Q).
  { unfold fr4, fr3. destruct (Qltb rtt (min fr2)) eqn:E; simpl.
    - lra.
    - apply Qltb_ge in E. exact E. }
  assert (Hrev4 : revFlow fr4 = true).
  { unfold fr4, fr3. destruct (Qltb rtt (min fr2)); exact Hneg. }
  assert (Hb4 : lstBytesSnt fr4 = bytesSnt fr4).
  { unfold fr4, fr3. destruct (Qltb rtt (min fr2)); reflexivity. }
  split; [reflexivity|]. split; [exact Hmin4|]. split; [reflexivity|].
  split.
  - rewrite lookup_alter. destruct (decide (rk = fk)) as [Heq|Hne].
    + rewrite Heq, lookup_insert_eq. simpl. eexists.
      split; [reflexivity|]. simpl. auto.
    + rewrite lookup_insert_eq. eauto.
  - exists ti. apply Qltb_lt in Hpos. split; [exact Hpos|].
    split; [apply lookup_insert_eq|]. split; [reflexivity|].
    split; [reflexivity|]. split; [reflexivity|].
    rewrite lookup_alter. rewrite decide_True by reflexivity.
    rewrite Hrk. simpl. eexists. split; reflexivity.
Qed.

(** X8. A packet emits at most one sample.  In a sample the printed
    minimum is at most the printed RTT and the observation handed to the
    summary is the RTT times 1000; afterwards the record of the sample's
    flow is bi-directional, holds the printed minimum and has its byte mark
    at its byte count; the matched entry had a positive time, is left in
    the table with that time negated, gave the RTT (capture time minus
    that time) and the printed byte counts, and the record of the reversed
    flow carries the entry's [fBytes] as [bytesDep]. *)
Theorem sample_is_consistent (cfg : Config) (s : State) (pkt : Packet)
    (s' : State) (out : list Sample) (x : Sample) :
  process_packet cfg s pkt = Returns s' out -> x ∈ out ->
  out = [x]
  ∧ (s_min x <= s_rtt x)%Q
  ∧ s_observed_ms x = (s_rtt x * 1000)%Q
  ∧ (∃ fr', flows s' !! s_flow x = Some fr' ∧ revFlow fr' = true
            ∧ min fr' = s_min x ∧ lstBytesSnt fr' = bytesSnt fr')
  ∧ ∃ ti, (0 < t ti)%Q
          ∧ tsTbl s' !! ts_key (matched_flow x) (matched_tsval x)
            = Some (set_t (- t ti) ti)
          ∧ s_rtt x = (capTm s' - t ti)%Q
          ∧ s_fBytes x = fBytes ti ∧ s_dBytes x = dBytes ti
          ∧ ∃ rr', flows s' !! matched_flow x = Some rr'
                   ∧ bytesDep rr' = fBytes ti.
Proof.
  intros H Hx.
  destruct (usable pkt) as [[[[[tc v0] e] a] b]|] eqn:Hu.
  - rewrite (process_packet_usable cfg s pkt _ _ _ _ _ Hu) in H.
    exact (track_sample _ _ _ _ _ _ _ _ _ _ _ H Hx).
  - destruct (process_packet_unusable cfg s pkt Hu) as (s1 & H1 & _).
    rewrite H1 in H. inversion H; subst. inversion Hx.
Qed.

(** The sample of [rev_pkt] in the exchange of [two_samples_run]. *)
Lemma sample_is_consistent_witness :
  ∃ x, outs (process_packet default_config
               (state_after default_config (established_run ++ [Pkt fwd_pkt]))
               rev_pkt) = [x]
       ∧ (s_min x <= s_rtt x)%Q
       ∧ s_observed_ms x = (s_rtt x * 1000)%Q.
Proof.
  assert (Hp : process_packet default_config
                 (state_after default_config
                    (established_run ++ [Pkt fwd_pkt])) rev_pkt
               = Returns (next_state default_config
                            (state_after default_config
                               (established_run ++ [Pkt fwd_pkt])) rev_pkt)
                         (outs (process_packet default_config
                                  (state_after default_config
                                     (established_run ++ [Pkt fwd_pkt]))
                                  rev_pkt)))
    by (vm_compute; reflexivity).
  assert (Hx : ∃ x, x ∈ outs (process_packet default_config
                               (state_after default_config
                                  (established_run ++ [Pkt fwd_pkt]))
                               rev_pkt)).
  { eexists. vm_compute. apply list_elem_of_here. }
  destruct Hx as [x Hx]. exists x.
  destruct (sample_is_consistent default_config _ _ _ _ x Hp Hx)
    as (H1 & H2 & H3 & _).
  auto.
Defined.

(** ** Byte counts and last-seen times of flow records *)

Section field_frame.
Context (g : flowRec -> Q).
Context (Hrev : ∀ b x, g (set_revFlow b x) = g x).
Context (Hdep : ∀ v x, g (set_bytesDep v x) = g x).

(** A field that the marking as bi-directional and the update of
    [bytesDep] leave alone is the same before and after [find_flow] in
    every record but the packet's own. *)
Lemma find_flow_field_other (cfg : Config) (s s2 : State) (fk rk : string)
    (fr0 : flowRec) (k : string) :
  find_flow cfg s fk rk = Some (s2, fr0) -> k ≠ fk ->
  g <$> flows s2 !! k = g <$> flows s !! k.
Proof.
  unfold find_flow. intros H Hk.
  destruct (flows s !! fk) as [fr|] eqn:Hf.
  - inversion H; subst. reflexivity.
  - destruct (maxFlows cfg <? flowCnt s)%Z; [discriminate|].
    destruct (<[fk:=new_flowRec fk]> (flows s) !! rk) eqn:Hr;
      inversion H; subst; simpl.
    + rewrite (lookup_insert_ne _ _ _ _ (not_eq_sym Hk)).
      rewrite lookup_alter. destruct (decide (rk = k)) as [->|Hne].
      * rewrite (lookup_insert_ne _ _ _ _ (not_eq_sym Hk)).
        destruct (flows s !! k); simpl; [rewrite Hrev|]; reflexivity.
      * rewrite (lookup_insert_ne _ _ _ _ (not_eq_sym Hk)). reflexivity.
    + rewrite (lookup_insert_ne _ _ _ _ (not_eq_sym Hk)). reflexivity.
Qed.

Lemma alter_bytesDep_field (v : Q) (rk k : string) (m : gmap string flowRec) :
  g <$> alter (set_bytesDep v) rk m !! k = g <$> m !! k.
Proof.
  rewrite lookup_alter. destruct (decide (rk = k)) as [->|Hne]; [|reflexivity].
  destruct (m !! k); simpl; [rewrite Hdep|]; reflexivity.
Qed.

Lemma track_field_other (cfg : Config) (s : State) (pkt : Packet) (tc : TCP)
    (v e : N) (a b : string) (s' : State) (out : list Sample) (k : string) :
  track cfg s pkt tc v e a b = Returns s' out -> k ≠ fstr_of tc a b ->
  g <$> flows s' !! k = g <$> flows s !! k.
Proof.
  unfold track, fstr_of. intros H Hk.
  set (fk := flow_key (endpoint a (sport tc)) (endpoint b (dport tc))) in *.
  set (rk := flow_key (endpoint b (dport tc)) (endpoint a (sport tc))) in *.
  destruct (find_flow cfg s fk rk) as [[s2 fr0]|] eqn:Hf.
  2:{ inversion H; subst. reflexivity. }
  pose proof (find_flow_field_other _ _ _ _ _ _ k Hf Hk) as H2.
  destruct (negb (revFlow (set_last_tm (capTm s2) fr0))).
  { inversion H; subst. simpl.
    rewrite (lookup_insert_ne _ _ _ _ (not_eq_sym Hk)). exact H2. }
  destruct (record_fwd cfg b _ _ (tsTbl s2)) as [tbl1|]; [|discriminate].
  unfold getTStm in H.
  destruct (tbl1 !! ts_key rk e) as [ti|].
  - destruct (Qltb 0 (t ti)).
    + destruct (<[fk := _]> (flows s2) !! rk); [|discriminate].
      inversion H; subst s' out. cbn [flows set_tables].
      rewrite alter_bytesDep_field.
      rewrite (lookup_insert_ne _ _ _ _ (not_eq_sym Hk)). exact H2.
    + inversion H; subst. simpl.
      rewrite (lookup_insert_ne _ _ _ _ (not_eq_sym Hk)). exact H2.
  - inversion H; subst. simpl.
    rewrite (lookup_insert_ne _ _ _ _ (not_eq_sym Hk)). exact H2.
Qed.
End field_frame.

(** The record of the packet's own flow after [track]: last seen at the
    capture time; its byte count grown by the size of the packet when the
    flow is bi-directional, and unchanged when it is not. *)
Lemma track_own_record (cfg : Config) (s : State) (pkt : Packet) (tc : TCP)
    (v e : N) (a b : string) (s' : State) (out : list Sample)
    (fr' : flowRec) :
  track cfg s pkt tc v e a b = Returns s' out ->
  flows s' !! fstr_of tc a b = Some fr' ->
  last_tm fr' = capTm s
  ∧ ∀ fr, flows s !! fstr_of tc a b = Some fr ->
          (revFlow fr = false ∧ bytesSnt fr' = bytesSnt fr)
          ∨ (revFlow fr = true
             ∧ bytesSnt fr'
               = (bytesSnt fr + inject_Z (Z.of_N (pdu_size pkt)))%Q).
Proof.
  unfold track, fstr_of. intros H Hl.
  set (fk := flow_key (endpoint a (sport tc)) (endpoint b (dport tc))) in *.
  set (rk := flow_key (endpoint b (dport tc)) (endpoint a (sport tc))) in *.
  destruct (find_flow cfg s fk rk) as [[s2 fr0]|] eqn:Hf.
  2:{ inversion H; subst. unfold find_flow in Hf. rewrite Hl in Hf.
      discriminate. }
  destruct (find_flow_frame _ _ _ _ _ _ Hf) as (_ & Hc & _).
  assert (Hold : ∀ fr, flows s !! fk = Some fr -> fr0 = fr).
  { intros fr Hfr. rewrite (find_flow_present cfg s fk rk fr Hfr) in Hf.
    congruence. }
  destruct (negb (revFlow (set_last_tm (capTm s2) fr0))) eqn:Hneg.
  { inversion H; subst. simpl in Hl. rewrite lookup_insert_eq in Hl.
    inversion Hl; subst. simpl. split; [exact Hc|].
    intros fr Hfr. rewrite <- (Hold fr Hfr). left.
    apply negb_true_iff in Hneg. auto. }
  apply negb_false_iff in Hneg. cbn [revFlow set_last_tm] in Hneg.
  destruct (record_fwd cfg b _ _ (tsTbl s2)) as [tbl1|]; [|discriminate].
  unfold getTStm in H.
  set (arr := (bytesSnt (set_last_tm (capTm s2) fr0)
               + inject_Z (Z.of_N (pdu_size pkt)))%Q) in *.
  set (fr2 := set_bytesSnt arr (set_last_tm (capTm s2) fr0)) in *.
  assert (Hplain : ∀ tb o,
            Returns (set_tables (<[fk := fr2]> (flows s2)) tb s2) o
            = Returns s' out ->
            last_tm fr' = capTm s
            ∧ ∀ fr, flows s !! fk = Some fr ->
                (revFlow fr = false ∧ bytesSnt fr' = bytesSnt fr)
                ∨ (revFlow fr = true
                   ∧ bytesSnt fr'
                     = (bytesSnt fr + inject_Z (Z.of_N (pdu_size pkt)))%Q)).
  { intros tb o Heq. inversion Heq; subst. simpl in Hl.
    rewrite lookup_insert_eq in Hl. inversion Hl; subst. simpl.
    split; [exact Hc|]. intros fr Hfr. rewrite <- (Hold fr Hfr). right.
    auto. }
  destruct (tbl1 !! ts_key rk e) as [ti|].
  - destruct (Qltb 0 (t ti)).
    + set (rtt := (capTm s2 - t ti)%Q) in *.
      set (fr3 := if Qltb rtt (min fr2) then set_min rtt fr2 else fr2) in *.
      set (fr4 := set_lstBytesSnt arr fr3) in *.
      destruct (<[fk := fr4]> (flows s2) !! rk); [|discriminate].
      inversion H; subst s' out. cbn [flows set_tables] in Hl.
      assert (Hfr' : last_tm fr' = last_tm fr4 ∧ bytesSnt fr' = bytesSnt fr4).
      { rewrite lookup_alter in Hl. destruct (decide (rk = fk)) as [Heq|Hne].
        - rewrite Heq, lookup_insert_eq in Hl. simpl in Hl.
          inversion Hl; subst. auto.
        - rewrite lookup_insert_eq in Hl. inversion Hl; subst. auto. }
      destruct Hfr' as [Hlt Hbs].
      assert (H4 : last_tm fr4 = capTm s2 ∧ bytesSnt fr4 = arr).
      { unfold fr4, fr3. destruct (Qltb rtt (min fr2)); auto. }
      destruct H4 as [H4a H4b]. rewrite Hlt, Hbs, H4a, H4b.
      split; [exact Hc|]. intros fr Hfr. rewrite <- (Hold fr Hfr). right.
      auto.
    + exact (Hplain _ _ H).
  - exact (Hplain _ _ H).
Qed.

Lemma inject_N_nonneg (n : N) : (0 <= inject_Z (Z.of_N n))%Q.
Proof. unfold Qle, inject_Z. simpl. lia. Qed.

(** X9. The byte count [bytesSnt] of a flow record never decreases along
    a step in which the record stays; and a usable packet on a flow marked
    bi-directional, when [process_packet] returns, has added exactly its
    size to the count of its flow and set the record's [last_tm] to the
    capture time. *)
Theorem bytes_sent_never_decreases :
  (∀ (cfg : Config) (s : State) (e : event) (s' : State) (out : list Sample)
     (f : string) (fr fr' : flowRec),
     flows s !! f = Some fr -> step cfg s e = Returns s' out ->
     flows s' !! f = Some fr' -> (bytesSnt fr <= bytesSnt fr')%Q)
  ∧ (∀ (cfg : Config) (s : State) (pkt : Packet) (tc : TCP) (v e : N)
       (a b : string) (fr : flowRec) (s' : State) (out : list Sample),
       usable pkt = Some (tc, v, e, a, b) ->
       flows s !! fstr_of tc a b = Some fr -> revFlow fr = true ->
       process_packet cfg s pkt = Returns s' out ->
       ∃ fr', flows s' !! fstr_of tc a b = Some fr'
              ∧ bytesSnt fr'
                = (bytesSnt fr + inject_Z (Z.of_N (pdu_size pkt)))%Q
              ∧ last_tm fr' = capTm s').
Proof.
  split.
  - intros cfg s e s' out f fr fr' Hf Hstep Hf'.
    destruct e as [pkt|now]; simpl in Hstep.
    + destruct (usable pkt) as [[[[[tc v0] e0] a] b]|] eqn:Hu.
      * rewrite (process_packet_usable cfg s pkt _ _ _ _ _ Hu) in Hstep.
        destruct (normalize_time_frame (inc_pktCnt s) pkt) as (Hfl & _ & _).
        simpl in Hfl.
        destruct (decide (f = fstr_of tc a b)) as [->|Hne].
        -- destruct (track_own_record _ _ _ _ _ _ _ _ _ _ _ Hstep Hf')
             as [_ Hb].
           rewrite <- Hfl in Hf.
           pose proof (inject_N_nonneg (pdu_size pkt)).
           destruct (Hb fr Hf) as [[_ ->]|[_ ->]]; lra.
        -- pose proof (track_field_other bytesSnt (fun _ _ => eq_refl)
                         (fun _ _ => eq_refl) _ _ _ _ _ _ _ _ _ _ f
                         Hstep Hne) as Hg.
           rewrite Hfl, Hf, Hf' in Hg. simpl in Hg.
           inversion Hg as [Hg']. rewrite Hg'. lra.
      * destruct (process_packet_unusable cfg s pkt Hu) as (s1 & H1 & Hfl & _).
        rewrite H1 in Hstep. inversion Hstep; subst.
        rewrite Hfl in Hf'. assert (fr' = fr) by congruence. subst. lra.
    + inversion Hstep; subst. apply reap_flows in Hf'.
      assert (fr' = fr) by congruence. subst. lra.
  - intros cfg s pkt tc v e a b fr s' out Hu Hf Hrev Hp.
    rewrite (process_packet_usable cfg s pkt _ _ _ _ _ Hu) in Hp.
    destruct (normalize_time_frame (inc_pktCnt s) pkt) as (Hfl & _ & _).
    simpl in Hfl. rewrite <- Hfl in Hf.
    destruct (track_clock _ _ _ _ _ _ _ _ _ _ Hp) as (_ & Hc & _).
    assert (Hsome : is_Some (flows s' !! fstr_of tc a b)).
    { destruct (track_flows_min _ _ _ _ _ _ _ _ _ _ (fstr_of tc a b) Hp)
        as [(Hn & _)|(fr1 & H1 & _)]; [congruence|eauto]. }
    destruct Hsome as [fr' Hf'].
    destruct (track_own_record _ _ _ _ _ _ _ _ _ _ _ Hp Hf') as [Hlt Hb].
    exists fr'. split; [exact Hf'|].
    destruct (Hb fr Hf) as [[Hfalse _]|[_ Hbs]]; [congruence|].
    split; [exact Hbs|]. rewrite Hlt, Hc. reflexivity.
Qed.

(** [dup_second] (60 bytes) after [dup_first] on the flow of A to B. *)
Lemma bytes_sent_never_decreases_witness :
  ∃ fr', flows (state_after default_config
                  (established_run ++ [Pkt dup_first; Pkt dup_second]))
           !! fstr_of (mkTCP 1000 80 TCP_ACK (Some (100%N, 5%N))) hostA hostB
         = Some fr'
         ∧ bytesSnt fr' = (60 + inject_Z (Z.of_N (pdu_size dup_second)))%Q
         ∧ last_tm fr'
           = capTm (state_after default_config
                      (established_run ++ [Pkt dup_first; Pkt dup_second])).
Proof.
  assert (Hu : usable dup_second
               = Some (mkTCP 1000 80 TCP_ACK (Some (100%N, 5%N)),
                       100%N, 5%N, hostA, hostB)) by reflexivity.
  assert (Hf : flows (state_after default_config
                        (established_run ++ [Pkt dup_first]))
                 !! fstr_of (mkTCP 1000 80 TCP_ACK (Some (100%N, 5%N)))
                            hostA hostB
               = Some (mkFlowRec keyAB 0.002000 0.001000000000 60 60 0 true))
    by (vm_compute; reflexivity).
  assert (Hp : process_packet default_config
                 (state_after default_config
                    (established_run ++ [Pkt dup_first])) dup_second
               = Returns (state_after default_config
                            (established_run
                             ++ [Pkt dup_first; Pkt dup_second])) [])
    by (vm_compute; reflexivity).
  exact (proj2 bytes_sent_never_decreases default_config _ _ _ _ _ _ _ _ _ _
           Hu Hf eq_refl Hp).
Defined.


(** ** Local destinations *)

Lemma ipRangesContains_spec (ranges : list IPv4Range) (addr : N) :
  ipRangesContains ranges addr = true
  <-> ∃ r, r ∈ ranges ∧ (fst r <= addr)%N ∧ (addr <= snd r)%N.
Proof.
  induction ranges as [|r rs IH]; simpl.
  - split; [discriminate|]. intros (r & Hr & _). inversion Hr.
  - unfold range_contains at 1.
    destruct ((fst r <=? addr)%N && (addr <=? snd r)%N) eqn:E.
    + split; [|reflexivity]. intros _. exists r.
      apply andb_true_iff in E as [E1 E2].
      apply N.leb_le in E1. apply N.leb_le in E2.
      split; [apply list_elem_of_here|auto].
    + rewrite IH. split.
      * intros (r' & Hr' & H). exists r'. split; [|exact H].
        apply list_elem_of_further. exact Hr'.
      * intros (r' & Hr' & H1 & H2).
        apply elem_of_cons in Hr' as [->|Hr']; [|eauto].
        apply N.leb_le in H1. apply N.leb_le in H2.
        rewrite H1, H2 in E. discriminate.
Qed.

Lemma record_fwd_local (cfg : Config) (ipdstr key : string) (ti : tsInfo)
    (tbl : gmap string tsInfo) (n : N) (r : IPv4Range) :
  filtLocal cfg = true -> IPv4Address_of cfg ipdstr = Some n ->
  r ∈ localRanges cfg -> (fst r <= n)%N -> (n <= snd r)%N ->
  record_fwd cfg ipdstr key ti tbl = Some tbl.
Proof.
  intros Hfilt Hconv Hr H1 H2. unfold record_fwd. rewrite Hfilt, Hconv. simpl.
  assert (Hc : ipRangesContains (localRanges cfg) n = true).
  { apply ipRangesContains_spec. eauto. }
  rewrite Hc. reflexivity.
Qed.

(** [track_tsTbl] with the table after the forward recording named as the
    result of [record_fwd]. *)
Lemma track_tsTbl_fwd (cfg : Config) (s : State) (pkt : Packet) (tc : TCP)
    (v e : N) (a b : string) (s' : State) (out : list Sample) :
  track cfg s pkt tc v e a b = Returns s' out ->
  (out = [] ∧ tsTbl s' = tsTbl s)
  ∨ ∃ tbl1 fb db,
      record_fwd cfg b (ts_key (fstr_of tc a b) v)
                 (mkTsInfo (capTm s) fb db) (tsTbl s) = Some tbl1
      ∧ match tbl1 !! ts_key (rstr_of tc a b) e with
        | Some ti =>
            if Qltb 0 (t ti) then
              ∃ x, out = [x] ∧
                   tsTbl s' = <[ts_key (rstr_of tc a b) e
                                := set_t (- t ti) ti]> tbl1
            else out = [] ∧ tsTbl s' = tbl1
        | None => out = [] ∧ tsTbl s' = tbl1
        end.
Proof.
  unfold track, fstr_of, rstr_of. intros H.
  destruct (find_flow cfg s _ _) as [[s2 fr0]|] eqn:Hf.
  2:{ inversion H; subst. auto. }
  apply find_flow_frame in Hf as (Ht & Hc & Ho).
  destruct (negb (revFlow (set_last_tm (capTm s2) fr0))).
  { inversion H; subst; simpl. auto. }
  destruct (record_fwd cfg b _ _ (tsTbl s2)) as [tbl1|] eqn:Hr; [|discriminate].
  unfold getTStm in H. rewrite Ht, Hc in Hr.
  right. exists tbl1. do 2 eexists. split; [exact Hr|].
  destruct (tbl1 !! _) as [ti|] eqn:Hl.
  - destruct (Qltb 0 (t ti)) eqn:Hpos.
    + destruct (<[_ := _]> (flows s2) !! _); [|discriminate].
      inversion H; subst; simpl. eexists. split; reflexivity.
    + inversion H; subst; simpl. auto.
  - inversion H; subst; simpl. auto.
Qed.

(** X10. With local filtering on, a usable packet whose destination
    address lies in one of the local ranges adds no entry to the TSval
    table; its ECR is matched all the same: on a connection known in both
    directions, an unconsumed entry under the reversed flow and the
    packet's ECR yields a sample. *)
Theorem local_destination_is_not_recorded (cfg : Config) (s : State)
    (pkt : Packet) (tc : TCP) (v e : N) (a b : string) (n : N)
    (r : IPv4Range) :
  usable pkt = Some (tc, v, e, a, b) ->
  filtLocal cfg = true -> IPv4Address_of cfg b = Some n ->
  r ∈ localRanges cfg -> (fst r <= n)%N -> (n <= snd r)%N ->
  (∀ s' out, process_packet cfg s pkt = Returns s' out ->
             ∀ k, tsTbl s !! k = None -> tsTbl s' !! k = None)
  ∧ (∀ fr rr ti,
       flows s !! fstr_of tc a b = Some fr -> revFlow fr = true ->
       flows s !! rstr_of tc a b = Some rr -> revFlow rr = true ->
       tsTbl s !! ts_key (rstr_of tc a b) e = Some ti -> (0 < t ti)%Q ->
       ∃ s' x, process_packet cfg s pkt = Returns s' [x]
               ∧ matched_flow x = rstr_of tc a b ∧ matched_tsval x = e).
Proof.
  intros Hu Hfilt Hconv Hr H1 H2. split.
  - intros s' out Hp k Hk.
    rewrite (process_packet_usable cfg s pkt _ _ _ _ _ Hu) in Hp.
    apply track_tsTbl_fwd in Hp.
    destruct (normalize_time_frame (inc_pktCnt s) pkt) as (_ & Hn & _).
    simpl in Hn. rewrite Hn in Hp. clear Hn.
    destruct Hp as [[_ ->]|(tbl1 & fb & db & Hrec & Hm)]; [exact Hk|].
    rewrite (record_fwd_local cfg b _ _ _ n r Hfilt Hconv Hr H1 H2) in Hrec.
    injection Hrec as <-.
    destruct (tsTbl s !! ts_key (rstr_of tc a b) e) as [ti|] eqn:Hl.
    2:{ destruct Hm as [_ ->]. exact Hk. }
    destruct (Qltb 0 (t ti)).
    2:{ destruct Hm as [_ ->]. exact Hk. }
    destruct Hm as (x & _ & ->).
    destruct (decide (ts_key (rstr_of tc a b) e = k)) as [<-|Hne].
    + congruence.
    + rewrite (lookup_insert_ne _ _ _ _ Hne). exact Hk.
  - intros fr rr ti Hf Hfrev Hrr Hrrev Hl Hpos.
    destruct (process_packet_bidir cfg s pkt tc v e a b fr rr
                Hu Hf Hfrev Hrr Hrrev)
      as (s' & out & tbl1 & fb & db & Hp & Hrec & _ & _ & _ & _ & Hm).
    { right. rewrite Hconv. eauto. }
    rewrite (record_fwd_local cfg b _ _ _ n r Hfilt Hconv Hr H1 H2) in Hrec.
    injection Hrec as <-.
    rewrite Hl in Hm. apply Qltb_lt in Hpos. rewrite Hpos in Hm.
    destruct Hm as (x & -> & Hmf & Hmv & _).
    exists s', x. auto.
Qed.

(** With the address of B declared local: [fwd_pkt] of A to B after the
    handshake leaves no entry for its TSval 100, and its ECR 5 is matched. *)
Lemma local_destination_is_not_recorded_witness :
  tsTbl (next_state local_B_config
           (state_after local_B_config established_run) fwd_pkt)
    !! ts_key keyAB 100 = None
  ∧ ∃ s' x, process_packet local_B_config
              (state_after local_B_config established_run) fwd_pkt
            = Returns s' [x]
            ∧ matched_flow x = rstr_of fwd_tcp hostA hostB
            ∧ matched_tsval x = 5%N.
Proof.
  assert (Hu : usable fwd_pkt = Some (fwd_tcp, 100%N, 5%N, hostA, hostB))
    by reflexivity.
  assert (Hconv : IPv4Address_of local_B_config hostB = Some 167772162%N)
    by (vm_compute; reflexivity).
  assert (Hr : (167772162%N, 167772162%N) ∈ localRanges local_B_config)
    by apply list_elem_of_here.
  assert (H1 : (fst (167772162%N, 167772162%N) <= 167772162)%N)
    by (simpl; lia).
  assert (H2 : (167772162 <= snd (167772162%N, 167772162%N))%N)
    by (simpl; lia).
  destruct (local_destination_is_not_recorded local_B_config
              (state_after local_B_config established_run) fwd_pkt
              fwd_tcp 100 5 hostA hostB _ _ Hu eq_refl Hconv Hr H1 H2)
    as [Hnew Hmatch].
  split.
  - apply (Hnew _ (outs (process_packet local_B_config
                           (state_after local_B_config established_run)
                           fwd_pkt))).
    + vm_compute. reflexivity.
    + vm_compute. reflexivity.
  - apply (Hmatch (mkFlowRec keyAB 0.000000 1e30 0 0 0 true)
                  (mkFlowRec keyBA 0.001000 1e30 60 0 0 true)
                  (mkTsInfo 0.001000 60 0)).
    + vm_compute. reflexivity.
    + reflexivity.
    + vm_compute. reflexivity.
    + reflexivity.
    + vm_compute. reflexivity.
    + reflexivity.
Defined.

(** ** The sweep at the end of the program *)

Lemma addTS_lookup_cases (key k : string) (ti x : tsInfo)
    (tbl : gmap string tsInfo) :
  addTS key ti tbl !! k = Some x -> x = ti ∨ tbl !! k = Some x.
Proof.
  unfold addTS. destruct (tbl !! key) eqn:E; [auto|].
  destruct (decide (key = k)) as [->|Hne].
  - rewrite lookup_insert_eq. intros H. inversion H. auto.
  - rewrite (lookup_insert_ne _ _ _ _ Hne). auto.
Qed.

Lemma track_not_ahead (cfg : Config) (s : State) (pkt : Packet) (tc : TCP)
    (v e : N) (a b : string) (s' : State) (out : list Sample) (B : Q) :
  track cfg s pkt tc v e a b = Returns s' out ->
  (0 <= capTm s)%Q -> (capTm s <= B)%Q ->
  (∀ k ti, tsTbl s !! k = Some ti -> (Qabs (t ti) <= B)%Q) ->
  (∀ k fr, flows s !! k = Some fr -> (last_tm fr <= B)%Q) ->
  (∀ k ti, tsTbl s' !! k = Some ti -> (Qabs (t ti) <= B)%Q)
  ∧ (∀ k fr, flows s' !! k = Some fr -> (last_tm fr <= B)%Q).
Proof.
  intros H Hpos HB Hts Hfl. split.
  - pose proof (track_tsTbl _ _ _ _ _ _ _ _ _ _ H) as (_ & _ & Ht).
    destruct Ht as [[_ ->]|(tbl1 & Htbl1 & Hm)]; [exact Hts|].
    assert (H1 : ∀ k ti, tbl1 !! k = Some ti -> (Qabs (t ti) <= B)%Q).
    { destruct Htbl1 as [->|(fb & db & ->)]; [exact Hts|].
      intros k ti Hk. apply addTS_lookup_cases in Hk as [->|Hk].
      - cbn [t]. rewrite (Qabs_pos _ Hpos). exact HB.
      - exact (Hts k ti Hk). }
    destruct (tbl1 !! ts_key (rstr_of tc a b) e) as [tj|] eqn:Hl.
    2:{ destruct Hm as [_ ->]. exact H1. }
    destruct (Qltb 0 (t tj)).
    2:{ destruct Hm as [_ ->]. exact H1. }
    destruct Hm as (x & _ & _ & _ & _ & _ & ->).
    intros k ti Hk.
    destruct (decide (ts_key (rstr_of tc a b) e = k)) as [<-|Hne].
    + rewrite lookup_insert_eq in Hk. inversion Hk; subst.
      cbn [t set_t]. rewrite Qabs_opp. exact (H1 _ _ Hl).
    + rewrite (lookup_insert_ne _ _ _ _ Hne) in Hk. exact (H1 k ti Hk).
  - intros k fr' Hk.
    destruct (decide (k = fstr_of tc a b)) as [->|Hne].
    + destruct (track_own_record _ _ _ _ _ _ _ _ _ _ _ H Hk) as [Hlt _].
      rewrite Hlt. exact HB.
    + pose proof (track_field_other last_tm (fun _ _ => eq_refl)
                    (fun _ _ => eq_refl) _ _ _ _ _ _ _ _ _ _ k H Hne) as Hg.
      rewrite Hk in Hg. simpl in Hg.
      destruct (flows s !! k) as [fr|] eqn:Hfr; [|discriminate].
      simpl in Hg. inversion Hg as [Hg']. rewrite Hg'.
      exact (Hfl k fr Hfr).
Qed.

Lemma step_not_ahead (cfg : Config) (s : State) (e : event) (s' : State)
    (out : list Sample) :
  step cfg s e = Returns s' out ->
  not_ahead s -> (0 <= capTm s)%Q -> (capTm s <= capTm s')%Q ->
  not_ahead s'.
Proof.
  intros Hstep [Hts Hfl] Hpos Hfwd. destruct e as [pkt|now]; simpl in Hstep.
  - destruct (usable pkt) as [[[[[tc v0] e0] a] b]|] eqn:Hu.
    + rewrite (process_packet_usable cfg s pkt _ _ _ _ _ Hu) in Hstep.
      destruct (normalize_time_frame (inc_pktCnt s) pkt) as (Hf & Ht & _).
      simpl in Hf, Ht.
      destruct (track_clock _ _ _ _ _ _ _ _ _ _ Hstep) as (_ & Hc & _).
      apply (track_not_ahead _ _ _ _ _ _ _ _ _ _ (capTm s')) in Hstep.
      * exact Hstep.
      * rewrite <- Hc. lra.
      * rewrite Hc. lra.
      * rewrite Ht. intros k ti Hk. specialize (Hts k ti Hk). lra.
      * rewrite Hf. intros k fr Hk. specialize (Hfl k fr Hk). lra.
    + destruct (process_packet_unusable cfg s pkt Hu)
        as (s1 & H1 & Hf & Ht & _).
      rewrite H1 in Hstep. inversion Hstep; subst. split.
      * rewrite Ht. intros k ti Hk. specialize (Hts k ti Hk). lra.
      * rewrite Hf. intros k fr Hk. specialize (Hfl k fr Hk). lra.
  - inversion Hstep; subst. split.
    + intros k ti Hk. unfold cleanUpLoop_body in Hk.
      assert (Hold : tsTbl s !! k = Some ti).
      { destruct (0 <? offTm s)%Z; [|exact Hk].
        rewrite cleanUp_tsTbl in Hk.
        destruct (tsTbl s !! k) as [tj|]; [|discriminate].
        destruct (ts_expired cfg _ tj); [discriminate|exact Hk]. }
      specialize (Hts k ti Hold). lra.
    + intros k fr Hk. apply reap_flows in Hk.
      specialize (Hfl k fr Hk). lra.
Qed.

Lemma run_not_ahead (cfg : Config) (evs : list event) (s s' : State) :
  not_ahead s -> (0 <= capTm s)%Q ->
  clock_forward (exec cfg s evs) ->
  final s (exec cfg s evs) = Some s' ->
  not_ahead s'.
Proof.
  revert s. induction evs as [|e evs IH]; intros s Hna Hpos Hcf Hfin.
  - simpl in Hfin. inversion Hfin; subst. exact Hna.
  - simpl in Hcf, Hfin.
    destruct (step cfg s e) as [s1 out|ex] eqn:Hs; [|discriminate].
    destruct Hcf as [Hle Hcf]. apply (IH s1); try assumption.
    + exact (step_not_ahead cfg s e s1 out Hs Hna Hpos Hle).
    + lra.
Qed.

Lemma shutdown_limit (cfg : Config) :
  (tsvalMaxAge cfg
   <= (if Qltb (flowMaxIdle cfg) (tsvalMaxAge cfg) then tsvalMaxAge cfg
       else flowMaxIdle cfg))%Q
  ∧ (flowMaxIdle cfg
     <= (if Qltb (flowMaxIdle cfg) (tsvalMaxAge cfg) then tsvalMaxAge cfg
         else flowMaxIdle cfg))%Q.
Proof.
  destruct (Qltb (flowMaxIdle cfg) (tsvalMaxAge cfg)) eqn:E.
  - apply Qltb_lt in E. split; lra.
  - apply Qltb_ge in E. split; lra.
Qed.

Lemma shutdown_empties (cfg : Config) (s : State) :
  not_ahead s ->
  tsTbl (shutdown_cleanUp cfg s) = ∅ ∧ flows (shutdown_cleanUp cfg s) = ∅.
Proof.
  intros [Hts Hfl]. destruct (shutdown_limit cfg) as [Ha Hi].
  unfold shutdown_cleanUp.
  set (M := if Qltb (flowMaxIdle cfg) (tsvalMaxAge cfg) then tsvalMaxAge cfg
            else flowMaxIdle cfg) in *.
  split; apply map_eq; intros k; rewrite lookup_empty.
  - rewrite cleanUp_tsTbl. destruct (tsTbl s !! k) as [ti|] eqn:Hk;
      [|reflexivity].
    assert (Hexp : ts_expired cfg (capTm s + M + 1) ti = true).
    { unfold ts_expired. apply Qltb_lt. specialize (Hts k ti Hk). lra. }
    rewrite Hexp. reflexivity.
  - rewrite cleanUp_flows. destruct (flows s !! k) as [fr|] eqn:Hk;
      [|reflexivity].
    assert (Hexp : flow_idle cfg (capTm s + M + 1) fr = true).
    { unfold flow_idle. apply Qltb_lt. specialize (Hfl k fr Hk). lra. }
    rewrite Hexp. reflexivity.
Qed.

(** X11. After a run from the start whose capture clock never stepped
    back, the sweep that [main] runs once the packet loop has ended leaves
    the TSval table and the flow table empty and [flowCnt] at zero. *)
Theorem shutdown_sweep_clears_tables (cfg : Config) (evs : list event)
    (s' : State) :
  clock_forward (exec cfg init_state evs) ->
  final init_state (exec cfg init_state evs) = Some s' ->
  tsTbl (shutdown_cleanUp cfg s') = ∅
  ∧ flows (shutdown_cleanUp cfg s') = ∅
  ∧ flowCnt (shutdown_cleanUp cfg s') = 0%Z.
Proof.
  intros Hcf Hfin.
  assert (Hna : not_ahead s').
  { apply (run_not_ahead cfg evs init_state s'); try assumption.
    - split; intros k x Hk; simpl in Hk; rewrite lookup_empty in Hk;
        discriminate.
    - simpl. lra. }
  destruct (shutdown_empties cfg s' Hna) as [Ht Hf].
  split; [exact Ht|]. split; [exact Hf|].
  assert (Hinv : flowCnt_inv cfg s').
  { apply (run_flowCnt_inv cfg evs init_state s'); [|exact Hfin].
    unfold flowCnt_inv. simpl. rewrite map_size_empty. lia. }
  destruct Hinv as [Hc _].
  pose proof (cleanUp_flowCnt_size cfg
                (capTm s'
                 + (if Qltb (flowMaxIdle cfg) (tsvalMaxAge cfg)
                    then tsvalMaxAge cfg else flowMaxIdle cfg) + 1)%Q s')
    as Hsz.
  fold (shutdown_cleanUp cfg s') in Hsz.
  rewrite Hf, map_size_empty in Hsz. lia.
Qed.

(** [tsval_reuse_run], whose timestamps are in order. *)
Lemma shutdown_sweep_clears_tables_witness :
  tsTbl (shutdown_cleanUp default_config
           (state_after default_config tsval_reuse_run)) = ∅
  ∧ flows (shutdown_cleanUp default_config
             (state_after default_config tsval_reuse_run)) = ∅
  ∧ flowCnt (shutdown_cleanUp default_config
               (state_after default_config tsval_reuse_run)) = 0%Z.
Proof.
  assert (Hcf : clock_forward
                  (exec default_config init_state tsval_reuse_run)).
  { vm_compute. repeat split; discriminate. }
  assert (Hfin : final init_state
                   (exec default_config init_state tsval_reuse_run)
                 = Some (state_after default_config tsval_reuse_run))
    by (vm_compute; reflexivity).
  exact (shutdown_sweep_clears_tables default_config tsval_reuse_run _
           Hcf Hfin).
Defined.

(** ** Strings: searching and cutting *)

Lemma append_cons (c : ascii) (x y : string) :
  String c x +:+ y = String c (x +:+ y).
Proof. reflexivity. Qed.

Lemma append_nil (y : string) : EmptyString +:+ y = y.
Proof. reflexivity. Qed.

Lemma append_assoc (x y z : string) : (x +:+ y) +:+ z = x +:+ (y +:+ z).
Proof.
  induction x as [|c x IH]; [reflexivity|].
  rewrite !append_cons, IH. reflexivity.
Qed.

Lemma length_append (x y : string) :
  String.length (x +:+ y) = (String.length x + String.length y)%nat.
Proof.
  induction x as [|c x IH]; [reflexivity|].
  rewrite append_cons. simpl. rewrite IH. reflexivity.
Qed.

Lemma find_from_range (c : ascii) (s : string) (i : Z) :
  find_from c s i = npos
  ∨ (i <= find_from c s i < i + Z.of_nat (String.length s))%Z.
Proof.
  revert i. induction s as [|d s IH]; intros i; [left; reflexivity|].
  simpl find_from. simpl String.length. destruct (Ascii.eqb d c).
  - right. lia.
  - destruct (IH (i + 1)%Z) as [->|H]; [left; reflexivity|right; lia].
Qed.

Lemma find_from_app_lacks (c : ascii) (x y : string) (i : Z) :
  lacks c x = true ->
  find_from c (x +:+ y) i = find_from c y (i + Z.of_nat (String.length x)).
Proof.
  revert i. induction x as [|d x IH]; intros i H.
  - rewrite append_nil. simpl. f_equal. lia.
  - rewrite append_cons. simpl in H |- *.
    apply andb_true_iff in H as [Hd Hx].
    apply negb_true_iff in Hd. rewrite Hd, (IH _ Hx). f_equal. lia.
Qed.

Lemma rfind_from_lacks (c : ascii) (s : string) (i found : Z) :
  lacks c s = true -> rfind_from c s i found = found.
Proof.
  revert i found. induction s as [|d s IH]; intros i found H; [reflexivity|].
  simpl in H |- *. apply andb_true_iff in H as [Hd Hs].
  apply negb_true_iff in Hd. rewrite Hd. apply IH, Hs.
Qed.

Lemma rfind_from_app (c : ascii) (x y : string) (i found : Z) :
  rfind_from c (x +:+ y) i found
  = rfind_from c y (i + Z.of_nat (String.length x)) (rfind_from c x i found).
Proof.
  revert i found. induction x as [|d x IH]; intros i found.
  - rewrite append_nil. simpl. f_equal. lia.
  - rewrite append_cons. simpl. rewrite IH. f_equal. lia.
Qed.

Lemma rfind_from_range (c : ascii) (s : string) (i found : Z) :
  rfind_from c s i found = found
  ∨ (i <= rfind_from c s i found < i + Z.of_nat (String.length s))%Z.
Proof.
  revert i found. induction s as [|d s IH]; intros i found; [left; reflexivity|].
  simpl rfind_from. simpl String.length.
  destruct (IH (i + 1)%Z (if Ascii.eqb d c then i else found)) as [->|H].
  - destruct (Ascii.eqb d c); [right; lia|left; reflexivity].
  - right. lia.
Qed.

Lemma substring_skip (x y : string) (n m : nat) :
  String.substring (String.length x + n) m (x +:+ y) = String.substring n m y.
Proof.
  induction x as [|d x IH]; [reflexivity|].
  rewrite append_cons. simpl. exact IH.
Qed.

Lemma substring_prefix (x y : string) :
  String.substring 0 (String.length x) (x +:+ y) = x.
Proof.
  induction x as [|d x IH].
  - rewrite append_nil. destruct y; reflexivity.
  - rewrite append_cons. simpl. rewrite IH. reflexivity.
Qed.

Lemma lacks_no_plus (s : string) : lacks "+" s = no_plus s.
Proof.
  induction s as [|d s IH]; [reflexivity|]. simpl. rewrite IH. reflexivity.
Qed.

Lemma pretty_N_char_no_colon (x : N) :
  Ascii.eqb (pretty_N_char x) ":"%char = false.
Proof.
  unfold pretty_N_char.
  destruct x as [|p]; [reflexivity|].
  repeat (destruct p as [p|p|]; try reflexivity).
Qed.

Lemma pretty_N_go_no_colon (x : N) (s : string) :
  lacks ":" s = true -> lacks ":" (pretty_N_go x s) = true.
Proof.
  revert s. induction (N.lt_wf_0 x) as [x _ IH]; intros s Hs.
  destruct (decide (x = 0%N)) as [->|Hx].
  - rewrite pretty_N_go_0. exact Hs.
  - rewrite pretty_N_go_step by lia. apply IH.
    + apply N.div_lt; lia.
    + simpl. rewrite pretty_N_char_no_colon, Hs. reflexivity.
Qed.

Lemma pretty_N_no_colon (x : N) : lacks ":" (pretty x) = true.
Proof.
  unfold pretty, pretty_N. case_decide; [reflexivity|].
  apply pretty_N_go_no_colon. reflexivity.
Qed.


Lemma append_nil_r (x : string) : x +:+ EmptyString = x.
Proof.
  induction x as [|c x IH]; [reflexivity|]. rewrite append_cons, IH. reflexivity.
Qed.

Lemma lacks_append (c : ascii) (x y : string) :
  lacks c (x +:+ y) = lacks c x && lacks c y.
Proof.
  induction x as [|d x IH]; [reflexivity|].
  rewrite append_cons. simpl. rewrite IH. apply andb_assoc.
Qed.

(** [substr] on a string given in three parts, asked for the middle one. *)
Lemma str_substr_mid (x y z s : string) (pos count : Z) :
  s = x +:+ y +:+ z ->
  pos = Z.of_nat (String.length x) ->
  Z.min count (Z.of_nat (String.length y + String.length z))
  = Z.of_nat (String.length y) ->
  str_substr s pos count = Some y.
Proof.
  intros -> -> Hc. unfold str_substr. rewrite !length_append.
  destruct (Z.ltb_spec
    (Z.of_nat (String.length x + (String.length y + String.length z)))
    (Z.of_nat (String.length x))) as [?|_]; [lia|].
  replace (Z.of_nat (String.length x + (String.length y + String.length z))
           - Z.of_nat (String.length x))%Z
    with (Z.of_nat (String.length y + String.length z)) by lia.
  rewrite Hc, !Nat2Z.id.
  rewrite <- (Nat.add_0_r (String.length x)) at 1.
  rewrite substring_skip, substring_prefix. reflexivity.
Qed.

Lemma size_wrap_small (z : Z) : (0 <= z < 2 ^ 64)%Z -> size_wrap z = z.
Proof. intros H. unfold size_wrap. apply Z.mod_small, H. Qed.

Section flow_key_search.
Variables (a b : string) (p q : N).

Lemma flow_key_length :
  Z.of_nat (String.length (flow_key (endpoint a p) (endpoint b q)))
  = (Z.of_nat (String.length a) + 1 + Z.of_nat (String.length (pretty p)) + 1
     + Z.of_nat (String.length b) + 1
     + Z.of_nat (String.length (pretty q)))%Z.
Proof.
  unfold flow_key, endpoint. rewrite !length_append.
  change (String.length ":") with 1%nat. change (String.length "+") with 1%nat.
  lia.
Qed.

Lemma flow_key_find_plus :
  lacks "+" a = true ->
  str_find (flow_key (endpoint a p) (endpoint b q)) "+"
  = (Z.of_nat (String.length a) + 1
     + Z.of_nat (String.length (pretty p)))%Z.
Proof.
  intros Ha. unfold str_find, flow_key.
  rewrite find_from_app_lacks.
  - rewrite append_cons. simpl find_from.
    unfold endpoint. rewrite !length_append.
    change (String.length ":") with 1%nat. lia.
  - unfold endpoint.
    rewrite !lacks_append, Ha, (lacks_no_plus (pretty p)), pretty_N_no_plus.
    reflexivity.
Qed.

Lemma flow_key_rfind_colon :
  str_rfind (flow_key (endpoint a p) (endpoint b q)) ":"
  = (Z.of_nat (String.length a) + 1 + Z.of_nat (String.length (pretty p)) + 1
     + Z.of_nat (String.length b))%Z.
Proof.
  unfold str_rfind, flow_key, endpoint.
  rewrite <- !append_assoc.
  rewrite rfind_from_app, rfind_from_lacks by apply pretty_N_no_colon.
  rewrite rfind_from_app. simpl rfind_from.
  rewrite !length_append.
  change (String.length ":") with 1%nat. change (String.length "+") with 1%nat.
  lia.
Qed.

Lemma flow_key_find_colon :
  lacks ":" a = true ->
  str_find (flow_key (endpoint a p) (endpoint b q)) ":"
  = Z.of_nat (String.length a).
Proof.
  intros Ha. unfold str_find, flow_key, endpoint.
  rewrite !append_assoc, (find_from_app_lacks _ _ _ _ Ha).
  rewrite append_cons. simpl find_from. reflexivity.
Qed.

(** The destination labels come out right whenever the source address has
    no plus sign: the first plus sign and the last colon of the key are
    the two separators written by [process_packet]. *)
Lemma parseLabels_destination :
  lacks "+" a = true ->
  (Z.of_nat (String.length (flow_key (endpoint a p) (endpoint b q)))
   < npos)%Z ->
  parseLabels (flow_key (endpoint a p) (endpoint b q))
  = match str_substr (flow_key (endpoint a p) (endpoint b q)) 0
            (str_find (flow_key (endpoint a p) (endpoint b q)) ":") with
    | None => None
    | Some srcIP => Some [srcIP; b; pretty q]
    end.
Proof.
  intros Ha Hlen. unfold parseLabels.
  destruct (str_substr _ 0 _) as [srcIP|]; [|reflexivity].
  rewrite (flow_key_find_plus Ha), flow_key_rfind_colon.
  pose proof flow_key_length as HL. unfold npos in Hlen.
  rewrite !size_wrap_small by lia.
  rewrite (str_substr_mid (a +:+ ":" +:+ pretty p +:+ "+") b
             (":" +:+ pretty q)).
  - rewrite (str_substr_mid (a +:+ ":" +:+ pretty p +:+ "+" +:+ b +:+ ":")
               (pretty q) EmptyString).
    + reflexivity.
    + unfold flow_key, endpoint.
      rewrite append_nil_r, !append_assoc. reflexivity.
    + rewrite !length_append.
      change (String.length ":") with 1%nat.
      change (String.length "+") with 1%nat. lia.
    + simpl String.length. unfold npos. lia.
  - unfold flow_key, endpoint. rewrite !append_assoc. reflexivity.
  - rewrite !length_append.
    change (String.length ":") with 1%nat.
    change (String.length "+") with 1%nat. lia.
  - lia.
Qed.

End flow_key_search.

(** The flow key built for a packet whose source address has neither
    colon nor plus sign is cut into that address, the destination address
    and the destination port. *)
Lemma parseLabels_fstr (t_tcp : TCP) (ipsstr ipdstr : string) :
  lacks ":" ipsstr = true ->
  lacks "+" ipsstr = true ->
  (Z.of_nat (String.length (fstr_of t_tcp ipsstr ipdstr)) < npos)%Z ->
  parseLabels (fstr_of t_tcp ipsstr ipdstr)
  = Some [ipsstr; ipdstr; pretty (dport t_tcp)].
Proof.
  intros Hc Hp Hlen. unfold fstr_of in *.
  rewrite (parseLabels_destination _ _ _ _ Hp Hlen).
  rewrite (flow_key_find_colon _ _ _ _ Hc).
  rewrite (str_substr_mid EmptyString ipsstr
             (":" +:+ pretty (sport t_tcp) +:+ "+" +:+
              endpoint ipdstr (dport t_tcp))).
  - reflexivity.
  - unfold flow_key, endpoint. rewrite append_nil, !append_assoc. reflexivity.
  - reflexivity.
  - lia.
Qed.

(** X12.  [parseLabels] never throws, whatever string it is given: a
    search that finds nothing returns [npos], and [npos + 1] wraps to
    position 0, so that no [substr] starts beyond the end of the string.
    Three labels are returned for every string shorter than [npos]. *)
Theorem parseLabels_never_throws (flowStr : string) :
  (Z.of_nat (String.length flowStr) < npos)%Z ->
  ∃ srcIP dstIP dstPort, parseLabels flowStr = Some [srcIP; dstIP; dstPort].
Proof.
  intros Hlen. unfold parseLabels, str_substr, str_find, str_rfind.
  unfold npos in Hlen.
  destruct (Z.ltb_spec (Z.of_nat (String.length flowStr)) 0) as [?|_]; [lia|].
  assert (size_wrap (find_from "+" flowStr 0 + 1)
          <= Z.of_nat (String.length flowStr))%Z as H1.
  { destruct (find_from_range "+" flowStr 0) as [->|H].
    - unfold npos, size_wrap. replace (2 ^ 64 - 1 + 1)%Z with (2 ^ 64)%Z by lia.
      rewrite Z.mod_same by lia. lia.
    - rewrite size_wrap_small; lia. }
  assert (size_wrap (rfind_from ":" flowStr 0 npos + 1)
          <= Z.of_nat (String.length flowStr))%Z as H2.
  { destruct (rfind_from_range ":" flowStr 0 npos) as [->|H].
    - unfold npos, size_wrap. replace (2 ^ 64 - 1 + 1)%Z with (2 ^ 64)%Z by lia.
      rewrite Z.mod_same by lia. lia.
    - rewrite size_wrap_small; lia. }
  destruct (Z.ltb_spec (Z.of_nat (String.length flowStr))
              (size_wrap (find_from "+" flowStr 0 + 1))) as [?|_]; [lia|].
  destruct (Z.ltb_spec (Z.of_nat (String.length flowStr))
              (size_wrap (rfind_from ":" flowStr 0 npos + 1))) as [?|_]; [lia|].
  eauto.
Qed.

Lemma parseLabels_never_throws_witness :
  ∃ srcIP dstIP dstPort, parseLabels EmptyString = Some [srcIP; dstIP; dstPort].
Proof.
  apply (parseLabels_never_throws EmptyString). vm_compute. reflexivity.
Defined.

Lemma lacks_split (c : ascii) (s : string) :
  lacks c s = false ->
  ∃ x rest, s = x +:+ String c rest ∧ lacks c x = true.
Proof.
  induction s as [|d s IH]; intros H; [discriminate|].
  simpl in H. destruct (Ascii.eqb d c) eqn:Hd.
  - apply Ascii.eqb_eq in Hd as ->. exists EmptyString, s. auto.
  - destruct (IH H) as (x & rest & -> & Hx).
    exists (String d x), rest. split; [reflexivity|].
    simpl. rewrite Hd, Hx. reflexivity.
Qed.

(** X13.  A source address with a colon (every IPv6 address) does not
    survive the round trip: the first label returned for the flow key is
    the address cut at its first colon, not the address under which the
    RTTs were observed; destination address and port are still right. *)
Theorem parseLabels_cuts_source_with_colon (t_tcp : TCP)
    (ipsstr ipdstr : string) :
  lacks ":" ipsstr = false ->
  lacks "+" ipsstr = true ->
  (Z.of_nat (String.length (fstr_of t_tcp ipsstr ipdstr)) < npos)%Z ->
  ∃ srcIP rest,
    ipsstr = srcIP +:+ ":" +:+ rest
    ∧ lacks ":" srcIP = true
    ∧ srcIP ≠ ipsstr
    ∧ parseLabels (fstr_of t_tcp ipsstr ipdstr)
      = Some [srcIP; ipdstr; pretty (dport t_tcp)].
Proof.
  intros Hc Hp Hlen.
  destruct (lacks_split _ _ Hc) as (x & rest & Heq & Hx).
  exists x, rest. split; [exact Heq|]. split; [exact Hx|]. split.
  { intros E. rewrite <- E, Hx in Hc. discriminate. }
  unfold fstr_of in *.
  rewrite (parseLabels_destination _ _ _ _ Hp Hlen).
  assert (flow_key (endpoint ipsstr (sport t_tcp))
                   (endpoint ipdstr (dport t_tcp))
          = EmptyString +:+ x
              +:+ (String ":" rest +:+ ":" +:+ pretty (sport t_tcp) +:+ "+" +:+
                   endpoint ipdstr (dport t_tcp))) as Hkey.
  { rewrite Heq. unfold flow_key, endpoint.
    rewrite append_nil, !append_assoc. reflexivity. }
  assert (str_find (flow_key (endpoint ipsstr (sport t_tcp))
                             (endpoint ipdstr (dport t_tcp))) ":"
          = Z.of_nat (String.length x)) as ->.
  { rewrite Hkey. unfold str_find.
    rewrite append_nil, (find_from_app_lacks _ _ _ _ Hx).
    rewrite append_cons. reflexivity. }
  rewrite (str_substr_mid _ _ _ _ _ _ Hkey); [reflexivity|reflexivity|lia].
Qed.

Lemma parseLabels_cuts_source_with_colon_witness :
  ∃ srcIP rest,
    "2001:db8::1"%string = srcIP +:+ ":" +:+ rest
    ∧ lacks ":" srcIP = true
    ∧ srcIP ≠ "2001:db8::1"%string
    ∧ parseLabels (fstr_of (mkTCP 1000 80 TCP_SYN None)
                           "2001:db8::1" "2001:db8::2")
      = Some [srcIP; "2001:db8::2"%string; "80"%string].
Proof.
  apply (parseLabels_cuts_source_with_colon (mkTCP 1000 80 TCP_SYN None)
           "2001:db8::1" "2001:db8::2").
  - reflexivity.
  - reflexivity.
  - vm_compute. reflexivity.
Defined.

(** ** Labels of a sample and keys of flows *)

Lemma track_sample_labels (cfg : Config) (s : State) (pkt : Packet) (tc : TCP)
    (v e : N) (a b : string) (s' : State) (out : list Sample) (x : Sample) :
  track cfg s pkt tc v e a b = Returns s' out -> x ∈ out ->
  s_flow x = fstr_of tc a b ∧ s_labels x = (a, b, pretty (dport tc)).
Proof.
  unfold track. intros H Hx.
  destruct (find_flow cfg s _ _) as [[s2 fr0]|].
  2:{ inversion H; subst. inversion Hx. }
  destruct (negb _).
  { inversion H; subst. inversion Hx. }
  destruct (record_fwd _ _ _ _ _) as [tbl1|]; [|discriminate].
  destruct (getTStm _ _) as [ti|].
  2:{ inversion H; subst. inversion Hx. }
  destruct (Qltb 0 (t ti)).
  2:{ inversion H; subst. inversion Hx. }
  destruct (_ !! _); [|discriminate].
  inversion H; subst s' out. apply list_elem_of_singleton in Hx. subst x.
  split; reflexivity.
Qed.

(** X14.  Round trip of the labels.  When a packet whose source address
    has neither colon nor plus sign (every IPv4 address) yields a sample,
    [parseLabels] cuts out of the sample's flow key exactly the three label
    values under which the RTT was observed: source address, destination
    address and destination port.  So the metric [cleanUp] asks to delete
    for an idle flow is the one the flow's samples went to. *)
Theorem labels_round_trip (cfg : Config) (s : State) (pkt : Packet)
    (tc : TCP) (v e : N) (a b : string) (s' : State) (out : list Sample)
    (x : Sample) :
  usable pkt = Some (tc, v, e, a, b) ->
  lacks ":" a = true ->
  lacks "+" a = true ->
  (Z.of_nat (String.length (fstr_of tc a b)) < npos)%Z ->
  process_packet cfg s pkt = Returns s' out ->
  x ∈ out ->
  s_labels x = (a, b, pretty (dport tc))
  ∧ parseLabels (s_flow x) = Some [a; b; pretty (dport tc)].
Proof.
  intros Hu Hc Hp Hlen H Hx.
  rewrite (process_packet_usable cfg s pkt _ _ _ _ _ Hu) in H.
  destruct (track_sample_labels _ _ _ _ _ _ _ _ _ _ _ H Hx) as [Hf Hl].
  split; [exact Hl|]. rewrite Hf.
  exact (parseLabels_fstr tc a b Hc Hp Hlen).
Qed.

(** The sample of [rev_pkt] in the exchange of [two_samples_run]. *)
Lemma labels_round_trip_witness :
  ∃ x, outs (process_packet default_config
               (state_after default_config (established_run ++ [Pkt fwd_pkt]))
               rev_pkt) = [x]
       ∧ s_labels x = (hostB, hostA, "1000"%string)
       ∧ parseLabels (s_flow x) = Some [hostB; hostA; "1000"%string].
Proof.
  assert (Hp : process_packet default_config
                 (state_after default_config
                    (established_run ++ [Pkt fwd_pkt])) rev_pkt
               = Returns (next_state default_config
                            (state_after default_config
                               (established_run ++ [Pkt fwd_pkt])) rev_pkt)
                         (outs (process_packet default_config
                                  (state_after default_config
                                     (established_run ++ [Pkt fwd_pkt]))
                                  rev_pkt)))
    by (vm_compute; reflexivity).
  assert (Hx : ∃ x, outs (process_packet default_config
                            (state_after default_config
                               (established_run ++ [Pkt fwd_pkt]))
                            rev_pkt) = [x]).
  { eexists. vm_compute. reflexivity. }
  destruct Hx as [x Hx]. exists x. split; [exact Hx|].
  assert (Hin : x ∈ outs (process_packet default_config
                            (state_after default_config
                               (established_run ++ [Pkt fwd_pkt]))
                            rev_pkt)).
  { rewrite Hx. apply list_elem_of_here. }
  assert (Hu : usable rev_pkt = Some (rev_tcp, 6%N, 100%N, hostB, hostA))
    by reflexivity.
  assert (Hlen : (Z.of_nat (String.length (fstr_of rev_tcp hostB hostA))
                  < npos)%Z) by (vm_compute; reflexivity).
  exact (labels_round_trip default_config _ rev_pkt rev_tcp 6 100 hostB hostA
           _ _ x Hu eq_refl eq_refl Hlen Hp Hin).
Defined.

Lemma sep_first_inj (c : ascii) (x x' y y' : string) :
  lacks c x = true -> lacks c x' = true ->
  x +:+ String c y = x' +:+ String c y' -> x = x' ∧ y = y'.
Proof.
  revert x'. induction x as [|d x IH]; intros [|d' x'] Hx Hx' H.
  - rewrite !append_nil in H. injection H as ->. auto.
  - rewrite append_nil, append_cons in H. injection H as <- _.
    simpl in Hx'. rewrite Ascii.eqb_refl in Hx'. discriminate.
  - rewrite append_nil, append_cons in H. injection H as -> _.
    simpl in Hx. rewrite Ascii.eqb_refl in Hx. discriminate.
  - rewrite !append_cons in H. injection H as -> H.
    simpl in Hx, Hx'. apply andb_true_iff in Hx as [_ Hx].
    apply andb_true_iff in Hx' as [_ Hx'].
    destruct (IH x' Hx Hx' H) as [-> ->]. auto.
Qed.

Lemma lacks_app_sep (c : ascii) (x y : string) :
  lacks c (x +:+ String c y) = false.
Proof.
  rewrite lacks_append. simpl. rewrite Ascii.eqb_refl. apply andb_false_r.
Qed.

(** An endpoint determines its address and its port: the port is what
    follows the last colon. *)
Lemma endpoint_inj (a a' : string) (p p' : N) :
  endpoint a p = endpoint a' p' -> a = a' ∧ p = p'.
Proof.
  unfold endpoint. change (":" +:+ pretty p) with (String ":" (pretty p)).
  change (":" +:+ pretty p') with (String ":" (pretty p')).
  revert a'. induction a as [|d a IH]; intros [|d' a'] H.
  - rewrite !append_nil in H. injection H as H.
    apply (inj (@pretty N pretty_N)) in H. auto.
  - exfalso. rewrite append_nil, append_cons in H. injection H as _ H.
    pose proof (pretty_N_no_colon p) as Hp.
    rewrite H, lacks_app_sep in Hp. discriminate.
  - exfalso. rewrite append_nil, append_cons in H. injection H as _ H.
    pose proof (pretty_N_no_colon p') as Hp.
    rewrite <- H, lacks_app_sep in Hp. discriminate.
  - rewrite !append_cons in H. injection H as -> H.
    destruct (IH a' H) as [-> ->]. auto.
Qed.

(** X15.  Flow keys do not collide: two packets whose source addresses
    have no plus sign get the same flow key only if they agree in source
    address, source port, destination address and destination port.  So a
    flow record and the label values cut out of its key belong to one
    connection direction only. *)
Theorem flow_key_determines_connection (tc tc' : TCP) (a b a' b' : string) :
  lacks "+" a = true -> lacks "+" a' = true ->
  fstr_of tc a b = fstr_of tc' a' b' ->
  a = a' ∧ sport tc = sport tc' ∧ b = b' ∧ dport tc = dport tc'.
Proof.
  intros Ha Ha' H. unfold fstr_of, flow_key in H.
  change ("+" +:+ endpoint b (dport tc))
    with (String "+" (endpoint b (dport tc))) in H.
  change ("+" +:+ endpoint b' (dport tc'))
    with (String "+" (endpoint b' (dport tc'))) in H.
  apply sep_first_inj in H.
  - destruct H as [Hs Hd].
    apply endpoint_inj in Hs as [-> ->]. apply endpoint_inj in Hd as [-> ->].
    auto.
  - unfold endpoint.
    rewrite !lacks_append, Ha, (lacks_no_plus (pretty _)), pretty_N_no_plus.
    reflexivity.
  - unfold endpoint.
    rewrite !lacks_append, Ha', (lacks_no_plus (pretty _)), pretty_N_no_plus.
    reflexivity.
Qed.

Lemma flow_key_determines_connection_witness :
  hostA = hostA ∧ sport fwd_tcp = sport (mkTCP 1000 80 TCP_SYN None)
  ∧ hostB = hostB ∧ dport fwd_tcp = dport (mkTCP 1000 80 TCP_SYN None).
Proof.
  apply (flow_key_determines_connection fwd_tcp (mkTCP 1000 80 TCP_SYN None)
           hostA hostB hostA hostB).
  - reflexivity.
  - reflexivity.
  - vm_compute. reflexivity.
Defined.

(** ** Options and the packet loop of [main] *)

Lemma last_cons {A} (x d : A) (l : list A) :
  List.last (x :: l) d = List.last l x.
Proof.
  revert x d. induction l as [|y l IH]; intros x d; [reflexivity|].
  change (List.last (x :: y :: l) d) with (List.last (y :: l) d).
  rewrite !IH. reflexivity.
Qed.

Lemma parse_opts_help (o : Options) (cs : list opt) :
  existsb asks_help cs = true -> parse_opts o cs = inl 0%Z.
Proof.
  revert o. induction cs as [|c cs IH]; intros o H; [discriminate|].
  simpl in H. destruct c; simpl in *; try (apply IH; exact H); reflexivity.
Qed.

Lemma parse_opts_input (o : Options) (cs : list opt) :
  existsb asks_help cs = false ->
  ∃ o', parse_opts o cs = inr o'
        ∧ liveInp o' = liveInp o || existsb names_interface cs
        ∧ fname o' = List.last (input_args cs) (fname o).
Proof.
  revert o. induction cs as [|c cs IH]; intros o H.
  - exists o. simpl. rewrite orb_false_r. auto.
  - simpl in H. apply orb_false_iff in H as [Hc H].
    destruct c; try discriminate;
      cbn [parse_opts handle_opt input_args existsb names_interface];
      match goal with
      | |- context [parse_opts ?o1 cs] =>
          destruct (IH o1 H) as (o' & -> & Hl & Hf)
      end;
      exists o'; cbn [liveInp fname] in Hl, Hf;
      rewrite ?last_cons, ?orb_false_l, ?orb_true_l, ?orb_true_r; auto.
Qed.

(** X16.  What the command line decides before the capture starts.  An
    option [-h] anywhere ends the program with exit code 0, whatever else
    is given.  Without it, all options are read; the capture is live as
    soon as one [-i] was given, also when a [-r] follows, and the input
    name is the argument of the last [-i] or [-r]; the program exits with
    code 1 when an argument is left over or that name is empty, and else
    goes on with these settings. *)
Theorem main_start_cases (cs : list opt) (leftover : bool) :
  if existsb asks_help cs then main_start cs leftover = inl 0%Z
  else ∃ o, parse_opts default_options cs = inr o
            ∧ liveInp o = existsb names_interface cs
            ∧ fname o = List.last (input_args cs) EmptyString
            ∧ main_start cs leftover
              = if leftover || bool_decide (fname o = EmptyString)
                then inl 1%Z
                else inr (o, ":9876"%string, "/metrics"%string).
Proof.
  destruct (existsb asks_help cs) eqn:Hh.
  - unfold main_start. rewrite (parse_opts_help _ _ Hh).
    destruct cs; [discriminate|reflexivity].
  - destruct (parse_opts_input default_options cs Hh) as (o & Hp & Hl & Hf).
    exists o. split; [exact Hp|]. split; [exact Hl|]. split; [exact Hf|].
    unfold main_start. rewrite Hp.
    destruct cs as [|c cs]; [|reflexivity].
    destruct leftover; [reflexivity|].
    simpl in Hp. inversion Hp; subst o. reflexivity.
Qed.

Lemma find_flow_pktCnt (cfg : Config) (s s2 : State) (fk rk : string)
    (fr : flowRec) :
  find_flow cfg s fk rk = Some (s2, fr) -> pktCnt s2 = pktCnt s.
Proof.
  unfold find_flow. intros H.
  destruct (flows s !! fk); [inversion H; reflexivity|].
  destruct (maxFlows cfg <? flowCnt s)%Z; [discriminate|].
  destruct (_ !! rk); inversion H; reflexivity.
Qed.

Lemma track_pktCnt (cfg : Config) (s : State) (pkt : Packet) (tc : TCP)
    (v e : N) (a b : string) (s' : State) (out : list Sample) :
  track cfg s pkt tc v e a b = Returns s' out -> pktCnt s' = pktCnt s.
Proof.
  unfold track. intros H.
  destruct (find_flow cfg s _ _) as [[s2 fr0]|] eqn:Hf.
  2:{ inversion H; reflexivity. }
  apply find_flow_pktCnt in Hf.
  destruct (negb _).
  { inversion H; subst. exact Hf. }
  destruct (record_fwd _ _ _ _ _) as [tbl1|]; [|discriminate].
  destruct (getTStm _ _) as [ti|].
  2:{ inversion H; subst. exact Hf. }
  destruct (Qltb 0 (t ti)).
  2:{ inversion H; subst. exact Hf. }
  destruct (_ !! _); [|discriminate].
  inversion H; subst. exact Hf.
Qed.

(** Every packet handed to [process_packet] is counted once. *)
Lemma process_packet_pktCnt (cfg : Config) (s : State) (pkt : Packet)
    (s' : State) (out : list Sample) :
  process_packet cfg s pkt = Returns s' out -> pktCnt s' = (pktCnt s + 1)%Z.
Proof.
  intros H.
  destruct (usable pkt) as [[[[[tc v] e] a] b]|] eqn:Hu.
  - rewrite (process_packet_usable cfg s pkt _ _ _ _ _ Hu) in H.
    apply track_pktCnt in H. rewrite H.
    unfold normalize_time. destruct (offTm (inc_pktCnt s) <? 0)%Z; reflexivity.
  - unfold usable in Hu. unfold process_packet in H.
    destruct (tcp pkt) as [tc|]; [|inversion H; reflexivity].
    destruct (timestamp tc) as [[v e]|]; [|inversion H; reflexivity].
    destruct (unusable_ts tc v e); [inversion H; reflexivity|].
    destruct (net pkt); try discriminate. inversion H; reflexivity.
Qed.

Lemma cleanUpLoop_body_pktCnt (cfg : Config) (now : Z) (s : State) :
  pktCnt (cleanUpLoop_body cfg now s) = pktCnt s.
Proof.
  unfold cleanUpLoop_body. destruct (0 <? offTm s)%Z; reflexivity.
Qed.

Lemma summary_block_quiet (cfg : Config) (nxtSum : Q) (s : State) :
  (sumInt cfg == 0)%Q -> summary_block cfg nxtSum s = (s, nxtSum, []).
Proof.
  intros H. unfold summary_block.
  apply Qeq_bool_iff in H. rewrite H, andb_false_r. reflexivity.
Qed.

Lemma n_packets_nonneg (evs : list event) : (0 <= n_packets evs)%Z.
Proof. induction evs as [|[p|n] evs IH]; simpl n_packets; lia. Qed.

(** X17.  The packet limit of [-c] with summaries switched off and no time
    limit: the loop handles packets until [maxPackets] of them have been
    counted and then stops, so that it ends with
    min(packets offered, maxPackets) packets counted; it writes to standard
    error only when the limit was reached, and then the summary line and
    the line with the number of captured packets, which is [maxPackets]. *)
Theorem packet_limit_stops_capture (cfg : Config) (o : Options) (nxtSum : Q)
    (s : State) (evs : list event) (s' : State) (nxtSum' : Q)
    (out : list Sample) (err : list err_line) :
  (sumInt cfg == 0)%Q ->
  (time_to_run o <= 0)%Q ->
  (pktCnt s < maxPackets o)%Z ->
  (0 < maxPackets o)%Z ->
  packet_loop cfg o nxtSum s evs = LoopDone s' nxtSum' out err ->
  pktCnt s' = Z.min (pktCnt s + n_packets evs) (maxPackets o)
  ∧ err = if (maxPackets o <=? pktCnt s + n_packets evs)%Z
          then [SummaryLine (printSummary s');
                CapturedLine (maxPackets o) (capTm s' - startm s')]
          else [].
Proof.
  intros Hq Ht Hlt Hpos. revert s nxtSum s' nxtSum' out err Hlt.
  assert (Htime : Qltb 0 (time_to_run o) = false).
  { apply Qltb_ge. exact Ht. }
  induction evs as [|[pkt|now] evs IH];
    intros s nxtSum s' nxtSum' out err Hlt H; simpl in H.
  - inversion H; subst. simpl n_packets.
    destruct (Z.leb_spec (maxPackets o) (pktCnt s' + 0)); [lia|].
    split; [lia|reflexivity].
  - destruct (process_packet cfg s pkt) as [s1 out1|e] eqn:Hp; [|discriminate].
    apply process_packet_pktCnt in Hp.
    pose proof (n_packets_nonneg evs) as Hn.
    unfold stop_capture in H. rewrite Htime in H. simpl in H.
    destruct (Z.ltb_spec 0 (maxPackets o)) as [_|?]; [|lia]. simpl in H.
    change (n_packets (Pkt pkt :: evs)) with (1 + n_packets evs)%Z.
    destruct (Z.leb_spec (maxPackets o) (pktCnt s1)) as [Hge|Hlt1].
    + inversion H; subst.
      destruct (Z.leb_spec (maxPackets o) (pktCnt s + (1 + n_packets evs)));
        [|lia].
      split; [lia|]. do 2 f_equal. f_equal. lia.
    + rewrite (summary_block_quiet cfg nxtSum s1 Hq) in H.
      destruct (packet_loop cfg o nxtSum s1 evs) as [s3 nx3 out3 err3|e] eqn:Hl;
        [|discriminate].
      inversion H; subst. simpl.
      destruct (IH _ _ _ _ _ _ Hlt1 Hl) as [Hc He].
      rewrite Hp in Hc, He.
      replace (pktCnt s + (1 + n_packets evs))%Z
        with (pktCnt s + 1 + n_packets evs)%Z by lia.
      split; [exact Hc|exact He].
  - change (n_packets (Reap now :: evs)) with (n_packets evs).
    rewrite <- (cleanUpLoop_body_pktCnt cfg now s) in *.
    exact (IH _ _ _ _ _ _ Hlt H).
Qed.

(** Four packets offered with [-c 3]: the loop stops after the third. *)
Lemma packet_limit_stops_capture_witness :
  ∃ s' nxtSum' out err,
    packet_loop quiet_config count_three 0 init_state
      (established_run ++ [Pkt fwd_pkt; Pkt rev_pkt])
    = LoopDone s' nxtSum' out err
    ∧ pktCnt s' = 3%Z
    ∧ err = [SummaryLine (printSummary s');
             CapturedLine 3 (capTm s' - startm s')].
Proof.
  destruct (packet_loop quiet_config count_three 0 init_state
              (established_run ++ [Pkt fwd_pkt; Pkt rev_pkt]))
    as [s' nxtSum' out err|e] eqn:H.
  2:{ vm_compute in H. discriminate. }
  exists s', nxtSum', out, err. split; [reflexivity|].
  assert (Hq : (sumInt quiet_config == 0)%Q) by reflexivity.
  assert (Ht : (time_to_run count_three <= 0)%Q) by (vm_compute; discriminate).
  assert (Hlt : (pktCnt init_state < maxPackets count_three)%Z)
    by reflexivity.
  assert (Hpos : (0 < maxPackets count_three)%Z) by reflexivity.
  exact (packet_limit_stops_capture quiet_config count_three 0 init_state
           _ s' nxtSum' out err Hq Ht Hlt Hpos H).
Defined.

(** ** Flows seen in one direction only, in the packet loop *)




